(** * A shallow embedding of the pion/ice agent core (vendored in IceFireDB)

    Sources embedded here:
    - [vendor/github.com/pion/ice/v2/agent.go]: the agent's task-serialised
      state, its candidate and pair bookkeeping, the pending binding-request
      cache, the timers of the connectivity-check loop, [Restart] and the
      shutdown path of [taskLoop];
    - the NAT 1:1 external IP mapper ([ipMapping], [externalIPMapper]).

    Conventions.  Go's [time.Duration] is a 64-bit signed count of
    nanoseconds and is modelled as a [Z] with the wrap-around of [+] written
    out; [time.Time] is an instant in nanoseconds and [Time.Sub] saturates.
    Go maps are [gmap]s, slices are lists, [nil]-able values are [option]s,
    [(value, error)] results are a [result].  Objects that the Go code shares
    through pointers (candidate pairs, the per-candidate timestamps) live in
    explicit stores indexed by the object's address. *)

From Stdlib Require Import ZArith Lia Ascii String List.
From stdpp Require Import base option list gmap strings fin_maps countable.

Local Open Scope Z_scope.

(** ** Errors and results *)

(** The package-level error values that the embedded functions return. *)
Inductive Error : Type :=
  | ErrClosed
  | ErrInvalidNAT1To1IPMapping
  | ErrExternalMappedIPNotFound
  | ErrUnsupportedNAT1To1IPCandidateType
  | ErrLocalUfragInsufficientBits
  | ErrLocalPwdInsufficientBits
  | ErrRemoteUfragEmpty
  | ErrRemotePwdEmpty
  | ErrAddressParseFailed
  | ErrMultipleStart
  | ErrRandom    (* a failure reported by the random string generator *)
  | ErrContextCanceled           (* [context.Canceled] *)
  | ErrContextDeadlineExceeded.  (* [context.DeadlineExceeded] *)

#[global] Instance Error_eq_dec : EqDecision Error.
Proof. solve_decision. Defined.

(** A Go [(T, error)] pair in which exactly one side is meaningful. *)
Inductive result (A : Type) : Type :=
  | Ok (a : A)
  | Err (e : Error).
Arguments Ok {A} a.
Arguments Err {A} e.

(** Sequencing stops at the first error, as [if err != nil { return err }]. *)
#[global] Instance result_bind : MBind result := fun A B k r =>
  match r with
  | Ok a => k a
  | Err e => Err e
  end.

(** ** Enumerations of the package *)

Inductive CandidateType : Type :=
  | CandidateTypeUnspecified
  | CandidateTypeHost
  | CandidateTypeServerReflexive
  | CandidateTypePeerReflexive
  | CandidateTypeRelay.

#[global] Instance CandidateType_eq_dec : EqDecision CandidateType.
Proof. solve_decision. Defined.

(** * The NAT 1:1 external IP mapper *)

Module net.

(** [net.IP] is a byte slice of length 4 or 16. *)
Definition IP : Type := list Z.

Definition IPv4len : nat := 4.
Definition IPv6len : nat := 16.

Definition isZeros (p : list Z) : bool := forallb (Z.eqb 0) p.

(** [IP.To4]: the 4-byte form of an IPv4 address, [None] for Go's [nil]. *)
Definition To4 (ip : IP) : option IP :=
  if Nat.eqb (length ip) IPv4len then Some ip
  else if Nat.eqb (length ip) IPv6len
          && isZeros (firstn 10 ip)
          && Z.eqb (nth 10 ip 0) 255
          && Z.eqb (nth 11 ip 0) 255
       then Some (skipn 12 ip)
       else None.

End net.

(** [strings.Split(s, "/")]: the pieces of [s] between slashes; never empty. *)
Fixpoint Split (s : string) : list string :=
  match s with
  | EmptyString => [ EmptyString ]
  | String c rest =>
      if Ascii.eqb c "/"%char then EmptyString :: Split rest
      else match Split rest with
           | [] => [ String c EmptyString ]
           | piece :: pieces => String c piece :: pieces
           end
  end.

(** [ipMapping] holds the local-to-external mapping of one IP family. *)
Record ipMapping : Type := mkIpMapping {
  ipSole : option net.IP;          (* sole external IP, when set *)
  ipMap  : gmap string net.IP;     (* k: local, v: external *)
  valid  : bool                    (* false until an external IP is set *)
}.

Record externalIPMapper : Type := mkExternalIPMapper {
  ipv4Mapping   : ipMapping;
  ipv6Mapping   : ipMapping;
  candidateType : CandidateType
}.

Section ExternalIPMapper.

(** The address parser and printer of Go's standard library. *)
Variable ParseIP : string -> option net.IP.
Variable IPString : net.IP -> string.

Definition validateIPString (ipStr : string) : result (net.IP * bool) :=
  match ParseIP ipStr with
  | None => Err ErrInvalidNAT1To1IPMapping
  | Some ip => Ok (ip, bool_decide (net.To4 ip <> None))
  end.

Definition setSoleIP (m : ipMapping) (ip : net.IP) : result ipMapping :=
  if bool_decide (ipSole m <> None) || bool_decide (0 < size (ipMap m))%nat
  then Err ErrInvalidNAT1To1IPMapping
  else Ok {| ipSole := Some ip; ipMap := ipMap m; valid := true |}.

Definition addIPMapping (m : ipMapping) (locIP extIP : net.IP) : result ipMapping :=
  if bool_decide (ipSole m <> None) then Err ErrInvalidNAT1To1IPMapping
  else
    let locIPStr := IPString locIP in
    match ipMap m !! locIPStr with
    | Some _ => Err ErrInvalidNAT1To1IPMapping
    | None =>
        Ok {| ipSole := ipSole m;
              ipMap := <[ locIPStr := extIP ]> (ipMap m);
              valid := true |}
    end.

Definition ipMapping_findExternalIP (m : ipMapping) (locIP : net.IP) : result net.IP :=
  if negb (valid m) then Ok locIP
  else match ipSole m with
       | Some sole => Ok sole
       | None =>
           match ipMap m !! IPString locIP with
           | None => Err ErrExternalMappedIPNotFound
           | Some extIP => Ok extIP
           end
       end.

Definition with_ipv4 (mapper : externalIPMapper) (m : ipMapping) : externalIPMapper :=
  {| ipv4Mapping := m; ipv6Mapping := ipv6Mapping mapper;
     candidateType := candidateType mapper |}.

Definition with_ipv6 (mapper : externalIPMapper) (m : ipMapping) : externalIPMapper :=
  {| ipv4Mapping := ipv4Mapping mapper; ipv6Mapping := m;
     candidateType := candidateType mapper |}.

(** One iteration of the loop of [newExternalIPMapper] over [ips]. *)
Definition addMappingEntry (mapper : externalIPMapper) (extIPStr : string)
  : result externalIPMapper :=
  match Split extIPStr with
  | [] => Err ErrInvalidNAT1To1IPMapping
  | [ ext ] =>
      '(extIP, isExtIPv4) ← validateIPString ext;
      if isExtIPv4 : bool
      then m ← setSoleIP (ipv4Mapping mapper) extIP; Ok (with_ipv4 mapper m)
      else m ← setSoleIP (ipv6Mapping mapper) extIP; Ok (with_ipv6 mapper m)
  | [ ext ; loc ] =>
      '(extIP, isExtIPv4) ← validateIPString ext;
      '(locIP, isLocIPv4) ← validateIPString loc;
      if isExtIPv4 : bool
      then if negb isLocIPv4 then Err ErrInvalidNAT1To1IPMapping
           else m ← addIPMapping (ipv4Mapping mapper) locIP extIP;
                Ok (with_ipv4 mapper m)
      else if isLocIPv4 : bool then Err ErrInvalidNAT1To1IPMapping
           else m ← addIPMapping (ipv6Mapping mapper) locIP extIP;
                Ok (with_ipv6 mapper m)
  | _ => Err ErrInvalidNAT1To1IPMapping
  end.

Fixpoint addMappingEntries (mapper : externalIPMapper) (ips : list string)
  : result externalIPMapper :=
  match ips with
  | [] => Ok mapper
  | extIPStr :: rest =>
      mapper' ← addMappingEntry mapper extIPStr; addMappingEntries mapper' rest
  end.

Definition emptyIpMapping : ipMapping :=
  {| ipSole := None; ipMap := ∅; valid := false |}.

(** [newExternalIPMapper]; [Ok None] is Go's [(nil, nil)]. *)
Definition newExternalIPMapper (candidateType : CandidateType) (ips : list string)
  : result (option externalIPMapper) :=
  match ips with
  | [] => Ok None
  | _ =>
      candidateType ←
        (if bool_decide (candidateType = CandidateTypeUnspecified)
         then Ok CandidateTypeHost   (* defaults to host *)
         else if bool_decide (candidateType <> CandidateTypeHost)
                 && bool_decide (candidateType <> CandidateTypeServerReflexive)
              then Err ErrUnsupportedNAT1To1IPCandidateType
              else Ok candidateType);
      mapper ← addMappingEntries
                 {| ipv4Mapping := emptyIpMapping;
                    ipv6Mapping := emptyIpMapping;
                    candidateType := candidateType |} ips;
      Ok (Some mapper)
  end.

Definition findExternalIP (m : externalIPMapper) (localIPStr : string)
  : result net.IP :=
  '(locIP, isLocIPv4) ← validateIPString localIPStr;
  if isLocIPv4 : bool
  then ipMapping_findExternalIP (ipv4Mapping m) locIP
  else ipMapping_findExternalIP (ipv6Mapping m) locIP.

End ExternalIPMapper.

(** * Time *)

Module time.

(** [time.Duration]: signed 64-bit nanoseconds. *)
Definition Duration : Type := Z.
(** [time.Time]: an instant, in nanoseconds since the Unix epoch. *)
Definition Time : Type := Z.

Definition minDuration : Duration := - 2 ^ 63.
Definition maxDuration : Duration := 2 ^ 63 - 1.

Definition Nanosecond : Duration := 1.
Definition Millisecond : Duration := 1000000.
Definition Second : Duration := 1000000000.

(** Two's-complement reduction of an integer to the [int64] range. *)
Definition wrap (z : Z) : Duration := (z + 2 ^ 63) mod 2 ^ 64 - 2 ^ 63.

(** [d + e] on durations, as the machine computes it. *)
Definition add (d e : Duration) : Duration := wrap (d + e).

(** [t.Sub(u)]: the difference, saturated to the range of a duration. *)
Definition Sub (t u : Time) : Duration :=
  if t - u <? minDuration then minDuration
  else if maxDuration <? t - u then maxDuration
  else t - u.

(** [time.Since(t)] when the clock reads [now]. *)
Definition Since (now t : Time) : Duration := Sub now t.

(** [time.Time{}], January 1 of year 1. *)
Definition zero : Time := - 62135596800 * Second.

End time.

(** * Strings *)

(** The bytes of a Go string. *)
Definition bytes (s : string) : list Z :=
  (fun c => Z.of_N (N_of_ascii c)) <$> list_ascii_of_string s.

(** Width in bytes of the rune decoded at the head of a non-empty byte
    sequence (UTF-8; an ill-formed sequence decodes to U+FFFD, width 1). *)
Definition runeWidth (bs : list Z) : nat :=
  let cont b := (128 <=? b) && (b <=? 191) in
  let within lo hi b := (lo <=? b) && (b <=? hi) in
  match bs with
  | [] => 0%nat
  | s0 :: tl =>
      if s0 <? 194 then 1%nat                     (* ASCII, or invalid *)
      else if s0 <? 224 then                       (* 0xC2..0xDF *)
        match tl with
        | s1 :: _ => if cont s1 then 2%nat else 1%nat
        | _ => 1%nat
        end
      else if s0 <? 240 then                       (* 0xE0..0xEF *)
        match tl with
        | s1 :: s2 :: _ =>
            let lo := if s0 =? 224 then 160 else 128 in
            let hi := if s0 =? 237 then 159 else 191 in
            if within lo hi s1 && cont s2 then 3%nat else 1%nat
        | _ => 1%nat
        end
      else if s0 <? 245 then                       (* 0xF0..0xF4 *)
        match tl with
        | s1 :: s2 :: s3 :: _ =>
            let lo := if s0 =? 240 then 144 else 128 in
            let hi := if s0 =? 244 then 143 else 191 in
            if within lo hi s1 && cont s2 && cont s3 then 4%nat else 1%nat
        | _ => 1%nat
        end
      else 1%nat                                   (* 0xF5..0xFF: invalid *)
  end.

Fixpoint countRunes (fuel : nat) (bs : list Z) : nat :=
  match fuel, bs with
  | S fuel', _ :: _ => S (countRunes fuel' (skipn (runeWidth bs) bs))
  | _, _ => 0%nat
  end.

(** [len([]rune(s))]. *)
Definition runeCount (s : string) : Z :=
  Z.of_nat (countRunes (length (bytes s)) (bytes s)).

(** [strings.HasSuffix]. *)
Definition HasSuffix (s suffix : string) : bool :=
  (String.length suffix <=? String.length s)%nat
  && String.eqb
       (substring (String.length s - String.length suffix) (String.length suffix) s)
       suffix.

(** * The agent's data model *)

(** Modelled from the spec: the declaration of [ConnectionState] is outside
    the supplied sources; these are the spec's six states, preceded by the
    zero value from which [connectivityChecks] starts. *)
Inductive ConnectionState : Type :=
  | ConnectionStateUnknown
  | ConnectionStateNew
  | ConnectionStateChecking
  | ConnectionStateConnected
  | ConnectionStateDisconnected
  | ConnectionStateFailed
  | ConnectionStateClosed.

#[global] Instance ConnectionState_eq_dec : EqDecision ConnectionState.
Proof. solve_decision. Defined.

Inductive GatheringState : Type :=
  | GatheringStateNew
  | GatheringStateGathering
  | GatheringStateComplete.

#[global] Instance GatheringState_eq_dec : EqDecision GatheringState.
Proof. solve_decision. Defined.

Inductive NetworkType : Type :=
  | NetworkTypeUDP4
  | NetworkTypeUDP6
  | NetworkTypeTCP4
  | NetworkTypeTCP6.

#[global] Instance NetworkType_eq_dec : EqDecision NetworkType.
Proof. solve_decision. Defined.

#[global] Instance NetworkType_countable : Countable NetworkType.
Proof.
  refine (inj_countable'
            (fun t => match t with
                      | NetworkTypeUDP4 => 0 | NetworkTypeUDP6 => 1
                      | NetworkTypeTCP4 => 2 | NetworkTypeTCP6 => 3
                      end%nat)
            (fun n => match n with
                      | 0 => NetworkTypeUDP4 | 1 => NetworkTypeUDP6
                      | 2 => NetworkTypeTCP4 | _ => NetworkTypeTCP6
                      end%nat) _).
  by intros [].
Defined.

Definition IsTCP (t : NetworkType) : bool :=
  match t with
  | NetworkTypeTCP4 | NetworkTypeTCP6 => true
  | _ => false
  end.

Inductive TCPType : Type :=
  | TCPTypeUnspecified
  | TCPTypeActive
  | TCPTypePassive
  | TCPTypeSimultaneousOpen.

#[global] Instance TCPType_eq_dec : EqDecision TCPType.
Proof. solve_decision. Defined.

Inductive MulticastDNSMode : Type :=
  | MulticastDNSModeDisabled
  | MulticastDNSModeQueryOnly
  | MulticastDNSModeQueryAndGather.

#[global] Instance MulticastDNSMode_eq_dec : EqDecision MulticastDNSMode.
Proof. solve_decision. Defined.

(** A candidate object.  [c_ptr] is the address of the object: two
    candidates with the same attributes are still two objects.  The
    timestamps that the object updates atomically are kept in the agent's
    [lastReceived] store. *)
Record Candidate : Type := mkCandidate {
  c_ptr         : nat;
  c_NetworkType : NetworkType;
  c_Type        : CandidateType;
  c_Address     : string;
  c_Port        : Z;
  c_TCPType     : TCPType;
  c_Component   : Z;
  c_Foundation  : string;
  c_isHost      : bool     (* the dynamic type is [*CandidateHost] *)
}.

#[global] Instance Candidate_eq_dec : EqDecision Candidate.
Proof. solve_decision. Defined.

(** Modelled from the spec: [Candidate.Equal] is implemented outside the
    supplied sources; candidates are equality-compared by foundation,
    address, port and component. *)
Definition Equal (c other : Candidate) : bool :=
  String.eqb (c_Foundation c) (c_Foundation other)
  && String.eqb (c_Address c) (c_Address other)
  && (c_Port c =? c_Port other)
  && (c_Component c =? c_Component other).

(** [Candidate.addr()]: the transport address of the candidate. *)
Definition addr (c : Candidate) : string * Z := (c_Address c, c_Port c).

Inductive CandidatePairState : Type :=
  | CandidatePairStateWaiting
  | CandidatePairStateInProgress
  | CandidatePairStateFailed
  | CandidatePairStateSucceeded
  | CandidatePairStateFrozen.

Record CandidatePair : Type := mkCandidatePair {
  iceRoleControlling  : bool;
  Remote              : Candidate;
  Local               : Candidate;
  bindingRequestCount : Z;
  state               : CandidatePairState;
  nominated           : bool
}.

(** Modelled from the spec: [newCandidatePair] is implemented outside the
    supplied sources; a new pair joins its two endpoints under the agent's
    role, has sent no binding request and is not nominated. *)
Definition newCandidatePair (local remote : Candidate) (controlling : bool)
  : CandidatePair :=
  {| iceRoleControlling := controlling; Remote := remote; Local := local;
     bindingRequestCount := 0; state := CandidatePairStateWaiting;
     nominated := false |}.

Definition nominate (p : CandidatePair) : CandidatePair :=
  {| iceRoleControlling := iceRoleControlling p; Remote := Remote p;
     Local := Local p; bindingRequestCount := bindingRequestCount p;
     state := state p; nominated := true |}.

Record bindingRequest : Type := mkBindingRequest {
  timestamp      : time.Time;
  transactionID  : Z;            (* [stun.TransactionIDSize] = 12 bytes, as a 96-bit number *)
  destination    : string * Z;
  isUseCandidate : bool
}.

(** What the agent reads of a [stun.Message]. *)
Record Message : Type := mkMessage {
  TransactionID   : Z;
  hasUseCandidate : bool         (* [m.Contains(stun.AttrUseCandidate)] *)
}.

(** The selector capability [pairCandidateSelector].  Its three
    implementations are outside the supplied sources: the agent builds a
    controlling or a controlled selector, wraps it into a lite one, and of
    the operations of a selector the functions embedded here invoke only
    [Start], which acts on the selector's own bookkeeping. *)
Class pairCandidateSelector (Sel : Type) : Type := {
  newControllingSelector : Sel;
  newControlledSelector : Sel;
  newLiteSelector : Sel -> Sel;
  selector_Start : Sel -> Sel
}.

(** Work that a public call hands to a new goroutine. *)
Inductive Goroutine : Type :=
  | GoResolveAndAddMulticastCandidate (c : Candidate)
  | GoAddRemoteCandidate (c : Candidate).

Section AgentModel.

Context {Sel : Type} `{pairCandidateSelector Sel}.

(** Constants of the package that are declared outside the supplied
    sources. *)
Variable maxBindingRequestTimeout : time.Duration.
Variable defaultKeepaliveInterval : time.Duration.

(** The state owned by the task loop.  Fields of the Go struct that hold
    collaborators whose code is elsewhere (logger, muxes, mDNS connection,
    gatherer handles, the after-run list) are left out. *)
Record Agent : Type := mkAgent {
  doneCh : bool;   (* the [done] channel has been closed *)
  err : option Error;   (* [atomicx.Error]; [None] is the unset value *)
  taskLoopDone : bool;   (* the [taskLoopDone] channel has been closed *)
  started : bool;   (* [startedFn] has been called *)
  onConnected : bool;   (* the [onConnected] channel has been closed *)
  forceCandidateContact : bool;   (* the 1-slot channel holds a value *)
  connectionState : ConnectionState;
  gatheringState : GatheringState;
  mDNSMode : MulticastDNSMode;
  lite : bool;
  isControlling : bool;
  disableActiveTCP : bool;
  disconnectedTimeout : time.Duration;
  failedTimeout : time.Duration;
  keepaliveInterval : time.Duration;   (* 0 means never *)
  checkInterval : time.Duration;
  localUfrag : string;
  localPwd : string;
  localCandidates : gmap NetworkType (list Candidate);
  remoteUfrag : string;
  remotePwd : string;
  remoteCandidates : gmap NetworkType (list Candidate);
  pairs : gmap nat CandidatePair;   (* the [CandidatePair] objects, by address *)
  checklist : list nat;   (* [[]*CandidatePair] *)
  selector : option Sel;   (* [nil] until the checks are started *)
  selectedPair : option nat;   (* [atomic.Value] holding a [*CandidatePair] *)
  networkTypes : list NetworkType;
  pendingBindingRequests : list bindingRequest;   (* outbound transaction ids, oldest first *)
  connectionStateEvents : list ConnectionState;   (* queue of [connectionStateNotifier] *)
  candidateEvents : list Candidate;   (* queue of [candidateNotifier] *)
  selectedPairEvents : list nat;   (* queue of [selectedCandidatePairNotifier] *)
  lastReceived : gmap nat time.Time;   (* the candidates' last-received stamps, by address *)
  closedCandidates : gset nat   (* addresses of the candidates that were closed *)
}.

(** Field updates: every other field keeps its value. *)
Definition set_doneCh (v : bool) (a : Agent) : Agent :=
  mkAgent v (err a) (taskLoopDone a) (started a) (onConnected a)
    (forceCandidateContact a) (connectionState a) (gatheringState a)
    (mDNSMode a) (lite a) (isControlling a) (disableActiveTCP a)
    (disconnectedTimeout a) (failedTimeout a) (keepaliveInterval a)
    (checkInterval a) (localUfrag a) (localPwd a) (localCandidates a)
    (remoteUfrag a) (remotePwd a) (remoteCandidates a) (pairs a)
    (checklist a) (selector a) (selectedPair a) (networkTypes a)
    (pendingBindingRequests a) (connectionStateEvents a) (candidateEvents
    a) (selectedPairEvents a) (lastReceived a) (closedCandidates a).

Definition set_err (v : option Error) (a : Agent) : Agent :=
  mkAgent (doneCh a) v (taskLoopDone a) (started a) (onConnected a)
    (forceCandidateContact a) (connectionState a) (gatheringState a)
    (mDNSMode a) (lite a) (isControlling a) (disableActiveTCP a)
    (disconnectedTimeout a) (failedTimeout a) (keepaliveInterval a)
    (checkInterval a) (localUfrag a) (localPwd a) (localCandidates a)
    (remoteUfrag a) (remotePwd a) (remoteCandidates a) (pairs a)
    (checklist a) (selector a) (selectedPair a) (networkTypes a)
    (pendingBindingRequests a) (connectionStateEvents a) (candidateEvents
    a) (selectedPairEvents a) (lastReceived a) (closedCandidates a).

Definition set_taskLoopDone (v : bool) (a : Agent) : Agent :=
  mkAgent (doneCh a) (err a) v (started a) (onConnected a)
    (forceCandidateContact a) (connectionState a) (gatheringState a)
    (mDNSMode a) (lite a) (isControlling a) (disableActiveTCP a)
    (disconnectedTimeout a) (failedTimeout a) (keepaliveInterval a)
    (checkInterval a) (localUfrag a) (localPwd a) (localCandidates a)
    (remoteUfrag a) (remotePwd a) (remoteCandidates a) (pairs a)
    (checklist a) (selector a) (selectedPair a) (networkTypes a)
    (pendingBindingRequests a) (connectionStateEvents a) (candidateEvents
    a) (selectedPairEvents a) (lastReceived a) (closedCandidates a).

Definition set_started (v : bool) (a : Agent) : Agent :=
  mkAgent (doneCh a) (err a) (taskLoopDone a) v (onConnected a)
    (forceCandidateContact a) (connectionState a) (gatheringState a)
    (mDNSMode a) (lite a) (isControlling a) (disableActiveTCP a)
    (disconnectedTimeout a) (failedTimeout a) (keepaliveInterval a)
    (checkInterval a) (localUfrag a) (localPwd a) (localCandidates a)
    (remoteUfrag a) (remotePwd a) (remoteCandidates a) (pairs a)
    (checklist a) (selector a) (selectedPair a) (networkTypes a)
    (pendingBindingRequests a) (connectionStateEvents a) (candidateEvents
    a) (selectedPairEvents a) (lastReceived a) (closedCandidates a).

Definition set_onConnected (v : bool) (a : Agent) : Agent :=
  mkAgent (doneCh a) (err a) (taskLoopDone a) (started a) v
    (forceCandidateContact a) (connectionState a) (gatheringState a)
    (mDNSMode a) (lite a) (isControlling a) (disableActiveTCP a)
    (disconnectedTimeout a) (failedTimeout a) (keepaliveInterval a)
    (checkInterval a) (localUfrag a) (localPwd a) (localCandidates a)
    (remoteUfrag a) (remotePwd a) (remoteCandidates a) (pairs a)
    (checklist a) (selector a) (selectedPair a) (networkTypes a)
    (pendingBindingRequests a) (connectionStateEvents a) (candidateEvents
    a) (selectedPairEvents a) (lastReceived a) (closedCandidates a).

Definition set_forceCandidateContact (v : bool) (a : Agent) : Agent :=
  mkAgent (doneCh a) (err a) (taskLoopDone a) (started a) (onConnected a)
    v (connectionState a) (gatheringState a) (mDNSMode a) (lite a)
    (isControlling a) (disableActiveTCP a) (disconnectedTimeout a)
    (failedTimeout a) (keepaliveInterval a) (checkInterval a) (localUfrag
    a) (localPwd a) (localCandidates a) (remoteUfrag a) (remotePwd a)
    (remoteCandidates a) (pairs a) (checklist a) (selector a)
    (selectedPair a) (networkTypes a) (pendingBindingRequests a)
    (connectionStateEvents a) (candidateEvents a) (selectedPairEvents a)
    (lastReceived a) (closedCandidates a).

Definition set_connectionState (v : ConnectionState) (a : Agent) : Agent :=
  mkAgent (doneCh a) (err a) (taskLoopDone a) (started a) (onConnected a)
    (forceCandidateContact a) v (gatheringState a) (mDNSMode a) (lite a)
    (isControlling a) (disableActiveTCP a) (disconnectedTimeout a)
    (failedTimeout a) (keepaliveInterval a) (checkInterval a) (localUfrag
    a) (localPwd a) (localCandidates a) (remoteUfrag a) (remotePwd a)
    (remoteCandidates a) (pairs a) (checklist a) (selector a)
    (selectedPair a) (networkTypes a) (pendingBindingRequests a)
    (connectionStateEvents a) (candidateEvents a) (selectedPairEvents a)
    (lastReceived a) (closedCandidates a).

Definition set_gatheringState (v : GatheringState) (a : Agent) : Agent :=
  mkAgent (doneCh a) (err a) (taskLoopDone a) (started a) (onConnected a)
    (forceCandidateContact a) (connectionState a) v (mDNSMode a) (lite a)
    (isControlling a) (disableActiveTCP a) (disconnectedTimeout a)
    (failedTimeout a) (keepaliveInterval a) (checkInterval a) (localUfrag
    a) (localPwd a) (localCandidates a) (remoteUfrag a) (remotePwd a)
    (remoteCandidates a) (pairs a) (checklist a) (selector a)
    (selectedPair a) (networkTypes a) (pendingBindingRequests a)
    (connectionStateEvents a) (candidateEvents a) (selectedPairEvents a)
    (lastReceived a) (closedCandidates a).

Definition set_localUfrag (v : string) (a : Agent) : Agent :=
  mkAgent (doneCh a) (err a) (taskLoopDone a) (started a) (onConnected a)
    (forceCandidateContact a) (connectionState a) (gatheringState a)
    (mDNSMode a) (lite a) (isControlling a) (disableActiveTCP a)
    (disconnectedTimeout a) (failedTimeout a) (keepaliveInterval a)
    (checkInterval a) v (localPwd a) (localCandidates a) (remoteUfrag a)
    (remotePwd a) (remoteCandidates a) (pairs a) (checklist a) (selector
    a) (selectedPair a) (networkTypes a) (pendingBindingRequests a)
    (connectionStateEvents a) (candidateEvents a) (selectedPairEvents a)
    (lastReceived a) (closedCandidates a).

Definition set_localPwd (v : string) (a : Agent) : Agent :=
  mkAgent (doneCh a) (err a) (taskLoopDone a) (started a) (onConnected a)
    (forceCandidateContact a) (connectionState a) (gatheringState a)
    (mDNSMode a) (lite a) (isControlling a) (disableActiveTCP a)
    (disconnectedTimeout a) (failedTimeout a) (keepaliveInterval a)
    (checkInterval a) (localUfrag a) v (localCandidates a) (remoteUfrag a)
    (remotePwd a) (remoteCandidates a) (pairs a) (checklist a) (selector
    a) (selectedPair a) (networkTypes a) (pendingBindingRequests a)
    (connectionStateEvents a) (candidateEvents a) (selectedPairEvents a)
    (lastReceived a) (closedCandidates a).

Definition set_localCandidates (v : gmap NetworkType (list Candidate)) (a : Agent) : Agent :=
  mkAgent (doneCh a) (err a) (taskLoopDone a) (started a) (onConnected a)
    (forceCandidateContact a) (connectionState a) (gatheringState a)
    (mDNSMode a) (lite a) (isControlling a) (disableActiveTCP a)
    (disconnectedTimeout a) (failedTimeout a) (keepaliveInterval a)
    (checkInterval a) (localUfrag a) (localPwd a) v (remoteUfrag a)
    (remotePwd a) (remoteCandidates a) (pairs a) (checklist a) (selector
    a) (selectedPair a) (networkTypes a) (pendingBindingRequests a)
    (connectionStateEvents a) (candidateEvents a) (selectedPairEvents a)
    (lastReceived a) (closedCandidates a).

Definition set_remoteUfrag (v : string) (a : Agent) : Agent :=
  mkAgent (doneCh a) (err a) (taskLoopDone a) (started a) (onConnected a)
    (forceCandidateContact a) (connectionState a) (gatheringState a)
    (mDNSMode a) (lite a) (isControlling a) (disableActiveTCP a)
    (disconnectedTimeout a) (failedTimeout a) (keepaliveInterval a)
    (checkInterval a) (localUfrag a) (localPwd a) (localCandidates a) v
    (remotePwd a) (remoteCandidates a) (pairs a) (checklist a) (selector
    a) (selectedPair a) (networkTypes a) (pendingBindingRequests a)
    (connectionStateEvents a) (candidateEvents a) (selectedPairEvents a)
    (lastReceived a) (closedCandidates a).

Definition set_remotePwd (v : string) (a : Agent) : Agent :=
  mkAgent (doneCh a) (err a) (taskLoopDone a) (started a) (onConnected a)
    (forceCandidateContact a) (connectionState a) (gatheringState a)
    (mDNSMode a) (lite a) (isControlling a) (disableActiveTCP a)
    (disconnectedTimeout a) (failedTimeout a) (keepaliveInterval a)
    (checkInterval a) (localUfrag a) (localPwd a) (localCandidates a)
    (remoteUfrag a) v (remoteCandidates a) (pairs a) (checklist a)
    (selector a) (selectedPair a) (networkTypes a) (pendingBindingRequests
    a) (connectionStateEvents a) (candidateEvents a) (selectedPairEvents
    a) (lastReceived a) (closedCandidates a).

Definition set_remoteCandidates (v : gmap NetworkType (list Candidate)) (a : Agent) : Agent :=
  mkAgent (doneCh a) (err a) (taskLoopDone a) (started a) (onConnected a)
    (forceCandidateContact a) (connectionState a) (gatheringState a)
    (mDNSMode a) (lite a) (isControlling a) (disableActiveTCP a)
    (disconnectedTimeout a) (failedTimeout a) (keepaliveInterval a)
    (checkInterval a) (localUfrag a) (localPwd a) (localCandidates a)
    (remoteUfrag a) (remotePwd a) v (pairs a) (checklist a) (selector a)
    (selectedPair a) (networkTypes a) (pendingBindingRequests a)
    (connectionStateEvents a) (candidateEvents a) (selectedPairEvents a)
    (lastReceived a) (closedCandidates a).

Definition set_pairs (v : gmap nat CandidatePair) (a : Agent) : Agent :=
  mkAgent (doneCh a) (err a) (taskLoopDone a) (started a) (onConnected a)
    (forceCandidateContact a) (connectionState a) (gatheringState a)
    (mDNSMode a) (lite a) (isControlling a) (disableActiveTCP a)
    (disconnectedTimeout a) (failedTimeout a) (keepaliveInterval a)
    (checkInterval a) (localUfrag a) (localPwd a) (localCandidates a)
    (remoteUfrag a) (remotePwd a) (remoteCandidates a) v (checklist a)
    (selector a) (selectedPair a) (networkTypes a) (pendingBindingRequests
    a) (connectionStateEvents a) (candidateEvents a) (selectedPairEvents
    a) (lastReceived a) (closedCandidates a).

Definition set_checklist (v : list nat) (a : Agent) : Agent :=
  mkAgent (doneCh a) (err a) (taskLoopDone a) (started a) (onConnected a)
    (forceCandidateContact a) (connectionState a) (gatheringState a)
    (mDNSMode a) (lite a) (isControlling a) (disableActiveTCP a)
    (disconnectedTimeout a) (failedTimeout a) (keepaliveInterval a)
    (checkInterval a) (localUfrag a) (localPwd a) (localCandidates a)
    (remoteUfrag a) (remotePwd a) (remoteCandidates a) (pairs a) v
    (selector a) (selectedPair a) (networkTypes a) (pendingBindingRequests
    a) (connectionStateEvents a) (candidateEvents a) (selectedPairEvents
    a) (lastReceived a) (closedCandidates a).

Definition set_selector (v : option Sel) (a : Agent) : Agent :=
  mkAgent (doneCh a) (err a) (taskLoopDone a) (started a) (onConnected a)
    (forceCandidateContact a) (connectionState a) (gatheringState a)
    (mDNSMode a) (lite a) (isControlling a) (disableActiveTCP a)
    (disconnectedTimeout a) (failedTimeout a) (keepaliveInterval a)
    (checkInterval a) (localUfrag a) (localPwd a) (localCandidates a)
    (remoteUfrag a) (remotePwd a) (remoteCandidates a) (pairs a)
    (checklist a) v (selectedPair a) (networkTypes a)
    (pendingBindingRequests a) (connectionStateEvents a) (candidateEvents
    a) (selectedPairEvents a) (lastReceived a) (closedCandidates a).

Definition set_selectedPair (v : option nat) (a : Agent) : Agent :=
  mkAgent (doneCh a) (err a) (taskLoopDone a) (started a) (onConnected a)
    (forceCandidateContact a) (connectionState a) (gatheringState a)
    (mDNSMode a) (lite a) (isControlling a) (disableActiveTCP a)
    (disconnectedTimeout a) (failedTimeout a) (keepaliveInterval a)
    (checkInterval a) (localUfrag a) (localPwd a) (localCandidates a)
    (remoteUfrag a) (remotePwd a) (remoteCandidates a) (pairs a)
    (checklist a) (selector a) v (networkTypes a) (pendingBindingRequests
    a) (connectionStateEvents a) (candidateEvents a) (selectedPairEvents
    a) (lastReceived a) (closedCandidates a).

Definition set_pendingBindingRequests (v : list bindingRequest) (a : Agent) : Agent :=
  mkAgent (doneCh a) (err a) (taskLoopDone a) (started a) (onConnected a)
    (forceCandidateContact a) (connectionState a) (gatheringState a)
    (mDNSMode a) (lite a) (isControlling a) (disableActiveTCP a)
    (disconnectedTimeout a) (failedTimeout a) (keepaliveInterval a)
    (checkInterval a) (localUfrag a) (localPwd a) (localCandidates a)
    (remoteUfrag a) (remotePwd a) (remoteCandidates a) (pairs a)
    (checklist a) (selector a) (selectedPair a) (networkTypes a) v
    (connectionStateEvents a) (candidateEvents a) (selectedPairEvents a)
    (lastReceived a) (closedCandidates a).

Definition set_connectionStateEvents (v : list ConnectionState) (a : Agent) : Agent :=
  mkAgent (doneCh a) (err a) (taskLoopDone a) (started a) (onConnected a)
    (forceCandidateContact a) (connectionState a) (gatheringState a)
    (mDNSMode a) (lite a) (isControlling a) (disableActiveTCP a)
    (disconnectedTimeout a) (failedTimeout a) (keepaliveInterval a)
    (checkInterval a) (localUfrag a) (localPwd a) (localCandidates a)
    (remoteUfrag a) (remotePwd a) (remoteCandidates a) (pairs a)
    (checklist a) (selector a) (selectedPair a) (networkTypes a)
    (pendingBindingRequests a) v (candidateEvents a) (selectedPairEvents
    a) (lastReceived a) (closedCandidates a).

Definition set_candidateEvents (v : list Candidate) (a : Agent) : Agent :=
  mkAgent (doneCh a) (err a) (taskLoopDone a) (started a) (onConnected a)
    (forceCandidateContact a) (connectionState a) (gatheringState a)
    (mDNSMode a) (lite a) (isControlling a) (disableActiveTCP a)
    (disconnectedTimeout a) (failedTimeout a) (keepaliveInterval a)
    (checkInterval a) (localUfrag a) (localPwd a) (localCandidates a)
    (remoteUfrag a) (remotePwd a) (remoteCandidates a) (pairs a)
    (checklist a) (selector a) (selectedPair a) (networkTypes a)
    (pendingBindingRequests a) (connectionStateEvents a) v
    (selectedPairEvents a) (lastReceived a) (closedCandidates a).

Definition set_selectedPairEvents (v : list nat) (a : Agent) : Agent :=
  mkAgent (doneCh a) (err a) (taskLoopDone a) (started a) (onConnected a)
    (forceCandidateContact a) (connectionState a) (gatheringState a)
    (mDNSMode a) (lite a) (isControlling a) (disableActiveTCP a)
    (disconnectedTimeout a) (failedTimeout a) (keepaliveInterval a)
    (checkInterval a) (localUfrag a) (localPwd a) (localCandidates a)
    (remoteUfrag a) (remotePwd a) (remoteCandidates a) (pairs a)
    (checklist a) (selector a) (selectedPair a) (networkTypes a)
    (pendingBindingRequests a) (connectionStateEvents a) (candidateEvents
    a) v (lastReceived a) (closedCandidates a).

Definition set_lastReceived (v : gmap nat time.Time) (a : Agent) : Agent :=
  mkAgent (doneCh a) (err a) (taskLoopDone a) (started a) (onConnected a)
    (forceCandidateContact a) (connectionState a) (gatheringState a)
    (mDNSMode a) (lite a) (isControlling a) (disableActiveTCP a)
    (disconnectedTimeout a) (failedTimeout a) (keepaliveInterval a)
    (checkInterval a) (localUfrag a) (localPwd a) (localCandidates a)
    (remoteUfrag a) (remotePwd a) (remoteCandidates a) (pairs a)
    (checklist a) (selector a) (selectedPair a) (networkTypes a)
    (pendingBindingRequests a) (connectionStateEvents a) (candidateEvents
    a) (selectedPairEvents a) v (closedCandidates a).

Definition set_closedCandidates (v : gset nat) (a : Agent) : Agent :=
  mkAgent (doneCh a) (err a) (taskLoopDone a) (started a) (onConnected a)
    (forceCandidateContact a) (connectionState a) (gatheringState a)
    (mDNSMode a) (lite a) (isControlling a) (disableActiveTCP a)
    (disconnectedTimeout a) (failedTimeout a) (keepaliveInterval a)
    (checkInterval a) (localUfrag a) (localPwd a) (localCandidates a)
    (remoteUfrag a) (remotePwd a) (remoteCandidates a) (pairs a)
    (checklist a) (selector a) (selectedPair a) (networkTypes a)
    (pendingBindingRequests a) (connectionStateEvents a) (candidateEvents
    a) (selectedPairEvents a) (lastReceived a) v.

Definition set_isControlling (v : bool) (a : Agent) : Agent :=
  mkAgent (doneCh a) (err a) (taskLoopDone a) (started a) (onConnected a)
    (forceCandidateContact a) (connectionState a) (gatheringState a)
    (mDNSMode a) (lite a) v (disableActiveTCP a) (disconnectedTimeout a)
    (failedTimeout a) (keepaliveInterval a) (checkInterval a) (localUfrag
    a) (localPwd a) (localCandidates a) (remoteUfrag a) (remotePwd a)
    (remoteCandidates a) (pairs a) (checklist a) (selector a)
    (selectedPair a) (networkTypes a) (pendingBindingRequests a)
    (connectionStateEvents a) (candidateEvents a) (selectedPairEvents a)
    (lastReceived a) (closedCandidates a).

(** *** Running tasks *)

Definition getErr (a : Agent) : Error :=
  match err a with
  | Some e => e
  | None => ErrClosed
  end.

(** [ok]: [None] is Go's [nil] error. *)
Definition ok (a : Agent) : option Error :=
  if doneCh a then Some (getErr a) else None.

(** [run]: the task is executed by the loop unless the agent is closed.
    The context handed to [run] by the functions below, [addCandidate]
    apart, is the agent itself, whose [Done] channel is [done]. *)
Definition run (t : Agent -> Agent) (a : Agent) : option Error * Agent :=
  match ok a with
  | Some e => (Some e, a)
  | None => (None, t a)
  end.

(** [run] with a context of the caller's.  [cancelled] tells how the
    [select] of [run] ends: [Some e] when it takes the branch of the
    context's [Done] channel, [e] being [ctx.Err()]; [None] when the loop
    takes the task. *)
Definition runCtx (cancelled : option Error) (t : Agent -> Agent) (a : Agent)
  : option Error * Agent :=
  match ok a with
  | Some e => (Some e, a)
  | None =>
      match cancelled with
      | Some e => (Some e, a)
      | None => (None, t a)
      end
  end.

(** *** Candidates and pairs *)

Definition candidatePtrs (m : gmap NetworkType (list Candidate)) : gset nat :=
  map_fold (fun _ cs acc => list_to_set (c_ptr <$> cs) ∪ acc) ∅ m.

(** [deleteAllCandidates] closes every candidate and empties both maps. *)
Definition deleteAllCandidates (a : Agent) : Agent :=
  set_remoteCandidates ∅
    (set_localCandidates ∅
       (set_closedCandidates
          (closedCandidates a ∪ candidatePtrs (localCandidates a)
                              ∪ candidatePtrs (remoteCandidates a)) a)).

Definition getSelectedPair (a : Agent) : option CandidatePair :=
  l ← selectedPair a; pairs a !! l.

(** [Candidate.LastReceived()]. *)
Definition LastReceived (a : Agent) (c : Candidate) : time.Time :=
  default time.zero (lastReceived a !! c_ptr c).

(** [setSelectedPair(nil)]. *)
Definition unsetSelectedPair (a : Agent) : Agent := set_selectedPair None a.

Definition updateConnectionState (newState : ConnectionState) (a : Agent) : Agent :=
  if bool_decide (connectionState a <> newState) then
    (* Connection has gone to failed, release all gathered candidates *)
    let a :=
      if bool_decide (newState = ConnectionStateFailed) then
        deleteAllCandidates
          (unsetSelectedPair
             (set_pendingBindingRequests [] (set_checklist [] a)))
      else a in
    set_connectionStateEvents (connectionStateEvents a ++ [newState])
      (set_connectionState newState a)
  else a.

Definition setSelectedPair (p : option nat) (a : Agent) : Agent :=
  match p with
  | None => unsetSelectedPair a
  | Some l =>
      let a := set_pairs (alter nominate l (pairs a)) a in
      let a := set_selectedPair (Some l) a in
      let a := updateConnectionState ConnectionStateConnected a in
      let a := set_selectedPairEvents (selectedPairEvents a ++ [l]) a in
      set_onConnected true a
  end.

(** [addPair] allocates a pair object and appends it to the checklist. *)
Definition addPair (local remote : Candidate) (a : Agent) : nat * Agent :=
  let p := newCandidatePair local remote (isControlling a) in
  let l := fresh (dom (pairs a)) in
  (l, set_checklist (checklist a ++ [l]) (set_pairs (<[ l := p ]> (pairs a)) a)).

Definition requestConnectivityCheck (a : Agent) : Agent :=
  set_forceCandidateContact true a.

(** [m[k] = append(m[k], c)] on a candidate map. *)
Definition appendCandidate (c : Candidate) (m : gmap NetworkType (list Candidate))
  : gmap NetworkType (list Candidate) :=
  <[ c_NetworkType c := default [] (m !! c_NetworkType c) ++ [c] ]> m.

(** [addRemotePassiveTCPCandidate].  [dialed] is what the environment
    yields: [None] when the local interfaces cannot be listed, otherwise
    the active-TCP host candidates that could be created, one per local
    address for which dialing and candidate construction succeeded. *)
Definition addRemotePassiveTCPCandidate (remoteCandidate : Candidate)
    (dialed : option (list Candidate)) (a : Agent) : Agent :=
  match dialed with
  | None => a
  | Some created =>
      foldl (fun a localCandidate =>
               let a := set_localCandidates
                          (appendCandidate localCandidate (localCandidates a)) a in
               let a := set_candidateEvents (candidateEvents a ++ [localCandidate]) a in
               snd (addPair localCandidate remoteCandidate a))
            a created
  end.

(** [addRemoteCandidate] (runs on the loop). *)
Definition addRemoteCandidate (c : Candidate) (dialed : option (list Candidate))
    (a : Agent) : Agent :=
  let set := default [] (remoteCandidates a !! c_NetworkType c) in
  if existsb (fun candidate => Equal candidate c) set then a
  else
    let tcpNetworkTypeFound := existsb IsTCP (networkTypes a) in
    let a :=
      if negb (disableActiveTCP a) && tcpNetworkTypeFound
         && bool_decide (c_TCPType c = TCPTypePassive)
      then addRemotePassiveTCPCandidate c dialed a
      else a in
    let set := set ++ [c] in
    let a := set_remoteCandidates (<[ c_NetworkType c := set ]> (remoteCandidates a)) a in
    let a :=
      if bool_decide (c_TCPType c <> TCPTypePassive) then
        match localCandidates a !! c_NetworkType c with
        | Some localCandidates =>
            foldl (fun a localCandidate => snd (addPair localCandidate c a))
                  a localCandidates
        | None => a
        end
      else a in
    requestConnectivityCheck a.

(** The task that [addCandidate] runs on the loop. *)
Definition addCandidateTask (c : Candidate) (a : Agent) : Agent :=
  let set := default [] (localCandidates a !! c_NetworkType c) in
  if existsb (fun candidate => Equal candidate c) set
  then set_closedCandidates (closedCandidates a ∪ {[ c_ptr c ]}) a
  else
    let set := set ++ [c] in
    let a := set_localCandidates (<[ c_NetworkType c := set ]> (localCandidates a)) a in
    let a :=
      match remoteCandidates a !! c_NetworkType c with
      | Some remoteCandidates =>
          foldl (fun a remoteCandidate => snd (addPair c remoteCandidate a))
                a remoteCandidates
      | None => a
      end in
    let a := requestConnectivityCheck a in
    set_candidateEvents (candidateEvents a ++ [c]) a.

(** [addCandidate] hands the context of its caller to [run]. *)
Definition addCandidate (cancelled : option Error) (c : Candidate) (a : Agent)
  : option Error * Agent :=
  runCtx cancelled (addCandidateTask c) a.

(** [AddRemoteCandidate]: the public entry point only decides what to
    start; the agent is touched later, by the goroutine it starts. *)
Definition AddRemoteCandidate (c : option Candidate) (a : Agent)
  : option Error * list Goroutine * Agent :=
  match c with
  | None => (None, [], a)
  | Some c =>
      if bool_decide (c_TCPType c = TCPTypeActive) then (None, [], a)
      else if bool_decide (c_Type c = CandidateTypeHost)
              && HasSuffix (c_Address c) ".local"%string
      then
        if bool_decide (mDNSMode a = MulticastDNSModeDisabled) then (None, [], a)
        else if c_isHost c
             then (None, [GoResolveAndAddMulticastCandidate c], a)
             else (Some ErrAddressParseFailed, [], a)
      else (None, [GoAddRemoteCandidate c], a)
  end.

(** The goroutine started for a candidate that needs no name resolution. *)
Definition goAddRemoteCandidate (c : Candidate) (dialed : option (list Candidate))
    (a : Agent) : option Error * Agent :=
  run (addRemoteCandidate c dialed) a.

(** *** The selected pair *)

(** [validateSelectedPair], when the clock reads [now]. *)
Definition validateSelectedPair (now : time.Time) (a : Agent) : bool * Agent :=
  match getSelectedPair a with
  | None => (false, a)
  | Some selectedPair =>
      let disconnectedTime := time.Since now (LastReceived a (Remote selectedPair)) in
      (* Only allow transitions to failed if a.failedTimeout is non-zero *)
      let totalTimeToFailure := failedTimeout a in
      let totalTimeToFailure :=
        if bool_decide (totalTimeToFailure <> 0)
        then time.add totalTimeToFailure (disconnectedTimeout a)
        else totalTimeToFailure in
      if bool_decide (totalTimeToFailure <> 0) && (totalTimeToFailure <? disconnectedTime)
      then (true, updateConnectionState ConnectionStateFailed a)
      else if bool_decide (disconnectedTimeout a <> 0)
              && (disconnectedTimeout a <? disconnectedTime)
      then (true, updateConnectionState ConnectionStateDisconnected a)
      else (true, updateConnectionState ConnectionStateConnected a)
  end.

(** *** The pending binding-request cache *)

Definition invalidatePendingBindingRequests (filterTime : time.Time) (a : Agent) : Agent :=
  set_pendingBindingRequests
    (List.filter
       (fun bindingRequest =>
          time.Sub filterTime (timestamp bindingRequest) <? maxBindingRequestTimeout)
       (pendingBindingRequests a))
    a.

(** [sendBindingRequest]; [now1] and [now2] are its two clock readings.
    Writing the message to the socket is left to the candidate. *)
Definition sendBindingRequest (m : Message) (local remote : Candidate)
    (now1 now2 : time.Time) (a : Agent) : Agent :=
  let a := invalidatePendingBindingRequests now1 a in
  set_pendingBindingRequests
    (pendingBindingRequests a ++
       [ {| timestamp := now2;
            transactionID := TransactionID m;
            destination := addr remote;
            isUseCandidate := hasUseCandidate m |} ])
    a.

(** [handleInboundBindingSuccess]; [now1] and [now2] are its two clock
    readings ([time.Now] and [time.Since]). *)
Definition handleInboundBindingSuccess (id : Z) (now1 now2 : time.Time) (a : Agent)
  : (bool * option bindingRequest * time.Duration) * Agent :=
  let a := invalidatePendingBindingRequests now1 a in
  match list_find (fun r => transactionID r = id) (pendingBindingRequests a) with
  | Some (i, validBindingRequest) =>
      ((true, Some validBindingRequest,
        time.Since now2 (timestamp validBindingRequest)),
       set_pendingBindingRequests (delete i (pendingBindingRequests a)) a)
  | None => ((false, None, 0), a)
  end.

(** *** Credentials and restart *)

Definition SetRemoteCredentials (remoteUfrag remotePwd : string) (a : Agent)
  : option Error * Agent :=
  if String.eqb remoteUfrag ""%string then (Some ErrRemoteUfragEmpty, a)
  else if String.eqb remotePwd ""%string then (Some ErrRemotePwdEmpty, a)
  else run (fun agent => set_remotePwd remotePwd (set_remoteUfrag remoteUfrag agent)) a.

(** The task that [Restart] runs on the loop.  Cancelling a running
    gatherer and removing the ufrag from the muxes act on collaborators
    only. *)
Definition restartTask (ufrag pwd : string) (a : Agent) : Agent :=
  (* Clear all agent needed to take back to fresh state *)
  let a := set_localUfrag ufrag a in
  let a := set_localPwd pwd a in
  let a := set_remoteUfrag ""%string a in
  let a := set_remotePwd ""%string a in
  let a := set_gatheringState GatheringStateNew a in
  let a := set_checklist [] a in
  let a := set_pendingBindingRequests [] a in
  let a := setSelectedPair None a in
  let a := deleteAllCandidates a in
  let a := set_selector (selector_Start <$> selector a) a in
  if bool_decide (connectionState a <> ConnectionStateNew)
  then updateConnectionState ConnectionStateChecking a
  else a.

(** The task that [startConnectivityChecks] runs on the loop; it ends by
    starting the goroutine of [connectivityChecks]. *)
Definition startConnectivityChecksTask (isControlling : bool)
    (remoteUfrag remotePwd : string) (a : Agent) : Agent :=
  let a := set_isControlling isControlling a in
  let a := set_remoteUfrag remoteUfrag a in
  let a := set_remotePwd remotePwd a in
  let sel := if isControlling then newControllingSelector else newControlledSelector in
  let sel := if lite a then newLiteSelector sel else sel in
  let a := set_selector (Some (selector_Start sel)) a in
  let a := set_started true a in
  let a := updateConnectionState ConnectionStateChecking a in
  requestConnectivityCheck a.

Definition startConnectivityChecks (isControlling : bool)
    (remoteUfrag remotePwd : string) (a : Agent) : option Error * Agent :=
  if started a then (Some ErrMultipleStart, a)
  else
    match SetRemoteCredentials remoteUfrag remotePwd a with
    | (Some e, a) => (Some e, a)
    | (None, a) => run (startConnectivityChecksTask isControlling remoteUfrag remotePwd) a
    end.

(** A credential as [Restart] uses it: the one provided or, if that is
    empty, the one the random generator returns. *)
Definition orGenerated (provided : string) (generated : result string)
  : result string :=
  if String.eqb provided ""%string then generated else Ok provided.

(** [Restart].  [generatedUfrag] and [generatedPwd] are what
    [generateUFrag] and [generatePwd] return should they be called.  A
    string is far too short for [len * 8] to overflow. *)
Definition Restart (ufrag pwd : string) (generatedUfrag generatedPwd : result string)
    (a : Agent) : option Error * Agent :=
  match orGenerated ufrag generatedUfrag with
  | Err e => (Some e, a)
  | Ok ufrag =>
      match orGenerated pwd generatedPwd with
      | Err e => (Some e, a)
      | Ok pwd =>
          if runeCount ufrag * 8 <? 24 then (Some ErrLocalUfragInsufficientBits, a)
          else if runeCount pwd * 8 <? 128 then (Some ErrLocalPwdInsufficientBits, a)
          else run (restartTask ufrag pwd) a
      end
  end.

(** *** The connectivity-check timer *)

(** The closure [updateInterval] of [connectivityChecks], with the
    variable it assigns made explicit. *)
Definition updateInterval (x interval : time.Duration) : time.Duration :=
  if bool_decide (x <> 0) && (bool_decide (interval = 0) || (x <? interval))
  then x else interval.

(** The interval to which the timer is reset on an iteration of
    [connectivityChecks]. *)
Definition tickInterval (lastConnectionState : ConnectionState) (a : Agent)
  : time.Duration :=
  let interval := defaultKeepaliveInterval in
  let interval :=
    match lastConnectionState with
    | ConnectionStateNew | ConnectionStateChecking =>
        (* While connecting, check candidates more frequently *)
        updateInterval (checkInterval a) interval
    | ConnectionStateConnected | ConnectionStateDisconnected =>
        updateInterval (keepaliveInterval a) interval
    | _ => interval
    end in
  let interval := updateInterval (disconnectedTimeout a) interval in
  updateInterval (failedTimeout a) interval.

(** *** Closing *)

(** What [taskLoop] does, deferred, once [done] is closed. *)
Definition taskLoopShutdown (a : Agent) : Agent :=
  let a := deleteAllCandidates a in
  let a := set_started true a in
  let a := updateConnectionState ConnectionStateClosed a in
  set_taskLoopDone true a.

(** [close]: both [Close] and [GracefulClose]; they differ in how the
    notifiers are drained. *)
Definition close (a : Agent) : option Error * Agent :=
  match ok a with
  | Some e => (if bool_decide (e = ErrClosed) then None else Some e, a)
  | None =>
      let a := set_err (Some ErrClosed) a in
      let a := set_doneCh true a in
      (None, taskLoopShutdown a)
  end.

(** *** The loop as a transition system *)

(** One task of the loop, among those whose code is embedded above. *)
Inductive Task : Type :=
  | TAddRemoteCandidate (c : Candidate) (dialed : option (list Candidate))
  | TAddCandidate (c : Candidate)
  | TRestart (ufrag pwd : string)
  | TSetRemoteCredentials (remoteUfrag remotePwd : string)
  | TUpdateConnectionState (newState : ConnectionState)
  | TSetSelectedPair (p : option nat)
  | TValidateSelectedPair (now : time.Time)
  | TSendBindingRequest (m : Message) (local remote : Candidate) (now1 now2 : time.Time)
  | THandleInboundBindingSuccess (id : Z) (now1 now2 : time.Time)
  | TStartConnectivityChecks (isControlling : bool) (remoteUfrag remotePwd : string).

Definition runTask (t : Task) (a : Agent) : Agent :=
  match t with
  | TAddRemoteCandidate c dialed => addRemoteCandidate c dialed a
  | TAddCandidate c => addCandidateTask c a
  | TRestart ufrag pwd => restartTask ufrag pwd a
  | TSetRemoteCredentials u p => set_remotePwd p (set_remoteUfrag u a)
  | TUpdateConnectionState s => updateConnectionState s a
  | TSetSelectedPair p => setSelectedPair p a
  | TValidateSelectedPair now => snd (validateSelectedPair now a)
  | TSendBindingRequest m local remote now1 now2 =>
      sendBindingRequest m local remote now1 now2 a
  | THandleInboundBindingSuccess id now1 now2 =>
      snd (handleInboundBindingSuccess id now1 now2 a)
  | TStartConnectivityChecks isControlling remoteUfrag remotePwd =>
      startConnectivityChecksTask isControlling remoteUfrag remotePwd a
  end.

(** The states in which the loop can be found between two tasks,
    starting from [a0]. *)
Inductive quiescent (a0 : Agent) : Agent -> Prop :=
  | quiescent_start : quiescent a0 a0
  | quiescent_task (t : Task) (a : Agent) :
      quiescent a0 a -> doneCh a = false -> quiescent a0 (runTask t a).

(** The invariant of the checklist: every entry is the address of a pair
    whose endpoints are in the candidate maps. *)
Definition inCandidates (c : Candidate) (m : gmap NetworkType (list Candidate)) : Prop :=
  exists (t : NetworkType) (cs : list Candidate), m !! t = Some cs /\ c ∈ cs.

Definition checklistEndpointsPresent (a : Agent) : Prop :=
  forall l : nat, l ∈ checklist a ->
    exists p : CandidatePair,
      pairs a !! l = Some p
      /\ inCandidates (Local p) (localCandidates a)
      /\ inCandidates (Remote p) (remoteCandidates a).

End AgentModel.

(** * Vocabulary of the statements *)

(** ** Sample data *)

(** A selector without bookkeeping of its own, by role. *)
Inductive roleSelector : Type :=
  | controllingSelector
  | controlledSelector
  | liteSelector (inner : roleSelector).

#[global] Instance roleSelector_ops : pairCandidateSelector roleSelector :=
  {| newControllingSelector := controllingSelector;
     newControlledSelector := controlledSelector;
     newLiteSelector := liteSelector;
     selector_Start := fun s => s |}.

(** The agent as the struct literal of [NewAgent] leaves it, for the given
    configuration. *)
Definition initialAgent (networkTypes : list NetworkType) (disableActiveTCP : bool)
    (mDNSMode : MulticastDNSMode)
    (checkInterval keepaliveInterval disconnectedTimeout failedTimeout : time.Duration)
  : Agent (Sel := roleSelector) :=
  {| doneCh := false; err := None; taskLoopDone := false; started := false;
     onConnected := false; forceCandidateContact := false;
     connectionState := ConnectionStateNew; gatheringState := GatheringStateNew;
     mDNSMode := mDNSMode; lite := false; isControlling := false;
     disableActiveTCP := disableActiveTCP;
     disconnectedTimeout := disconnectedTimeout; failedTimeout := failedTimeout;
     keepaliveInterval := keepaliveInterval; checkInterval := checkInterval;
     localUfrag := ""; localPwd := ""; localCandidates := ∅;
     remoteUfrag := ""; remotePwd := ""; remoteCandidates := ∅;
     pairs := ∅; checklist := []; selector := None; selectedPair := None;
     networkTypes := networkTypes; pendingBindingRequests := [];
     connectionStateEvents := []; candidateEvents := []; selectedPairEvents := [];
     lastReceived := ∅; closedCandidates := ∅ |}.

(** An agent for UDP over IPv4 with timers of 200ms, 2s, 5s and 25s. *)
Definition udpAgent : Agent (Sel := roleSelector) :=
  initialAgent [NetworkTypeUDP4] true MulticastDNSModeQueryOnly
    (200 * time.Millisecond) (2 * time.Second) (5 * time.Second) (25 * time.Second).

Definition hostCandidate (ptr : nat) (address : string) (port : Z) : Candidate :=
  {| c_ptr := ptr; c_NetworkType := NetworkTypeUDP4; c_Type := CandidateTypeHost;
     c_Address := address; c_Port := port; c_TCPType := TCPTypeUnspecified;
     c_Component := 1; c_Foundation := address; c_isHost := true |}.

(** A local and a remote host candidate on the same network. *)
Definition localHost : Candidate := hostCandidate 1 "10.0.0.1" 54321.
Definition remoteHost : Candidate := hostCandidate 2 "10.0.0.2" 54322.

(** [udpAgent] once both candidates have been added: they form one pair. *)
Definition pairedAgent : Agent (Sel := roleSelector) :=
  addRemoteCandidate remoteHost None (addCandidateTask localHost udpAgent).

(** [pairedAgent] once the checks have started in the controlling role and
    its pair has been selected, the remote candidate having last been heard
    from at 4s. *)
Definition connectedAgent : Agent (Sel := roleSelector) :=
  set_lastReceived {[ c_ptr remoteHost := 4 * time.Second ]}
    (setSelectedPair (head (checklist pairedAgent))
       (startConnectivityChecksTask true "remoteUfrag" "remotePwd" pairedAgent)).



(** The pair of [localHost] and [remoteHost] once nominated. *)
Definition nominatedPair : CandidatePair :=
  nominate (newCandidatePair localHost remoteHost false).

(** A password of sixteen runes, 128 bits, and one of fifteen. *)
Definition pwd128 : string := "0123456789abcdef".

(** The IPv4-mapped form in which an IPv4 address is parsed. *)
Definition v4InV6 (a b c d : Z) : net.IP :=
  [0; 0; 0; 0; 0; 0; 0; 0; 0; 0; 255; 255; a; b; c; d].

Definition loopback6 : net.IP := [0; 0; 0; 0; 0; 0; 0; 0; 0; 0; 0; 0; 0; 0; 0; 1].

(** The standard parser and printer restricted to three literals. *)
Definition literalParseIP (s : string) : option net.IP :=
  if String.eqb s "1.2.3.4" then Some (v4InV6 1 2 3 4)
  else if String.eqb s "10.0.0.1" then Some (v4InV6 10 0 0 1)
  else if String.eqb s "::1" then Some loopback6
  else None.

Definition literalIPString (ip : net.IP) : string :=
  if bool_decide (ip = v4InV6 1 2 3 4) then "1.2.3.4"
  else if bool_decide (ip = v4InV6 10 0 0 1) then "10.0.0.1"
  else if bool_decide (ip = loopback6) then "::1"
  else "?".

(** ** External IP lookup *)

(** The mapping consulted for a local address: by address family. *)
Definition familyOf (m : externalIPMapper) (locIP : net.IP) : ipMapping :=
  if bool_decide (net.To4 locIP <> None) then ipv4Mapping m else ipv6Mapping m.

(** The lookup in the spec's words: the sole external IP of the family if
    there is one, otherwise the explicit mapping, otherwise an error. *)
Definition soleOrExplicitOrFail (IPString : net.IP -> string)
    (m : externalIPMapper) (locIP : net.IP) (r : result net.IP) : Prop :=
  match ipSole (familyOf m locIP) with
  | Some sole => r = Ok sole
  | None =>
      match ipMap (familyOf m locIP) !! IPString locIP with
      | Some extIP => r = Ok extIP
      | None => exists e, r = Err e
      end
  end.

(** What holds of each family of a mapper under construction. *)
Definition familyConsistent (m : ipMapping) : Prop :=
  valid m = true <-> (ipSole m <> None \/ ipMap m <> ∅).

Definition mapperConsistent (m : externalIPMapper) : Prop :=
  familyConsistent (ipv4Mapping m) /\ familyConsistent (ipv6Mapping m).

(** ** The tick interval *)

(** The rate that goes with the last connection state seen, if any. *)
Definition stateRate {Sel : Type} (lastConnectionState : ConnectionState) (a : Agent (Sel := Sel))
  : list time.Duration :=
  match lastConnectionState with
  | ConnectionStateNew | ConnectionStateChecking => [checkInterval a]
  | ConnectionStateConnected | ConnectionStateDisconnected => [keepaliveInterval a]
  | _ => []
  end.

(** The configured sources of the interval, in the order they are read. *)
Definition tickSources {Sel : Type} (lastConnectionState : ConnectionState) (a : Agent (Sel := Sel))
  : list time.Duration :=
  stateRate lastConnectionState a ++ [disconnectedTimeout a; failedTimeout a].

(** The interval in the spec's words: the least non-zero source, and the
    default keepalive interval only when every source is zero. *)
Definition leastNonZeroOrDefault (defaultKeepaliveInterval : time.Duration)
    (sources : list time.Duration) : time.Duration :=
  match List.filter (fun x => negb (x =? 0)) sources with
  | [] => defaultKeepaliveInterval
  | x :: xs => foldl Z.min x xs
  end.

(** ** The pending binding requests *)




(** ** The checklist *)

(** Every checklist entry is the address of a pair whose local endpoint
    satisfies [L] and whose remote endpoint satisfies [R]. *)
Definition pairsWithin {Sel : Type} (L R : Candidate -> Prop) (a : Agent (Sel := Sel)) : Prop :=
  forall l : nat, l ∈ checklist a ->
    exists p : CandidatePair, pairs a !! l = Some p /\ L (Local p) /\ R (Remote p).

(** * Further functions of the agent *)

Section AgentQueries.

Context {Sel : Type}.

Implicit Types a : Agent (Sel := Sel).

(** ** Pairs of the checklist *)

(** [findPair]: the first pair of the checklist whose endpoints are equal
    to [local] and [remote]. *)
Definition findPair (local remote : Candidate) a : option nat :=
  List.find
    (fun l => match pairs a !! l with
              | Some p => Equal (Local p) local && Equal (Remote p) remote
              | None => false
              end)
    (checklist a).

Definition isFailed (p : CandidatePair) : bool :=
  match state p with
  | CandidatePairStateFailed => true
  | _ => false
  end.

Definition isSucceeded (p : CandidatePair) : bool :=
  match state p with
  | CandidatePairStateSucceeded => true
  | _ => false
  end.

(** [CandidatePair.priority] is computed outside the supplied sources from
    the priorities of the two candidates and the role. *)
Variable priority : CandidatePair -> Z.

(** The body of the loops of [getBestAvailableCandidatePair] and
    [getBestValidCandidatePair]: [skip] tells the pairs that [continue]
    passes over. *)
Definition betterPair (skip : CandidatePair -> bool) a (best : option nat) (l : nat)
  : option nat :=
  match pairs a !! l with
  | None => best
  | Some p =>
      if skip p then best
      else match best with
           | None => Some l
           | Some b =>
               match pairs a !! b with
               | Some pb => if priority pb <? priority p then Some l else Some b
               | None => Some l
               end
           end
  end.

Definition getBestAvailableCandidatePair a : option nat :=
  foldl (betterPair isFailed a) None (checklist a).

Definition getBestValidCandidatePair a : option nat :=
  foldl (betterPair (fun p => negb (isSucceeded p)) a) None (checklist a).

(** ** Candidates *)

(** [findRemoteCandidate]; [parsed] is what [parseAddr] makes of the
    address: [None] when it fails, otherwise the IP, printed, and the port. *)
Definition findRemoteCandidate (networkType : NetworkType)
    (parsed : option (string * Z)) a : option Candidate :=
  match parsed with
  | None => None
  | Some (ip, port) =>
      List.find (fun c => String.eqb (c_Address c) ip && (c_Port c =? port))
                (default [] (remoteCandidates a !! networkType))
  end.

(** The candidates of a map, set after set, in the order of one traversal
    of the map. *)
Definition allCandidates (m : gmap NetworkType (list Candidate)) : list Candidate :=
  concat (snd <$> map_to_list m).

Definition GetRemoteCandidates a : result (list Candidate) :=
  match ok a with
  | Some e => Err e
  | None => Ok (allCandidates (remoteCandidates a))
  end.

Definition GetLocalCandidates a : result (list Candidate) :=
  match ok a with
  | Some e => Err e
  | None => Ok (allCandidates (localCandidates a))
  end.

(** ** Credentials *)

(** [GetLocalUserCredentials]: [(frag, pwd, err)]. *)
Definition GetLocalUserCredentials a : string * string * option Error :=
  match ok a with
  | Some e => (""%string, ""%string, Some e)
  | None => (localUfrag a, localPwd a, None)
  end.

Definition GetRemoteUserCredentials a : string * string * option Error :=
  match ok a with
  | Some e => (""%string, ""%string, Some e)
  | None => (remoteUfrag a, remotePwd a, None)
  end.

(** ** The closure [contact] of [connectivityChecks] *)

(** The two variables of [connectivityChecks] that [contact] captures. *)
Record checkLoop : Type := mkCheckLoop {
  lastConnectionState : ConnectionState;
  checkingDuration    : time.Time
}.

(** Their values when [connectivityChecks] starts. *)
Definition checkLoopStart : checkLoop :=
  {| lastConnectionState := ConnectionStateUnknown; checkingDuration := time.zero |}.

(** [selector.ContactCandidates], implemented outside the supplied
    sources. *)
Variable ContactCandidates : Agent (Sel := Sel) -> Agent (Sel := Sel).

(** The task that [contact] runs on the loop; [now1] and [now2] are its
    clock readings ([time.Now] and [time.Since]).  The deferred assignment
    stores the connection state the task ends in. *)
Definition contactTask (now1 now2 : time.Time) (st : checkLoop) a
  : checkLoop * Agent (Sel := Sel) :=
  let ending (cd : time.Time) (a' : Agent (Sel := Sel)) :=
    ({| lastConnectionState := connectionState a'; checkingDuration := cd |}, a') in
  match connectionState a with
  | ConnectionStateFailed =>
      (* The connection is currently failed so don't send any checks *)
      ending (checkingDuration st) a
  | ConnectionStateChecking =>
      let cd :=
        if bool_decide (lastConnectionState st <> connectionState a)
        then now1 else checkingDuration st in
      if time.add (disconnectedTimeout a) (failedTimeout a) <? time.Since now2 cd
      then ending cd (updateConnectionState ConnectionStateFailed a)
      else ending cd (ContactCandidates a)
  | _ => ending (checkingDuration st) (ContactCandidates a)
  end.

(** [contact]: on a closed agent the task is not run. *)
Definition contact (now1 now2 : time.Time) (st : checkLoop) a
  : checkLoop * Agent (Sel := Sel) :=
  match ok a with
  | Some _ => (st, a)
  | None => contactTask now1 now2 st a
  end.

End AgentQueries.

(** ** Vocabulary for the external IP mapper *)

(** The family of an address: [true] for IPv4. *)
Definition isIPv4 (ip : net.IP) : bool := bool_decide (net.To4 ip <> None).

(** [m'] keeps what [m] holds: its sole IP, its explicit mappings, its
    validity. *)
Definition mappingExtends (m m' : ipMapping) : Prop :=
  (forall sole, ipSole m = Some sole -> ipSole m' = Some sole)
  /\ (forall k extIP, ipMap m !! k = Some extIP -> ipMap m' !! k = Some extIP)
  /\ (valid m = true -> valid m' = true).

(** A family has a sole IP or explicit mappings, never both. *)
Definition familyExclusive (m : ipMapping) : Prop :=
  ipSole m = None \/ ipMap m = ∅.

(** ** The best pair *)

(** What it is for [best] to be the answer of a scan of the checklist for
    the [eligible] pair of highest priority. *)
Definition bestAmong {Sel : Type} (priority : CandidatePair -> Z)
    (eligible : CandidatePair -> bool) (a : Agent (Sel := Sel)) (best : option nat) : Prop :=
  match best with
  | None =>
      forall l p, l ∈ checklist a -> pairs a !! l = Some p -> eligible p = false
  | Some b =>
      b ∈ checklist a
      /\ exists pb, pairs a !! b = Some pb /\ eligible pb = true
         /\ forall l p, l ∈ checklist a -> pairs a !! l = Some p -> eligible p = true ->
                        priority p <= priority pb
  end.

(** ** New pairs *)

(** The checklist of [a'] is that of [a] followed by fresh pairs, one for
    each of [others] in order, made by [mk]; the pairs [a] had are as they
    were. *)
Definition extendsChecklist {Sel : Type} (a a' : Agent (Sel := Sel))
    (mk : Candidate -> CandidatePair) (others : list Candidate) : Prop :=
  exists new : list nat,
    checklist a' = checklist a ++ new
    /\ NoDup new
    /\ (forall l, l ∈ new -> pairs a !! l = None)
    /\ Forall2 (fun l other => pairs a' !! l = Some (mk other)) new others
    /\ (forall l, is_Some (pairs a !! l) -> pairs a' !! l = pairs a !! l).

(** A selector that contacts nobody. *)
Definition idleContactCandidates {Sel : Type} (a : Agent (Sel := Sel)) : Agent (Sel := Sel) := a.

(** ** Pinging the checklist *)

Section Pinging.

Context {Sel : Type}.

Implicit Types a : Agent (Sel := Sel).

(** [Agent.maxBindingRequests], a [uint16] of the configuration that is
    never assigned once the agent is built. *)
Variable maxBindingRequests : Z.

(** [selector.PingCandidate], implemented outside the supplied sources. *)
Variable PingCandidate : Candidate -> Candidate -> Agent (Sel := Sel) -> Agent (Sel := Sel).

(** Arithmetic of [uint16]. *)
Definition uint16 (z : Z) : Z := z mod 2 ^ 16.

(** [p.state = s]. *)
Definition setState (s : CandidatePairState) (p : CandidatePair) : CandidatePair :=
  {| iceRoleControlling := iceRoleControlling p; Remote := Remote p;
     Local := Local p; bindingRequestCount := bindingRequestCount p;
     state := s; nominated := nominated p |}.

(** [p.bindingRequestCount++]. *)
Definition countRequest (p : CandidatePair) : CandidatePair :=
  {| iceRoleControlling := iceRoleControlling p; Remote := Remote p;
     Local := Local p; bindingRequestCount := uint16 (bindingRequestCount p + 1);
     state := state p; nominated := nominated p |}.

(** The body of the loop of [pingAllCandidates], for the pair at [l]. *)
Definition pingPair a (l : nat) : Agent (Sel := Sel) :=
  match pairs a !! l with
  | None => a
  | Some p =>
      let request (a : Agent (Sel := Sel)) :=
        if maxBindingRequests <? bindingRequestCount p
        then set_pairs (alter (setState CandidatePairStateFailed) l (pairs a)) a
        else
          let a := PingCandidate (Local p) (Remote p) a in
          set_pairs (alter countRequest l (pairs a)) a in
      match state p with
      | CandidatePairStateWaiting =>
          request
            (set_pairs (alter (setState CandidatePairStateInProgress) l (pairs a)) a)
      | CandidatePairStateInProgress => request a
      | _ => a
      end
  end.

(** [pingAllCandidates]: the loop ranges over the checklist as it is when
    the loop starts. *)
Definition pingAllCandidates a : Agent (Sel := Sel) :=
  foldl pingPair a (checklist a).

(** How a round of pings may leave a pair [p], as [p']: its endpoints,
    role and nomination stay; a pair that is neither Waiting nor
    InProgress is untouched; a touched pair is InProgress or Failed; and
    the count of requests, when it starts within [maxBindingRequests + 1],
    grows and stays within it. *)
Definition pingedFrom (p p' : CandidatePair) : Prop :=
  Local p' = Local p /\ Remote p' = Remote p
  /\ nominated p' = nominated p /\ iceRoleControlling p' = iceRoleControlling p
  /\ (state p = CandidatePairStateWaiting \/ state p = CandidatePairStateInProgress
      \/ p' = p)
  /\ (state p' = CandidatePairStateInProgress \/ state p' = CandidatePairStateFailed
      \/ p' = p)
  /\ (maxBindingRequests < 65535 ->
      0 <= bindingRequestCount p <= maxBindingRequests + 1 ->
      bindingRequestCount p <= bindingRequestCount p' <= maxBindingRequests + 1).

End Pinging.

(** A selector whose ping leaves the agent alone. *)
Definition idlePingCandidate {Sel : Type} (local remote : Candidate)
    (a : Agent (Sel := Sel)) : Agent (Sel := Sel) := a.

(** ** More sample data *)

(** [udpAgent] once [localHost] has been added. *)
Definition gatheredAgent : Agent (Sel := roleSelector) :=
  addCandidateTask localHost udpAgent.

(** [pairedAgent] once the checks have started in the controlling role. *)
Definition checkingAgent : Agent (Sel := roleSelector) :=
  startConnectivityChecksTask true "remoteUfrag" "remotePwd" pairedAgent.

(** An agent like [connectedAgent], configured never to fail: its
    [failedTimeout] is 0. *)
Definition patientAgent : Agent (Sel := roleSelector) :=
  let a := initialAgent [NetworkTypeUDP4] true MulticastDNSModeQueryOnly
             (200 * time.Millisecond) (2 * time.Second) (5 * time.Second) 0 in
  let a := addRemoteCandidate remoteHost None (addCandidateTask localHost a) in
  set_lastReceived {[ c_ptr remoteHost := 4 * time.Second ]}
    (setSelectedPair (head (checklist a))
       (startConnectivityChecksTask true "remoteUfrag" "remotePwd" a)).

(** An agent like [connectedAgent] with the given timeouts. *)
Definition timedAgent (disconnectedTimeout failedTimeout : time.Duration)
  : Agent (Sel := roleSelector) :=
  let a := initialAgent [NetworkTypeUDP4] true MulticastDNSModeQueryOnly
             (200 * time.Millisecond) (2 * time.Second)
             disconnectedTimeout failedTimeout in
  let a := addRemoteCandidate remoteHost None (addCandidateTask localHost a) in
  set_lastReceived {[ c_ptr remoteHost := 4 * time.Second ]}
    (setSelectedPair (head (checklist a))
       (startConnectivityChecksTask true "remoteUfrag" "remotePwd" a)).

(** The decision of [validateSelectedPair] in the words of the
    specification, the sum being that of the integers. *)
Definition decisionOfSpec (disconnectedTime disconnectedTimeout failedTimeout : Z)
  : ConnectionState :=
  if bool_decide (failedTimeout <> 0
                  /\ disconnectedTimeout + failedTimeout < disconnectedTime)
  then ConnectionStateFailed
  else if bool_decide (disconnectedTimeout <> 0
                       /\ disconnectedTimeout < disconnectedTime)
       then ConnectionStateDisconnected
       else ConnectionStateConnected.

(** A mapper with the explicit mapping of 10.0.0.1 to 1.2.3.4. *)
Definition explicitMapper : externalIPMapper :=
  {| ipv4Mapping := {| ipSole := None;
                       ipMap := {[ "10.0.0.1"%string := v4InV6 1 2 3 4 ]};
                       valid := true |};
     ipv6Mapping := emptyIpMapping;
     candidateType := CandidateTypeHost |}.

(** A mapper with the sole external IP 1.2.3.4. *)
Definition soleMapper : externalIPMapper :=
  {| ipv4Mapping := {| ipSole := Some (v4InV6 1 2 3 4); ipMap := ∅; valid := true |};
     ipv6Mapping := emptyIpMapping;
     candidateType := CandidateTypeHost |}.

(** * Theorems *)

(** * The external IP mapper *)

Section ExternalIPMapperFacts.

Variable ParseIP : string -> option net.IP.
Variable IPString : net.IP -> string.

Lemma emptyIpMapping_consistent : familyConsistent emptyIpMapping.
Proof. unfold familyConsistent; simpl. split; [ discriminate | intros [ ? | ? ]; congruence ]. Qed.

Lemma setSoleIP_consistent m ip m' :
  setSoleIP m ip = Ok m' -> familyConsistent m'.
Proof.
  unfold setSoleIP. destruct (_ || _); [ discriminate | ].
  intros [= <-]. unfold familyConsistent; simpl. split; [ | done ].
  intros _. left. discriminate.
Qed.

Lemma addIPMapping_consistent m locIP extIP m' :
  addIPMapping IPString m locIP extIP = Ok m' -> familyConsistent m'.
Proof.
  unfold addIPMapping. case_bool_decide; [ discriminate | ].
  destruct (ipMap m !! IPString locIP); [ discriminate | ].
  intros [= <-]. unfold familyConsistent; simpl. split; [ | done ].
  intros _. right. apply insert_non_empty.
Qed.

Lemma addMappingEntry_consistent mapper extIPStr mapper' :
  mapperConsistent mapper ->
  addMappingEntry ParseIP IPString mapper extIPStr = Ok mapper' ->
  mapperConsistent mapper'.
Proof.
  intros [H4 H6]. unfold addMappingEntry.
  destruct (Split extIPStr) as [ | ext [ | loc [ | ? ? ] ] ]; try discriminate.
  - destruct (validateIPString ParseIP ext) as [ [extIP [ | ] ] | ]; simpl; try discriminate.
    + destruct (setSoleIP _ _) as [ m | ] eqn:E; simpl; [ | discriminate ].
      intros [= <-]. split; simpl; eauto using setSoleIP_consistent.
    + destruct (setSoleIP _ _) as [ m | ] eqn:E; simpl; [ | discriminate ].
      intros [= <-]. split; simpl; eauto using setSoleIP_consistent.
  - destruct (validateIPString ParseIP ext) as [ [extIP [ | ] ] | ]; simpl; try discriminate;
      destruct (validateIPString ParseIP loc) as [ [locIP [ | ] ] | ]; simpl; try discriminate.
    + destruct (addIPMapping _ _ _ _) as [ m | ] eqn:E; simpl; [ | discriminate ].
      intros [= <-]. split; simpl; eauto using addIPMapping_consistent.
    + destruct (addIPMapping _ _ _ _) as [ m | ] eqn:E; simpl; [ | discriminate ].
      intros [= <-]. split; simpl; eauto using addIPMapping_consistent.
Qed.

Lemma addMappingEntries_consistent ips : forall mapper mapper',
  mapperConsistent mapper ->
  addMappingEntries ParseIP IPString mapper ips = Ok mapper' ->
  mapperConsistent mapper'.
Proof.
  induction ips as [ | extIPStr rest IH ]; simpl; intros mapper mapper' Hc.
  - by intros [= <-].
  - destruct (addMappingEntry _ _ _ _) as [ mid | ] eqn:E; simpl; [ | discriminate ].
    eauto using addMappingEntry_consistent.
Qed.

Lemma newExternalIPMapper_consistent ct ips m :
  newExternalIPMapper ParseIP IPString ct ips = Ok (Some m) -> mapperConsistent m.
Proof.
  unfold newExternalIPMapper. destruct ips as [ | extIPStr rest ]; [ discriminate | ].
  remember (extIPStr :: rest) as entries eqn:Hentries. clear Hentries.
  destruct (if bool_decide _ then _ else _) as [ ct' | ]; simpl; [ | discriminate ].
  destruct (addMappingEntries _ _ _ _) as [ mapper | ] eqn:E; simpl; [ | discriminate ].
  intros [= <-]. eapply addMappingEntries_consistent; [ | exact E ].
  split; apply emptyIpMapping_consistent.
Qed.

Lemma familyOf_consistent m locIP :
  mapperConsistent m -> familyConsistent (familyOf m locIP).
Proof. intros [? ?]. unfold familyOf. by case_bool_decide. Qed.

Lemma findExternalIP_family m localIPStr locIP :
  ParseIP localIPStr = Some locIP ->
  findExternalIP ParseIP IPString m localIPStr =
  ipMapping_findExternalIP IPString (familyOf m locIP) locIP.
Proof.
  intros Hp. unfold findExternalIP, validateIPString, familyOf. rewrite Hp. simpl.
  by case_bool_decide.
Qed.

(** C5 (as amended).  On a mapper built by [newExternalIPMapper] and a
    local address that parses, the lookup consults the mapping of the
    address's family: it returns the sole external IP when the family has
    one; it returns the local IP itself when nothing at all was configured
    for the family; otherwise it returns the explicit mapping of the local
    IP, and fails with [ErrExternalMappedIPNotFound] when there is none. *)
Theorem findExternalIP_by_family ct ips m localIPStr locIP :
  newExternalIPMapper ParseIP IPString ct ips = Ok (Some m) ->
  ParseIP localIPStr = Some locIP ->
  findExternalIP ParseIP IPString m localIPStr =
    match ipSole (familyOf m locIP) with
    | Some sole => Ok sole
    | None =>
        if bool_decide (ipMap (familyOf m locIP) = ∅) then Ok locIP
        else match ipMap (familyOf m locIP) !! IPString locIP with
             | Some extIP => Ok extIP
             | None => Err ErrExternalMappedIPNotFound
             end
    end.
Proof.
  intros Hnew Hp. rewrite (findExternalIP_family _ _ _ Hp).
  pose proof (familyOf_consistent m locIP (newExternalIPMapper_consistent _ _ _ Hnew)) as Hc.
  unfold ipMapping_findExternalIP, familyConsistent in *.
  destruct (familyOf m locIP) as [ sole map v ]; simpl in *.
  destruct v; simpl.
  - destruct sole as [ sole | ]; [ done | ].
    case_bool_decide as He; [ | done ].
    destruct Hc as [Hc _]. destruct (Hc eq_refl); congruence.
  - destruct sole as [ sole | ].
    + destruct Hc as [_ Hc]. discriminate Hc. by left.
    + case_bool_decide as He; [ done | ].
      destruct Hc as [_ Hc]. discriminate Hc. by right.
Qed.

End ExternalIPMapperFacts.

(** The lookup on a mapper configured for IPv4 only, asked for the IPv6
    loopback address. *)
Lemma findExternalIP_by_family_witness :
  findExternalIP literalParseIP literalIPString
    {| ipv4Mapping := {| ipSole := Some (v4InV6 1 2 3 4); ipMap := ∅; valid := true |};
       ipv6Mapping := emptyIpMapping;
       candidateType := CandidateTypeHost |} "::1"
  = Ok loopback6.
Proof.
  exact (findExternalIP_by_family literalParseIP literalIPString
           CandidateTypeHost ["1.2.3.4"%string] _ "::1"%string loopback6
           eq_refl eq_refl).
Defined.

(** C5 (as stated) fails: a mapper configured with the sole address 1.2.3.4
    has neither a sole IP nor an explicit mapping for IPv6, yet the lookup of
    [::1] does not fail: it returns [::1]. *)
Lemma findExternalIP_unconfigured_family_counterexample :
  ~ (forall (ct : CandidateType) (ips : list string) (m : externalIPMapper)
            (localIPStr : string) (locIP : net.IP),
        newExternalIPMapper literalParseIP literalIPString ct ips = Ok (Some m) ->
        literalParseIP localIPStr = Some locIP ->
        soleOrExplicitOrFail literalIPString m locIP
          (findExternalIP literalParseIP literalIPString m localIPStr)).
Proof.
  intros Hclaim.
  specialize (Hclaim CandidateTypeHost ["1.2.3.4"%string] _ "::1"%string loopback6
                eq_refl eq_refl).
  vm_compute in Hclaim. destruct Hclaim as [e He]. discriminate He.
Qed.

(** * The tick interval of the connectivity checks *)

Section TickInterval.

Context {Sel : Type} `{pairCandidateSelector Sel}.
Variable maxBindingRequestTimeout : time.Duration.
Variable defaultKeepaliveInterval : time.Duration.

Local Ltac in_list := rewrite ?elem_of_cons in *; intuition (auto; congruence).

Lemma updateInterval_cases x interval :
  (x = 0 /\ updateInterval x interval = interval)
  \/ (x <> 0 /\ interval = 0 /\ updateInterval x interval = x)
  \/ (x <> 0 /\ interval <> 0 /\ updateInterval x interval = Z.min x interval).
Proof.
  unfold updateInterval.
  repeat case_bool_decide; simpl; try (destruct (Z.ltb_spec x interval)); lia.
Qed.

(** The interval is obtained by offering the sources, in order, to
    [updateInterval], starting from the default. *)
Lemma tickInterval_foldl lastConnectionState (a : Agent (Sel := Sel)) :
  tickInterval defaultKeepaliveInterval lastConnectionState a =
  foldl (fun interval x => updateInterval x interval)
        defaultKeepaliveInterval (tickSources lastConnectionState a).
Proof. unfold tickInterval, tickSources, stateRate. by destruct lastConnectionState. Qed.

Lemma updateInterval_foldl_zero xs : forall interval,
  (forall x, x ∈ interval :: xs -> x = 0) ->
  foldl (fun interval x => updateInterval x interval) interval xs = 0.
Proof.
  induction xs as [ | y ys IH ]; simpl; intros interval Hz.
  - apply Hz. in_list.
  - apply IH. intros x Hx.
    assert (y = 0) as -> by (apply Hz; in_list).
    assert (interval = 0) as -> by (apply Hz; in_list).
    apply elem_of_cons in Hx as [ -> | Hx ]; [ done | ].
    apply Hz. in_list.
Qed.

Lemma updateInterval_foldl_least xs : forall interval,
  (exists x, x ∈ interval :: xs /\ x <> 0) ->
  let r := foldl (fun interval x => updateInterval x interval) interval xs in
  r ∈ interval :: xs /\ r <> 0
  /\ (forall x, x ∈ interval :: xs -> x <> 0 -> r <= x).
Proof.
  induction xs as [ | y ys IH ]; simpl; intros interval (x & Hx & Hnz).
  - apply list_elem_of_singleton in Hx as ->.
    repeat split; [ in_list | done | ].
    intros x Hx _. apply list_elem_of_singleton in Hx. lia.
  - destruct (IH (updateInterval y interval)) as (Hin & Hr & Hle).
    { destruct (updateInterval_cases y interval) as [ (? & E) | [ (? & ? & E) | (? & ? & E) ] ];
        rewrite E.
      - exists x. split; [ | done ]. in_list.
      - exists y. split; [ in_list | done ].
      - exists (Z.min y interval). split; [ in_list | lia ]. }
    repeat split; [ | done | ].
    + apply elem_of_cons in Hin as [ Hin | Hin ]; [ | in_list ].
      rewrite Hin.
      destruct (updateInterval_cases y interval) as [ (? & E) | [ (? & ? & E) | (? & ? & E) ] ];
        rewrite E; [ in_list | in_list | ].
      destruct (Z.min_spec y interval) as [ [_ ->] | [_ ->] ]; in_list.
    + intros z Hz Hznz.
      assert (updateInterval y interval <> 0 -> z = interval \/ z = y ->
              foldl (fun interval x => updateInterval x interval)
                    (updateInterval y interval) ys <= updateInterval y interval)
        as Hhead by (intros ? _; apply Hle; [ in_list | done ]).
      apply elem_of_cons in Hz as [ -> | Hz ]; [ | apply elem_of_cons in Hz as [ -> | Hz ] ].
      * destruct (updateInterval_cases y interval) as [ (? & E) | [ (? & ? & E) | (? & ? & E) ] ];
          rewrite E in *; [ | done | ].
        -- apply Hhead; auto.
        -- etrans; [ apply Hhead; auto; lia | lia ].
      * destruct (updateInterval_cases y interval) as [ (? & E) | [ (? & ? & E) | (? & ? & E) ] ];
          rewrite E in *; [ done | | ].
        -- apply Hhead; auto.
        -- etrans; [ apply Hhead; auto; lia | lia ].
      * apply Hle; [ in_list | done ].
Qed.

(** C6 (as amended).  On every iteration the interval is the least of the
    non-zero values among the default keepalive interval, the rate of the
    last connection state ([checkInterval] for New and Checking,
    [keepaliveInterval] for Connected and Disconnected, none otherwise),
    [disconnectedTimeout] and [failedTimeout]; it is zero only when all of
    them are zero.  The default always takes part in the minimum. *)
Theorem tickInterval_least_nonzero lastConnectionState (a : Agent (Sel := Sel)) :
  let candidates := defaultKeepaliveInterval :: tickSources lastConnectionState a in
  let interval := tickInterval defaultKeepaliveInterval lastConnectionState a in
  ((forall x, x ∈ candidates -> x = 0) -> interval = 0)
  /\ ((exists x, x ∈ candidates /\ x <> 0) ->
      interval ∈ candidates /\ interval <> 0
      /\ (forall x, x ∈ candidates -> x <> 0 -> interval <= x)).
Proof.
  intros candidates interval. subst candidates interval.
  rewrite tickInterval_foldl. split.
  - apply updateInterval_foldl_zero.
  - apply updateInterval_foldl_least.
Qed.

End TickInterval.

(** C6 (as stated) fails: with a default of 2s, keepalives disabled
    ([keepaliveInterval = 0]), [disconnectedTimeout = 5s] and
    [failedTimeout = 25s], the interval while Connected is the default, 2s,
    although two non-zero sources remain, whose minimum is 5s. *)
Lemma tickInterval_default_counterexample :
  let a := initialAgent [NetworkTypeUDP4] true MulticastDNSModeQueryOnly
             (200 * time.Millisecond) 0 (5 * time.Second) (25 * time.Second) in
  tickInterval (2 * time.Second) ConnectionStateConnected a = 2 * time.Second
  /\ leastNonZeroOrDefault (2 * time.Second) (tickSources ConnectionStateConnected a)
     = 5 * time.Second
  /\ tickInterval (2 * time.Second) ConnectionStateConnected a
     <> leastNonZeroOrDefault (2 * time.Second) (tickSources ConnectionStateConnected a).
Proof. vm_compute. repeat split; congruence. Qed.

(** * The agent *)

Section AgentFacts.

Context {Sel : Type} `{pairCandidateSelector Sel}.
Variable maxBindingRequestTimeout : time.Duration.

Implicit Types a : Agent (Sel := Sel).

(** ** Connection state *)

Lemma updateConnectionState_state newState a :
  connectionState (updateConnectionState newState a) = newState.
Proof.
  unfold updateConnectionState. case_bool_decide as Hne; simpl; [ done | ].
  destruct (decide (connectionState a = newState)); [ done | contradiction ].
Qed.

(** ** Restart *)

Lemma run_ok t a a' : run t a = (None, a') -> doneCh a = false /\ a' = t a.
Proof.
  unfold run, ok. destruct (doneCh a); [ discriminate | ]. by intros [= <-].
Qed.

Lemma Restart_ok ufrag pwd generatedUfrag generatedPwd a a' :
  Restart ufrag pwd generatedUfrag generatedPwd a = (None, a') ->
  exists ufrag' pwd',
    orGenerated ufrag generatedUfrag = Ok ufrag'
    /\ orGenerated pwd generatedPwd = Ok pwd'
    /\ 24 <= runeCount ufrag' * 8 /\ 128 <= runeCount pwd' * 8
    /\ doneCh a = false
    /\ a' = restartTask ufrag' pwd' a.
Proof.
  unfold Restart.
  destruct (orGenerated ufrag generatedUfrag) as [ ufrag' | ]; [ | discriminate ].
  destruct (orGenerated pwd generatedPwd) as [ pwd' | ]; [ | discriminate ].
  destruct (Z.ltb_spec (runeCount ufrag' * 8) 24); [ discriminate | ].
  destruct (Z.ltb_spec (runeCount pwd' * 8) 128); [ discriminate | ].
  intros [? ->]%run_ok. exists ufrag', pwd'. by repeat split.
Qed.

(** C1.  After a successful [Restart] the checklist and the pending
    binding requests are empty, no pair is selected, the local credentials
    are the new ones (those provided or, for an empty argument, those
    generated), and the connection state is Checking unless it was New, in
    which case it is still New. *)
Theorem Restart_fresh_session ufrag pwd generatedUfrag generatedPwd a a' :
  Restart ufrag pwd generatedUfrag generatedPwd a = (None, a') ->
  doneCh a = false
  /\ checklist a' = []
  /\ pendingBindingRequests a' = []
  /\ selectedPair a' = None /\ getSelectedPair a' = None
  /\ orGenerated ufrag generatedUfrag = Ok (localUfrag a')
  /\ orGenerated pwd generatedPwd = Ok (localPwd a')
  /\ connectionState a' =
       (if bool_decide (connectionState a = ConnectionStateNew)
        then ConnectionStateNew else ConnectionStateChecking).
Proof.
  intros (ufrag' & pwd' & Hu & Hp & _ & _ & Hopen & ->)%Restart_ok.
  rewrite Hu, Hp.
  unfold restartTask, getSelectedPair, updateConnectionState, deleteAllCandidates,
    setSelectedPair, unsetSelectedPair.
  simpl. by repeat case_bool_decide.
Qed.

(** C9.  A successful [Restart] leaves both remote credentials empty,
    whatever they were; they stay empty until [SetRemoteCredentials]
    stores new ones. *)
Theorem Restart_clears_remote_credentials ufrag pwd generatedUfrag generatedPwd a a' :
  Restart ufrag pwd generatedUfrag generatedPwd a = (None, a') ->
  remoteUfrag a' = ""%string /\ remotePwd a' = ""%string.
Proof.
  intros (ufrag' & pwd' & _ & _ & _ & _ & _ & ->)%Restart_ok.
  unfold restartTask, updateConnectionState, deleteAllCandidates,
    setSelectedPair, unsetSelectedPair.
  simpl. by repeat case_bool_decide.
Qed.


(** ** Adding a remote candidate *)

(** C10.  [AddRemoteCandidate(nil)] returns a nil error, starts no
    goroutine, so that no task reaches the loop, and returns the agent as
    it was, be it open or closed. *)
Theorem AddRemoteCandidate_nil a :
  AddRemoteCandidate None a = (None, [], a).
Proof. reflexivity. Qed.

(** ** The selected pair *)

(** The decision of [validateSelectedPair], with the sum of the two
    timeouts as the machine computes it. *)
Lemma validateSelectedPair_machine now a p :
  getSelectedPair a = Some p ->
  let disconnectedTime := time.Since now (LastReceived a (Remote p)) in
  let total := time.add (failedTimeout a) (disconnectedTimeout a) in
  connectionState (snd (validateSelectedPair now a)) =
    if bool_decide (failedTimeout a <> 0 /\ total <> 0 /\ total < disconnectedTime)
    then ConnectionStateFailed
    else if bool_decide (disconnectedTimeout a <> 0
                         /\ disconnectedTimeout a < disconnectedTime)
         then ConnectionStateDisconnected
         else ConnectionStateConnected.
Proof.
  intros Hsel. unfold validateSelectedPair. rewrite Hsel. simpl.
  set (disconnectedTime := time.Since now (LastReceived a (Remote p))).
  repeat case_bool_decide;
    repeat match goal with
           | |- context [ ?x <? ?y ] => destruct (Z.ltb_spec x y)
           end;
    simpl; rewrite ?updateConnectionState_state; try reflexivity;
    exfalso; intuition lia.
Qed.

Lemma add_exact (d e : time.Duration) :
  0 <= d -> 0 <= e -> d + e <= time.maxDuration -> time.add d e = d + e.
Proof.
  unfold time.add, time.wrap, time.maxDuration. intros.
  rewrite Z.mod_small; lia.
Qed.

(** C4.  With a pair selected, [validateSelectedPair] sets the connection
    state by [disconnectedTime = now - selected.remote.lastReceived] and
    by [total], the sum [failedTimeout + disconnectedTimeout] as the code
    computes it, in int64: Failed if [failedTimeout <> 0], [total <> 0] and
    [disconnectedTime > total]; else Disconnected if [disconnectedTimeout
    <> 0] and [disconnectedTime > disconnectedTimeout]; otherwise
    Connected.  For timeouts that are not negative and whose sum is a
    duration, this is the decision in the words of the specification. *)
Theorem validateSelectedPair_decision now a p :
  getSelectedPair a = Some p ->
  let disconnectedTime := time.Since now (LastReceived a (Remote p)) in
  let total := time.add (failedTimeout a) (disconnectedTimeout a) in
  fst (validateSelectedPair now a) = true
  /\ connectionState (snd (validateSelectedPair now a)) =
       (if bool_decide (failedTimeout a <> 0 /\ total <> 0 /\ total < disconnectedTime)
        then ConnectionStateFailed
        else if bool_decide (disconnectedTimeout a <> 0
                             /\ disconnectedTimeout a < disconnectedTime)
             then ConnectionStateDisconnected
             else ConnectionStateConnected)
  /\ (0 <= disconnectedTimeout a -> 0 <= failedTimeout a ->
      disconnectedTimeout a + failedTimeout a <= time.maxDuration ->
      connectionState (snd (validateSelectedPair now a))
      = decisionOfSpec disconnectedTime (disconnectedTimeout a) (failedTimeout a)).
Proof.
  intros Hsel disconnectedTime total. split; [ | split ].
  - unfold validateSelectedPair. rewrite Hsel.
    repeat match goal with |- context [ if ?b then _ else _ ] => destruct b end;
      reflexivity.
  - apply (validateSelectedPair_machine now a p Hsel).
  - intros Hd Hf Hsum. rewrite (validateSelectedPair_machine now a p Hsel).
    rewrite add_exact by lia. fold disconnectedTime. unfold decisionOfSpec.
    repeat case_bool_decide; try reflexivity; exfalso; intuition lia.
Qed.

End AgentFacts.

Section CandidateFacts.

Context {Sel : Type} `{pairCandidateSelector Sel}.
Variable maxBindingRequestTimeout : time.Duration.

Implicit Types a : Agent (Sel := Sel).
Implicit Types L R : Candidate -> Prop.

Local Abbreviation inLocal a := (fun c => inCandidates c (localCandidates a)).
Local Abbreviation inRemote a := (fun c => inCandidates c (remoteCandidates a)).

(** ** Equality of candidates *)

Lemma Equal_refl c : Equal c c = true.
Proof.
  unfold Equal. rewrite !String.eqb_refl, !Z.eqb_refl. reflexivity.
Qed.

(** ** What a fold of [addPair] leaves alone *)

Lemma foldl_preserves {A B : Type} (proj : Agent (Sel := Sel) -> B)
    (step : Agent (Sel := Sel) -> A -> Agent (Sel := Sel)) (xs : list A) :
  (forall a x, proj (step a x) = proj a) ->
  forall a, proj (foldl step a xs) = proj a.
Proof.
  intros Hstep. induction xs as [ | x xs IH ]; simpl; intros a; [ done | ].
  by rewrite IH, Hstep.
Qed.

Lemma addRemotePassiveTCPCandidate_remote c dialed a :
  remoteCandidates (addRemotePassiveTCPCandidate c dialed a) = remoteCandidates a.
Proof.
  unfold addRemotePassiveTCPCandidate. destruct dialed as [ created | ]; [ | done ].
  by apply (foldl_preserves remoteCandidates).
Qed.

(** ** Adding a remote candidate twice *)

Lemma addRemoteCandidate_known c dialed a :
  existsb (fun candidate => Equal candidate c)
          (default [] (remoteCandidates a !! c_NetworkType c)) = true ->
  addRemoteCandidate c dialed a = a.
Proof. intros Hknown. unfold addRemoteCandidate. by rewrite Hknown. Qed.

Lemma addRemoteCandidate_records c dialed a :
  existsb (fun candidate => Equal candidate c)
          (default [] (remoteCandidates (addRemoteCandidate c dialed a)
                         !! c_NetworkType c)) = true.
Proof.
  unfold addRemoteCandidate.
  destruct (existsb _ (default [] (remoteCandidates a !! c_NetworkType c))) eqn:Hknown;
    [ done | ].
  cbv zeta. unfold requestConnectivityCheck.
  match goal with
  | |- context [ remoteCandidates (set_forceCandidateContact _ ?x) ] =>
      change (remoteCandidates (set_forceCandidateContact true x))
        with (remoteCandidates x)
  end.
  assert (forall a1 : Agent (Sel := Sel),
             remoteCandidates a1 = remoteCandidates a ->
             existsb (fun candidate => Equal candidate c)
               (default []
                  (<[ c_NetworkType c :=
                        default [] (remoteCandidates a !! c_NetworkType c) ++ [c] ]>
                     (remoteCandidates a1) !! c_NetworkType c)) = true) as Hins.
  { intros a1 _. rewrite lookup_insert_eq. simpl.
    rewrite existsb_app. simpl. rewrite Equal_refl. apply orb_true_r. }
  destruct (bool_decide (c_TCPType c <> TCPTypePassive)).
  - match goal with
    | |- context [ match ?m !! c_NetworkType c with Some _ => _ | None => _ end ] =>
        destruct (m !! c_NetworkType c)
    end.
    + rewrite (foldl_preserves remoteCandidates) by done. simpl.
      apply Hins. destruct (_ && _); [ apply addRemotePassiveTCPCandidate_remote | done ].
    + simpl. apply Hins.
      destruct (_ && _); [ apply addRemotePassiveTCPCandidate_remote | done ].
  - simpl. apply Hins.
    destruct (_ && _); [ apply addRemotePassiveTCPCandidate_remote | done ].
Qed.

Lemma addRemoteCandidate_appends c dialed a :
  existsb (fun candidate => Equal candidate c)
          (default [] (remoteCandidates a !! c_NetworkType c)) = false ->
  remoteCandidates (addRemoteCandidate c dialed a)
  = <[ c_NetworkType c := default [] (remoteCandidates a !! c_NetworkType c) ++ [c] ]>
      (remoteCandidates a).
Proof.
  intros Hnew. unfold addRemoteCandidate. rewrite Hnew. cbv zeta.
  unfold requestConnectivityCheck.
  match goal with
  | |- context [ remoteCandidates (set_forceCandidateContact _ ?x) ] =>
      change (remoteCandidates (set_forceCandidateContact true x))
        with (remoteCandidates x)
  end.
  assert (forall a1 : Agent (Sel := Sel),
             remoteCandidates a1 = remoteCandidates a ->
             <[ c_NetworkType c :=
                  default [] (remoteCandidates a !! c_NetworkType c) ++ [c] ]>
               (remoteCandidates a1)
             = <[ c_NetworkType c :=
                    default [] (remoteCandidates a !! c_NetworkType c) ++ [c] ]>
                 (remoteCandidates a)) as Hins by (by intros a1 ->).
  destruct (bool_decide (c_TCPType c <> TCPTypePassive)).
  - match goal with
    | |- context [ match ?m !! c_NetworkType c with Some _ => _ | None => _ end ] =>
        destruct (m !! c_NetworkType c)
    end.
    + rewrite (foldl_preserves remoteCandidates) by done. simpl.
      apply Hins. destruct (_ && _); [ apply addRemotePassiveTCPCandidate_remote | done ].
    + simpl. apply Hins.
      destruct (_ && _); [ apply addRemotePassiveTCPCandidate_remote | done ].
  - simpl. apply Hins.
    destruct (_ && _); [ apply addRemotePassiveTCPCandidate_remote | done ].
Qed.

(** C7.  Running [addRemoteCandidate(c)] twice yields the same
    remote-candidate map and the same checklist as running it once.  The
    first run returns at once when an equal candidate is known and
    otherwise appends [c] to the remote candidates of its network type;
    either way the second run finds, in that set, a candidate equal to [c]
    and changes nothing, whatever the environment offers to either run. *)
Theorem addRemoteCandidate_twice c dialed dialed' a :
  let known := default [] (remoteCandidates a !! c_NetworkType c) in
  let once := addRemoteCandidate c dialed a in
  let twice := addRemoteCandidate c dialed' once in
  (if existsb (fun candidate => Equal candidate c) known
   then once = a
   else remoteCandidates once
        = <[ c_NetworkType c := known ++ [c] ]> (remoteCandidates a))
  /\ existsb (fun candidate => Equal candidate c)
             (default [] (remoteCandidates once !! c_NetworkType c)) = true
  /\ (exists c', c' ∈ default [] (remoteCandidates once !! c_NetworkType c)
                 /\ Equal c' c = true)
  /\ twice = once
  /\ remoteCandidates twice = remoteCandidates once
  /\ checklist twice = checklist once.
Proof.
  intros known once twice.
  pose proof (addRemoteCandidate_records c dialed a) as Hrec. fold once in Hrec.
  assert (twice = once) as Hsame by by apply addRemoteCandidate_known.
  split; [ | split; [ exact Hrec | split; [ | by rewrite Hsame ] ] ].
  - destruct (existsb _ known) eqn:Hknown.
    + by apply addRemoteCandidate_known.
    + by apply addRemoteCandidate_appends.
  - apply existsb_exists in Hrec as (c' & Hin & Heq). exists c'.
    split; [ by apply list_elem_of_In | done ].
Qed.

(** ** The endpoints of the checklist *)

Lemma pairsWithin_mono L R L' R' a :
  (forall c, L c -> L' c) -> (forall c, R c -> R' c) ->
  pairsWithin L R a -> pairsWithin L' R' a.
Proof.
  intros HL HR Hin l Hl. destruct (Hin l Hl) as (p & ? & ? & ?). eauto 6.
Qed.

Lemma pairsWithin_ext L R a a' :
  checklist a' = checklist a -> pairs a' = pairs a ->
  pairsWithin L R a -> pairsWithin L R a'.
Proof. unfold pairsWithin. by intros -> ->. Qed.

Lemma pairsWithin_nil L R a : checklist a = [] -> pairsWithin L R a.
Proof. intros Hnil l Hl. rewrite Hnil in Hl. by apply elem_of_nil in Hl. Qed.

Lemma pairsWithin_addPair L R local remote a :
  pairsWithin L R a -> L local -> R remote ->
  pairsWithin L R (snd (addPair local remote a)).
Proof.
  intros Hin HL HR l. simpl. intros [ Hl | ->%list_elem_of_singleton ]%elem_of_app.
  - destruct (Hin l Hl) as (p & Hp & ? & ?). exists p. repeat split; try done.
    rewrite lookup_insert_ne; [ done | ].
    intros <-. apply (is_fresh (dom (pairs a))). apply elem_of_dom. eauto.
  - eexists. rewrite lookup_insert_eq. by repeat split.
Qed.

Lemma pairsWithin_addPairs_remote L R remote locals : forall a,
  pairsWithin L R a -> (forall c, c ∈ locals -> L c) -> R remote ->
  pairsWithin L R
    (foldl (fun a localCandidate => snd (addPair localCandidate remote a)) a locals).
Proof.
  induction locals as [ | c cs IH ]; simpl; intros a Hin HL HR; [ done | ].
  apply IH; [ | intros; apply HL; by right | done ].
  apply pairsWithin_addPair; [ done | apply HL; by left | done ].
Qed.

Lemma pairsWithin_addPairs_local L R local remotes : forall a,
  pairsWithin L R a -> L local -> (forall c, c ∈ remotes -> R c) ->
  pairsWithin L R
    (foldl (fun a remoteCandidate => snd (addPair local remoteCandidate a)) a remotes).
Proof.
  induction remotes as [ | c cs IH ]; simpl; intros a Hin HL HR; [ done | ].
  apply IH; [ | done | intros; apply HR; by right ].
  apply pairsWithin_addPair; [ done | done | apply HR; by left ].
Qed.

Lemma inCandidates_appendCandidate c c' m :
  inCandidates c m -> inCandidates c (appendCandidate c' m).
Proof.
  intros (t & cs & Hm & Hc). unfold appendCandidate, inCandidates.
  destruct (decide (t = c_NetworkType c')) as [ -> | Hne ].
  - eexists _, _. rewrite lookup_insert_eq. split; [ done | ].
    rewrite Hm. simpl. apply elem_of_app. by left.
  - exists t, cs. by rewrite lookup_insert_ne.
Qed.

Lemma inCandidates_appendCandidate_new c m : inCandidates c (appendCandidate c m).
Proof.
  unfold appendCandidate, inCandidates. eexists _, _.
  rewrite lookup_insert_eq. split; [ done | ]. apply elem_of_app. right. by left.
Qed.

Lemma inCandidates_lookup c t cs m :
  m !! t = Some cs -> c ∈ cs -> inCandidates c m.
Proof. intros. exists t, cs. done. Qed.

(** The loop of [addRemotePassiveTCPCandidate] pairs its new local
    candidates with a remote candidate that is yet to be recorded. *)
Lemma pairsWithin_passive R remote dialed a :
  pairsWithin (fun c => inCandidates c (localCandidates a)) R a ->
  R remote ->
  let a' := addRemotePassiveTCPCandidate remote dialed a in
  pairsWithin (fun c => inCandidates c (localCandidates a')) R a'.
Proof.
  unfold addRemotePassiveTCPCandidate. destruct dialed as [ created | ]; [ | done ].
  intros Hin HR. revert a Hin.
  induction created as [ | lc created IH ]; simpl; intros a Hin; [ done | ].
  apply IH.
  set (b := set_candidateEvents (candidateEvents a ++ [lc])
              (set_localCandidates (appendCandidate lc (localCandidates a)) a)).
  apply (pairsWithin_addPair (fun c => inCandidates c (localCandidates b)) R lc remote b);
    [ | apply inCandidates_appendCandidate_new | done ].
  apply (pairsWithin_ext _ _ a); [ done | done | ].
  eapply pairsWithin_mono; [ | | exact Hin ]; [ | done ].
  intros c. apply inCandidates_appendCandidate.
Qed.

Lemma checklistEndpointsPresent_within L R a :
  pairsWithin L R a ->
  (forall c, L c -> inCandidates c (localCandidates a)) ->
  (forall c, R c -> inCandidates c (remoteCandidates a)) ->
  checklistEndpointsPresent a.
Proof. intros Hin HL HR. exact (pairsWithin_mono L R _ _ a HL HR Hin). Qed.

Lemma checklistEndpointsPresent_nil a :
  checklist a = [] -> checklistEndpointsPresent a.
Proof. exact (pairsWithin_nil (inLocal a) (inRemote a) a). Qed.

Lemma checklistEndpointsPresent_ext a a' :
  checklist a' = checklist a -> pairs a' = pairs a ->
  localCandidates a' = localCandidates a -> remoteCandidates a' = remoteCandidates a ->
  checklistEndpointsPresent a -> checklistEndpointsPresent a'.
Proof. unfold checklistEndpointsPresent. by intros -> -> -> ->. Qed.

Lemma addRemoteCandidate_endpoints c dialed a :
  checklistEndpointsPresent a -> checklistEndpointsPresent (addRemoteCandidate c dialed a).
Proof.
  intros Hin. unfold addRemoteCandidate.
  destruct (existsb _ _); [ done | ]. cbv zeta.
  set (known := default [] (remoteCandidates a !! c_NetworkType c)).
  set (R := fun x => inCandidates x (remoteCandidates a) \/ x = c).
  (* the agent once the passive branch has run *)
  match goal with
  | |- context [ set_remoteCandidates _ ?x ] => set (a1 := x)
  end.
  assert (pairsWithin (fun x => inCandidates x (localCandidates a1)) R a1
          /\ remoteCandidates a1 = remoteCandidates a) as [Hin1 Hrem1].
  { subst a1. destruct (_ && _).
    - split; [ | apply addRemotePassiveTCPCandidate_remote ].
      apply pairsWithin_passive; [ | by right ].
      apply (pairsWithin_mono (inLocal a) (inRemote a) (inLocal a) R a);
        [ done | by left | exact Hin ].
    - split; [ | done ].
      apply (pairsWithin_mono (inLocal a) (inRemote a) (inLocal a) R a);
        [ done | by left | exact Hin ]. }
  set (a2 := set_remoteCandidates (<[ c_NetworkType c := known ++ [c] ]> (remoteCandidates a1)) a1).
  assert (forall x, R x -> inCandidates x (remoteCandidates a2)) as HR.
  { intros x [ (t & cs & Hm & Hx) | -> ]; subst a2; simpl; rewrite Hrem1.
    - destruct (decide (t = c_NetworkType c)) as [ -> | Hne ].
      + eexists _, _. rewrite lookup_insert_eq. split; [ done | ].
        subst known. rewrite Hm. apply elem_of_app. by left.
      + exists t, cs. by rewrite lookup_insert_ne.
    - eexists _, _. rewrite lookup_insert_eq. split; [ done | ].
      apply elem_of_app. right. by left. }
  assert (checklistEndpointsPresent a2) as Hin2.
  { apply (pairsWithin_mono (inLocal a1) R (inLocal a2) (inRemote a2) a2);
      [ done | exact HR | ].
    by apply (pairsWithin_ext _ _ a1). }
  eapply (checklistEndpointsPresent_ext
            (if bool_decide (c_TCPType c <> TCPTypePassive)
             then match localCandidates a2 !! c_NetworkType c with
                  | Some localCandidates =>
                      foldl (fun a localCandidate => snd (addPair localCandidate c a))
                            a2 localCandidates
                  | None => a2
                  end
             else a2)); try done.
  destruct (bool_decide (c_TCPType c <> TCPTypePassive)); [ | done ].
  destruct (localCandidates a2 !! c_NetworkType c) as [ locals | ] eqn:Hloc; [ | done ].
  apply (checklistEndpointsPresent_within (inLocal a2) (inRemote a2)).
  - apply pairsWithin_addPairs_remote; [ exact Hin2 | | ].
    + intros x Hx. eapply inCandidates_lookup; done.
    + apply HR. by right.
  - intros x. by rewrite (foldl_preserves localCandidates).
  - intros x. by rewrite (foldl_preserves remoteCandidates).
Qed.

Lemma addCandidateTask_endpoints c a :
  checklistEndpointsPresent a -> checklistEndpointsPresent (addCandidateTask c a).
Proof.
  intros Hin. unfold addCandidateTask.
  destruct (existsb _ _); [ by eapply checklistEndpointsPresent_ext | ]. cbv zeta.
  set (known := default [] (localCandidates a !! c_NetworkType c)).
  set (a1 := set_localCandidates (<[ c_NetworkType c := known ++ [c] ]> (localCandidates a)) a).
  assert (forall x, inCandidates x (localCandidates a) \/ x = c ->
                    inCandidates x (localCandidates a1)) as HL.
  { intros x [ (t & cs & Hm & Hx) | -> ]; subst a1; simpl.
    - destruct (decide (t = c_NetworkType c)) as [ -> | Hne ].
      + eexists _, _. rewrite lookup_insert_eq. split; [ done | ].
        subst known. rewrite Hm. apply elem_of_app. by left.
      + exists t, cs. by rewrite lookup_insert_ne.
    - eexists _, _. rewrite lookup_insert_eq. split; [ done | ].
      apply elem_of_app. right. by left. }
  assert (checklistEndpointsPresent a1) as Hin1.
  { apply (pairsWithin_mono (inLocal a) (inRemote a) (inLocal a1) (inRemote a1) a1);
      [ | done | exact Hin ].
    intros x Hx. apply HL. by left. }
  eapply (checklistEndpointsPresent_ext
            (match remoteCandidates a1 !! c_NetworkType c with
             | Some remoteCandidates =>
                 foldl (fun a remoteCandidate => snd (addPair c remoteCandidate a))
                       a1 remoteCandidates
             | None => a1
             end)); try done.
  destruct (remoteCandidates a1 !! c_NetworkType c) as [ remotes | ] eqn:Hrem; [ | done ].
  apply (checklistEndpointsPresent_within (inLocal a1) (inRemote a1)).
  - apply pairsWithin_addPairs_local; [ exact Hin1 | | ].
    + apply HL. by right.
    + intros x Hx. eapply inCandidates_lookup; done.
  - intros x. by rewrite (foldl_preserves localCandidates).
  - intros x. by rewrite (foldl_preserves remoteCandidates).
Qed.

Lemma updateConnectionState_endpoints newState a :
  checklistEndpointsPresent a ->
  checklistEndpointsPresent (updateConnectionState newState a).
Proof.
  intros Hin. unfold updateConnectionState.
  case_bool_decide; [ | done ]. case_bool_decide.
  - by apply checklistEndpointsPresent_nil.
  - by eapply checklistEndpointsPresent_ext.
Qed.

Lemma restartTask_endpoints ufrag pwd a :
  checklistEndpointsPresent (restartTask ufrag pwd a).
Proof.
  unfold restartTask. cbv zeta. case_bool_decide.
  - apply updateConnectionState_endpoints. by apply checklistEndpointsPresent_nil.
  - by apply checklistEndpointsPresent_nil.
Qed.

Lemma setSelectedPair_endpoints p a :
  checklistEndpointsPresent a -> checklistEndpointsPresent (setSelectedPair p a).
Proof.
  intros Hin. destruct p as [ l | ]; [ | by eapply checklistEndpointsPresent_ext ].
  unfold setSelectedPair. cbv zeta.
  eapply (checklistEndpointsPresent_ext
            (updateConnectionState ConnectionStateConnected
               (set_selectedPair (Some l) (set_pairs (alter nominate l (pairs a)) a))));
    try done.
  apply updateConnectionState_endpoints.
  intros l' Hl'. simpl in *. destruct (Hin l' Hl') as (p & Hp & ? & ?).
  destruct (decide (l = l')) as [ <- | Hne ].
  - exists (nominate p). rewrite lookup_alter_eq, Hp. done.
  - exists p. rewrite lookup_alter_ne by done. done.
Qed.

Lemma validateSelectedPair_endpoints now a :
  checklistEndpointsPresent a ->
  checklistEndpointsPresent (snd (validateSelectedPair now a)).
Proof.
  intros Hin. unfold validateSelectedPair.
  destruct (getSelectedPair a); [ | done ].
  repeat match goal with |- context [ if ?b then _ else _ ] => destruct b end;
    by apply updateConnectionState_endpoints.
Qed.

Lemma handleInboundBindingSuccess_endpoints id now1 now2 a :
  checklistEndpointsPresent a ->
  checklistEndpointsPresent
    (snd (handleInboundBindingSuccess maxBindingRequestTimeout id now1 now2 a)).
Proof.
  intros Hin. unfold handleInboundBindingSuccess. cbv zeta.
  destruct (list_find _ _) as [ [i r] | ]; by eapply checklistEndpointsPresent_ext.
Qed.

Lemma startConnectivityChecksTask_keeps isControlling remoteUfrag remotePwd a :
  let a' := startConnectivityChecksTask isControlling remoteUfrag remotePwd a in
  checklist a' = checklist a /\ pairs a' = pairs a
  /\ localCandidates a' = localCandidates a
  /\ remoteCandidates a' = remoteCandidates a
  /\ pendingBindingRequests a' = pendingBindingRequests a.
Proof.
  destruct a.
  unfold startConnectivityChecksTask, updateConnectionState, requestConnectivityCheck.
  simpl. by repeat case_bool_decide.
Qed.

Lemma startConnectivityChecksTask_endpoints isControlling remoteUfrag remotePwd a :
  checklistEndpointsPresent a ->
  checklistEndpointsPresent
    (startConnectivityChecksTask isControlling remoteUfrag remotePwd a).
Proof.
  destruct (startConnectivityChecksTask_keeps isControlling remoteUfrag remotePwd a)
    as (Hlist & Hpairs & Hloc & Hrem & _).
  by apply checklistEndpointsPresent_ext.
Qed.

Lemma runTask_endpoints t a :
  checklistEndpointsPresent a ->
  checklistEndpointsPresent (runTask maxBindingRequestTimeout t a).
Proof.
  intros Hin. destruct t; simpl.
  - by apply addRemoteCandidate_endpoints.
  - by apply addCandidateTask_endpoints.
  - apply restartTask_endpoints.
  - by eapply checklistEndpointsPresent_ext.
  - by apply updateConnectionState_endpoints.
  - by apply setSelectedPair_endpoints.
  - by apply validateSelectedPair_endpoints.
  - by eapply checklistEndpointsPresent_ext.
  - by apply handleInboundBindingSuccess_endpoints.
  - by apply startConnectivityChecksTask_endpoints.
Qed.

Lemma quiescent_endpoints a0 a :
  checklistEndpointsPresent a0 ->
  quiescent maxBindingRequestTimeout a0 a ->
  checklistEndpointsPresent a.
Proof.
  intros Hstart Hq. induction Hq as [ | t a Hq IH Hopen ]; [ done | ].
  by apply runTask_endpoints.
Qed.

(** The shutdown path empties both candidate maps and leaves the
    checklist as it finds it. *)
Lemma taskLoopShutdown_effect a :
  localCandidates (taskLoopShutdown a) = ∅
  /\ remoteCandidates (taskLoopShutdown a) = ∅
  /\ checklist (taskLoopShutdown a) = checklist a
  /\ pairs (taskLoopShutdown a) = pairs a
  /\ connectionState (taskLoopShutdown a) = ConnectionStateClosed.
Proof.
  unfold taskLoopShutdown, updateConnectionState, deleteAllCandidates. simpl.
  case_bool_decide as Hstate; simpl; done.
Qed.

Lemma taskLoopShutdown_endpoints a :
  checklistEndpointsPresent (taskLoopShutdown a) <-> checklist a = [].
Proof.
  destruct (taskLoopShutdown_effect a) as (Hloc & _ & Hlist & _ & _).
  split.
  - intros Hin. destruct (checklist a) as [ | l ls ] eqn:Hl; [ done | ].
    destruct (Hin l) as (p & _ & (t & cs & Hm & _) & _).
    + rewrite Hlist. by left.
    + rewrite Hloc, lookup_empty in Hm. discriminate.
  - intros Hnil. apply checklistEndpointsPresent_nil. by rewrite Hlist.
Qed.

(** C2 (as amended).  If the invariant holds when the loop starts, it holds
    whenever the loop is between two tasks: for every pair [p] of the
    checklist, [p.Local] is in the local candidate map and [p.Remote] is in
    the remote one.  The shutdown path that [Close] triggers deletes all
    candidates and keeps the checklist, so after it the invariant holds
    exactly when the checklist was empty. *)
Theorem checklist_endpoints_invariant a0 a :
  checklistEndpointsPresent a0 ->
  quiescent maxBindingRequestTimeout a0 a ->
  checklistEndpointsPresent a
  /\ (checklistEndpointsPresent (taskLoopShutdown a) <-> checklist a = []).
Proof.
  intros Hstart Hq. split.
  - by eapply quiescent_endpoints.
  - apply taskLoopShutdown_endpoints.
Qed.

End CandidateFacts.

Section TransactionFacts.

Context {Sel : Type} `{pairCandidateSelector Sel}.
Variable maxBindingRequestTimeout : time.Duration.

Implicit Types a : Agent (Sel := Sel).
Implicit Types l : list bindingRequest.

(** ** Lists of records *)







(** ** The cache under the tasks of the loop *)











End TransactionFacts.

(** * The theorems at sample inputs *)

(** [Restart] on a connected agent whose one pair is selected. *)
Lemma Restart_fresh_session_witness :
  let a' := snd (Restart "abc" pwd128 (Err ErrRandom) (Err ErrRandom) connectedAgent) in
  doneCh connectedAgent = false
  /\ checklist a' = []
  /\ pendingBindingRequests a' = []
  /\ selectedPair a' = None /\ getSelectedPair a' = None
  /\ orGenerated "abc" (Err ErrRandom) = Ok (localUfrag a')
  /\ orGenerated pwd128 (Err ErrRandom) = Ok (localPwd a')
  /\ connectionState a' =
       (if bool_decide (connectionState connectedAgent = ConnectionStateNew)
        then ConnectionStateNew else ConnectionStateChecking).
Proof.
  apply (Restart_fresh_session "abc" pwd128 (Err ErrRandom) (Err ErrRandom) connectedAgent).
  vm_compute. reflexivity.
Defined.

(** The remote credentials of the same agent, set before the restart. *)
Lemma Restart_clears_remote_credentials_witness :
  let a' := snd (Restart "abc" pwd128 (Err ErrRandom) (Err ErrRandom) connectedAgent) in
  remoteUfrag connectedAgent = "remoteUfrag"%string
  /\ remoteUfrag a' = ""%string /\ remotePwd a' = ""%string.
Proof.
  split; [ reflexivity | ].
  apply (Restart_clears_remote_credentials
           "abc" pwd128 (Err ErrRandom) (Err ErrRandom) connectedAgent).
  vm_compute. reflexivity.
Defined.


(** Six seconds of silence with timeouts of 5s and 25s: Disconnected. *)
Lemma validateSelectedPair_decision_witness :
  fst (validateSelectedPair (10 * time.Second) connectedAgent) = true
  /\ connectionState (snd (validateSelectedPair (10 * time.Second) connectedAgent))
     = ConnectionStateDisconnected.
Proof.
  assert (getSelectedPair connectedAgent = Some nominatedPair) as Hsel
    by (vm_compute; reflexivity).
  destruct (validateSelectedPair_decision (10 * time.Second) connectedAgent
              nominatedPair Hsel) as (Hvalid & _ & Hspec).
  split; [ exact Hvalid | ].
  rewrite Hspec.
  - vm_compute. reflexivity.
  - vm_compute. discriminate.
  - vm_compute. discriminate.
  - vm_compute. discriminate.
Defined.

(** C4 (as stated) fails outside those timeouts, because the code tests the
    int64 sum and not [failedTimeout] alone.  After six seconds of silence:
    with [failedTimeout] the greatest duration and [disconnectedTimeout]
    5s the sum wraps below zero and the agent becomes Failed, where the
    claim says Disconnected; with [failedTimeout] 5s and
    [disconnectedTimeout] -5s the sum is 0 and the agent becomes
    Disconnected, where the claim says Failed. *)
Lemma validateSelectedPair_wrapped_sum_counterexample :
  let now := 10 * time.Second in
  let wraps := timedAgent (5 * time.Second) time.maxDuration in
  let cancels := timedAgent (- 5 * time.Second) (5 * time.Second) in
  (getSelectedPair wraps = Some nominatedPair
   /\ time.Since now (LastReceived wraps (Remote nominatedPair)) = 6 * time.Second
   /\ connectionState (snd (validateSelectedPair now wraps)) = ConnectionStateFailed
   /\ decisionOfSpec (6 * time.Second) (disconnectedTimeout wraps) (failedTimeout wraps)
      = ConnectionStateDisconnected)
  /\ (getSelectedPair cancels = Some nominatedPair
      /\ time.Since now (LastReceived cancels (Remote nominatedPair)) = 6 * time.Second
      /\ connectionState (snd (validateSelectedPair now cancels))
         = ConnectionStateDisconnected
      /\ decisionOfSpec (6 * time.Second) (disconnectedTimeout cancels)
           (failedTimeout cancels)
         = ConnectionStateFailed).
Proof. vm_compute. repeat split; reflexivity. Qed.

(** The remote host candidate is added twice to the agent that has
    gathered the local one: the first run records it, the second changes
    nothing. *)
Lemma addRemoteCandidate_twice_witness :
  let once := addRemoteCandidate remoteHost None gatheredAgent in
  remoteCandidates gatheredAgent !! NetworkTypeUDP4 = None
  /\ remoteCandidates once !! NetworkTypeUDP4 = Some [remoteHost]
  /\ length (checklist once) = 1%nat
  /\ addRemoteCandidate remoteHost None once = once.
Proof.
  intros once.
  destruct (addRemoteCandidate_twice remoteHost None None gatheredAgent)
    as (_ & _ & _ & Hsame & _).
  split; [ vm_compute; reflexivity | ]. split; [ vm_compute; reflexivity | ].
  split; [ vm_compute; reflexivity | exact Hsame ].
Defined.


(** Two tasks on a new agent: a local and a remote candidate are added. *)
Lemma checklist_endpoints_invariant_witness :
  checklistEndpointsPresent pairedAgent
  /\ (checklistEndpointsPresent (taskLoopShutdown pairedAgent)
      <-> checklist pairedAgent = []).
Proof.
  apply (checklist_endpoints_invariant (4 * time.Second) udpAgent pairedAgent).
  - intros l Hl. vm_compute in Hl. by apply elem_of_nil in Hl.
  - apply (quiescent_task _ _ (TAddRemoteCandidate remoteHost None)); [ | reflexivity ].
    apply (quiescent_task _ _ (TAddCandidate localHost)); [ | reflexivity ].
    apply quiescent_start.
Defined.

(** C2 (as stated) fails: the agent with one pair satisfies the invariant
    between tasks, and [Close] on it succeeds, after which its checklist
    still holds the pair while both candidate maps are empty. *)
Lemma Close_keeps_checklist_counterexample :
  quiescent (4 * time.Second) udpAgent pairedAgent
  /\ checklistEndpointsPresent pairedAgent
  /\ fst (close pairedAgent) = None
  /\ checklist (snd (close pairedAgent)) = checklist pairedAgent
  /\ localCandidates (snd (close pairedAgent)) = ∅
  /\ remoteCandidates (snd (close pairedAgent)) = ∅
  /\ ~ checklistEndpointsPresent (snd (close pairedAgent)).
Proof.
  assert (quiescent (4 * time.Second) udpAgent pairedAgent) as Hq.
  { apply (quiescent_task _ _ (TAddRemoteCandidate remoteHost None)); [ | reflexivity ].
    apply (quiescent_task _ _ (TAddCandidate localHost)); [ | reflexivity ].
    apply quiescent_start. }
  split; [ exact Hq | ]. split.
  { apply (quiescent_endpoints (4 * time.Second) udpAgent); [ | exact Hq ].
    intros l Hl. vm_compute in Hl. by apply elem_of_nil in Hl. }
  split; [ vm_compute; reflexivity | ]. split; [ vm_compute; reflexivity | ].
  split; [ vm_compute; reflexivity | ]. split; [ vm_compute; reflexivity | ].
  change (snd (close pairedAgent))
    with (taskLoopShutdown (set_doneCh true (set_err (Some ErrClosed) pairedAgent))).
  rewrite taskLoopShutdown_endpoints. vm_compute. discriminate.
Qed.


(** * Further properties of the external IP mapper *)

Section ExternalIPMapperMore.

Variable ParseIP : string -> option net.IP.
Variable IPString : net.IP -> string.

Lemma familyOf_isIPv4 m ip :
  familyOf m ip = if isIPv4 ip then ipv4Mapping m else ipv6Mapping m.
Proof. reflexivity. Qed.

Lemma setSoleIP_ok m ip m' :
  setSoleIP m ip = Ok m' ->
  ipSole m = None /\ ipMap m = ∅
  /\ m' = {| ipSole := Some ip; ipMap := ipMap m; valid := true |}.
Proof.
  unfold setSoleIP.
  destruct (bool_decide (ipSole m <> None)) eqn:Hsole; simpl; [ discriminate | ].
  destruct (bool_decide (0 < size (ipMap m))%nat) eqn:Hsize; [ discriminate | ].
  apply bool_decide_eq_false in Hsole, Hsize.
  intros [= <-]. repeat split.
  - by apply dec_stable.
  - apply map_size_empty_iff. lia.
Qed.

Lemma addIPMapping_ok m locIP extIP m' :
  addIPMapping IPString m locIP extIP = Ok m' ->
  ipSole m = None /\ ipMap m !! IPString locIP = None
  /\ m' = {| ipSole := ipSole m;
             ipMap := <[ IPString locIP := extIP ]> (ipMap m);
             valid := true |}.
Proof.
  unfold addIPMapping.
  destruct (bool_decide (ipSole m <> None)) eqn:Hsole; [ discriminate | ].
  apply bool_decide_eq_false in Hsole.
  destruct (ipMap m !! IPString locIP) eqn:Hk; [ discriminate | ].
  intros [= <-]. repeat split. by apply dec_stable.
Qed.

Lemma mappingExtends_refl m : mappingExtends m m.
Proof. by repeat split. Qed.

Lemma mappingExtends_trans m1 m2 m3 :
  mappingExtends m1 m2 -> mappingExtends m2 m3 -> mappingExtends m1 m3.
Proof. intros (?&?&?) (?&?&?). repeat split; eauto. Qed.

Lemma setSoleIP_extends m ip m' :
  setSoleIP m ip = Ok m' -> mappingExtends m m' /\ familyExclusive m'.
Proof.
  intros (Hsole & Hmap & ->)%setSoleIP_ok. split.
  - split; [ | split ]; simpl; [ | done | done ]. intros sole. by rewrite Hsole.
  - right. done.
Qed.

Lemma addIPMapping_extends m locIP extIP m' :
  addIPMapping IPString m locIP extIP = Ok m' ->
  mappingExtends m m' /\ familyExclusive m'.
Proof.
  intros (Hsole & Hk & ->)%addIPMapping_ok. split.
  - split; [ | split ]; simpl; [ done | | done ].
    intros k v Hkv. rewrite lookup_insert_ne; [ done | ]. intros <-. congruence.
  - left. done.
Qed.

(** What a successful iteration of the loop of [newExternalIPMapper] has
    done: it has set the sole IP or added one mapping in the family of the
    external IP, and has left the other family alone. *)
Lemma addMappingEntry_ok mapper entry mapper' :
  addMappingEntry ParseIP IPString mapper entry = Ok mapper' ->
  candidateType mapper' = candidateType mapper
  /\ ((exists ext extIP,
          Split entry = [ext] /\ ParseIP ext = Some extIP
          /\ setSoleIP (familyOf mapper extIP) extIP = Ok (familyOf mapper' extIP)
          /\ (forall ip, isIPv4 ip <> isIPv4 extIP -> familyOf mapper' ip = familyOf mapper ip))
      \/ (exists ext loc extIP locIP,
             Split entry = [ext; loc]
             /\ ParseIP ext = Some extIP /\ ParseIP loc = Some locIP
             /\ isIPv4 locIP = isIPv4 extIP
             /\ addIPMapping IPString (familyOf mapper extIP) locIP extIP
                = Ok (familyOf mapper' extIP)
             /\ (forall ip, isIPv4 ip <> isIPv4 extIP ->
                            familyOf mapper' ip = familyOf mapper ip))).
Proof.
  unfold addMappingEntry, validateIPString.
  destruct (Split entry) as [ | ext [ | loc [ | ? ? ] ] ]; try discriminate.
  - destruct (ParseIP ext) as [ extIP | ] eqn:Hext; simpl; [ | discriminate ].
    fold (isIPv4 extIP). destruct (isIPv4 extIP) eqn:Hv4;
      destruct (setSoleIP _ extIP) as [ m | ] eqn:Hset; simpl; try discriminate;
      intros [= <-]; (split; [ done | ]); left; exists ext, extIP;
      rewrite !familyOf_isIPv4, Hv4; simpl; repeat split; try done;
      intros ip Hip; rewrite !familyOf_isIPv4; by destruct (isIPv4 ip).
  - destruct (ParseIP ext) as [ extIP | ] eqn:Hext; simpl; [ | discriminate ].
    destruct (ParseIP loc) as [ locIP | ] eqn:Hloc; simpl; [ | discriminate ].
    fold (isIPv4 extIP) (isIPv4 locIP).
    destruct (isIPv4 extIP) eqn:Hv4, (isIPv4 locIP) eqn:Hl4; simpl; try discriminate;
      destruct (addIPMapping _ _ locIP extIP) as [ m | ] eqn:Hadd; simpl; try discriminate;
      intros [= <-]; (split; [ done | ]); right; exists ext, loc, extIP, locIP;
      rewrite !familyOf_isIPv4, Hv4; simpl; repeat split; try done;
      intros ip Hip; rewrite !familyOf_isIPv4; by destruct (isIPv4 ip).
Qed.

Lemma addMappingEntry_extends mapper entry mapper' ip :
  addMappingEntry ParseIP IPString mapper entry = Ok mapper' ->
  mappingExtends (familyOf mapper ip) (familyOf mapper' ip)
  /\ (familyExclusive (familyOf mapper ip) -> familyExclusive (familyOf mapper' ip)).
Proof.
  intros (_ & [ (ext & extIP & _ & _ & Hset & Hother)
              | (ext & loc & extIP & locIP & _ & _ & _ & _ & Hadd & Hother) ])%addMappingEntry_ok.
  - destruct (decide (isIPv4 ip = isIPv4 extIP)) as [ Heq | Hne ].
    + assert (forall m, familyOf m ip = familyOf m extIP) as Hfam
        by (intros; by rewrite !familyOf_isIPv4, Heq).
      rewrite !Hfam. apply setSoleIP_extends in Hset as [? ?]. done.
    + rewrite (Hother ip Hne). split; [ apply mappingExtends_refl | done ].
  - destruct (decide (isIPv4 ip = isIPv4 extIP)) as [ Heq | Hne ].
    + assert (forall m, familyOf m ip = familyOf m extIP) as Hfam
        by (intros; by rewrite !familyOf_isIPv4, Heq).
      rewrite !Hfam. apply addIPMapping_extends in Hadd as [? ?]. done.
    + rewrite (Hother ip Hne). split; [ apply mappingExtends_refl | done ].
Qed.

Lemma addMappingEntries_extends ips : forall mapper mapper' ip,
  addMappingEntries ParseIP IPString mapper ips = Ok mapper' ->
  mappingExtends (familyOf mapper ip) (familyOf mapper' ip)
  /\ (familyExclusive (familyOf mapper ip) -> familyExclusive (familyOf mapper' ip))
  /\ candidateType mapper' = candidateType mapper.
Proof.
  induction ips as [ | entry rest IH ]; simpl; intros mapper mapper' ip.
  - intros [= <-]. split; [ apply mappingExtends_refl | done ].
  - destruct (addMappingEntry _ _ mapper entry) as [ mid | ] eqn:Hentry; simpl;
      [ | discriminate ].
    intros Hrest. destruct (IH _ _ ip Hrest) as (Hext & Hexcl & Htype).
    destruct (addMappingEntry_extends _ _ _ ip Hentry) as [Hext1 Hexcl1].
    pose proof (addMappingEntry_ok _ _ _ Hentry) as [Htype1 _].
    split; [ by eapply mappingExtends_trans | ]. split; [ auto | congruence ].
Qed.

Lemma addMappingEntries_app ips1 : forall ips2 mapper mapper',
  addMappingEntries ParseIP IPString mapper (ips1 ++ ips2) = Ok mapper' ->
  exists mid, addMappingEntries ParseIP IPString mapper ips1 = Ok mid
              /\ addMappingEntries ParseIP IPString mid ips2 = Ok mapper'.
Proof.
  induction ips1 as [ | entry rest IH ]; simpl; intros ips2 mapper mapper'.
  - intros Hall. by exists mapper.
  - destruct (addMappingEntry _ _ mapper entry) as [ mid | ]; simpl; [ | discriminate ].
    apply IH.
Qed.

(** The entries of a mapper that could be built, seen from the result: the
    mapper from which the build starts, the one it ends with. *)
Lemma newExternalIPMapper_ok ct ips m :
  newExternalIPMapper ParseIP IPString ct ips = Ok (Some m) ->
  ips <> []
  /\ (ct = CandidateTypeUnspecified \/ ct = CandidateTypeHost
      \/ ct = CandidateTypeServerReflexive)
  /\ addMappingEntries ParseIP IPString
       {| ipv4Mapping := emptyIpMapping; ipv6Mapping := emptyIpMapping;
          candidateType := if bool_decide (ct = CandidateTypeUnspecified)
                           then CandidateTypeHost else ct |} ips = Ok m.
Proof.
  unfold newExternalIPMapper. destruct ips as [ | entry rest ]; [ discriminate | ].
  remember (entry :: rest) as entries eqn:Hentries.
  case_bool_decide as Hun; simpl.
  - destruct (addMappingEntries _ _ _ entries) as [ mapper | ] eqn:Hbuild; simpl;
      [ | discriminate ].
    intros [= <-]. subst entries. split; [ | split ]; [ done | by left | done ].
  - destruct (bool_decide (ct <> CandidateTypeHost)
              && bool_decide (ct <> CandidateTypeServerReflexive)) eqn:Hsup; simpl;
      [ discriminate | ].
    destruct (addMappingEntries _ _ _ entries) as [ mapper | ] eqn:Hbuild; simpl;
      [ | discriminate ].
    intros [= <-]. subst entries. split; [ | split ]; [ done | | done ].
    apply andb_false_iff in Hsup as [ Hh%bool_decide_eq_false | Hs%bool_decide_eq_false ].
    + right. left. by apply dec_stable.
    + right. right. by apply dec_stable.
Qed.

Lemma newExternalIPMapper_none ct ips :
  newExternalIPMapper ParseIP IPString ct ips = Ok None -> ips = [].
Proof.
  unfold newExternalIPMapper. destruct ips as [ | entry rest ]; [ done | ].
  remember (entry :: rest) as entries eqn:Hentries. clear Hentries.
  destruct (if bool_decide _ then _ else _) as [ ct' | ]; simpl; [ | discriminate ].
  destruct (addMappingEntries _ _ _ entries); simpl; discriminate.
Qed.

Lemma emptyIpMapping_exclusive : familyExclusive emptyIpMapping.
Proof. by left. Qed.

(** An entry of a list that could be processed was processed at some point,
    and what it set is still there at the end. *)
Lemma addMappingEntries_member ips mapper m entry :
  addMappingEntries ParseIP IPString mapper ips = Ok m ->
  entry ∈ ips ->
  exists before after,
    addMappingEntry ParseIP IPString before entry = Ok after
    /\ (forall ip, mappingExtends (familyOf after ip) (familyOf m ip)).
Proof.
  intros Hbuild (l1 & l2 & ->)%list_elem_of_split.
  apply addMappingEntries_app in Hbuild as (before & _ & Hrest). simpl in Hrest.
  destruct (addMappingEntry _ _ before entry) as [ after | ] eqn:Hentry; simpl in Hrest;
    [ | discriminate ].
  exists before, after. split; [ done | ].
  intros ip. by destruct (addMappingEntries_extends _ _ _ ip Hrest) as (? & _ & _).
Qed.

Lemma newExternalIPMapper_exclusive ct ips m ip :
  newExternalIPMapper ParseIP IPString ct ips = Ok (Some m) ->
  familyExclusive (familyOf m ip).
Proof.
  intros (_ & _ & Hbuild)%newExternalIPMapper_ok.
  destruct (addMappingEntries_extends _ _ _ ip Hbuild) as (_ & Hexcl & _).
  apply Hexcl. rewrite familyOf_isIPv4. simpl.
  destruct (isIPv4 ip); apply emptyIpMapping_exclusive.
Qed.

Lemma familyOf_same m ip ip' :
  isIPv4 ip = isIPv4 ip' -> familyOf m ip = familyOf m ip'.
Proof. intros Heq. by rewrite !familyOf_isIPv4, Heq. Qed.

(** The family of a sole entry at the end of a build. *)
Lemma sole_entry_kept ips mapper m entry ext extIP :
  addMappingEntries ParseIP IPString mapper ips = Ok m ->
  entry ∈ ips -> Split entry = [ext] -> ParseIP ext = Some extIP ->
  ipSole (familyOf m extIP) = Some extIP /\ valid (familyOf m extIP) = true.
Proof.
  intros Hbuild Hin Hsplit Hext.
  destruct (addMappingEntries_member _ _ _ _ Hbuild Hin) as (before & after & Hentry & Hkept).
  destruct (Hkept extIP) as (Hsole & _ & Hvalid).
  apply addMappingEntry_ok in Hentry
    as (_ & [ (ext0 & extIP0 & Hsplit0 & Hext0 & Hset & _)
            | (ext0 & loc0 & ? & ? & Hsplit0 & _) ]);
    rewrite Hsplit in Hsplit0; [ | discriminate ].
  injection Hsplit0 as <-. rewrite Hext in Hext0. injection Hext0 as <-.
  apply setSoleIP_ok in Hset as (_ & _ & Hafter).
  rewrite Hafter in Hsole, Hvalid. simpl in *. auto.
Qed.

(** The family of an explicit entry at the end of a build. *)
Lemma explicit_entry_kept ips mapper m entry ext loc extIP locIP :
  addMappingEntries ParseIP IPString mapper ips = Ok m ->
  entry ∈ ips -> Split entry = [ext; loc] ->
  ParseIP ext = Some extIP -> ParseIP loc = Some locIP ->
  isIPv4 locIP = isIPv4 extIP
  /\ ipMap (familyOf m extIP) !! IPString locIP = Some extIP
  /\ valid (familyOf m extIP) = true.
Proof.
  intros Hbuild Hin Hsplit Hext Hloc.
  destruct (addMappingEntries_member _ _ _ _ Hbuild Hin) as (before & after & Hentry & Hkept).
  destruct (Hkept extIP) as (_ & Hmap & Hvalid).
  apply addMappingEntry_ok in Hentry
    as (_ & [ (ext0 & extIP0 & Hsplit0 & _)
            | (ext0 & loc0 & extIP0 & locIP0 & Hsplit0 & Hext0 & Hloc0 & Hfam & Hadd & _) ]);
    rewrite Hsplit in Hsplit0; [ discriminate | ].
  injection Hsplit0 as <- <-. rewrite Hext in Hext0. rewrite Hloc in Hloc0.
  injection Hext0 as <-. injection Hloc0 as <-.
  apply addIPMapping_ok in Hadd as (_ & _ & Hafter).
  rewrite Hafter in Hmap, Hvalid. simpl in *.
  split; [ done | ]. split; [ | auto ].
  apply Hmap. apply lookup_insert_eq.
Qed.

(** X1.  A list that gives one family both a sole external IP and an
    explicit mapping is rejected, wherever the two entries stand. *)
Theorem newExternalIPMapper_rejects_mixing ct ips sole explicit ext ext' loc
    extIP extIP' locIP :
  sole ∈ ips -> Split sole = [ext] -> ParseIP ext = Some extIP ->
  explicit ∈ ips -> Split explicit = [ext'; loc] ->
  ParseIP ext' = Some extIP' -> ParseIP loc = Some locIP ->
  isIPv4 extIP = isIPv4 extIP' ->
  exists e, newExternalIPMapper ParseIP IPString ct ips = Err e.
Proof.
  intros Hsole Hs1 Hp1 Hexpl Hs2 Hp2 Hp3 Hfam.
  destruct (newExternalIPMapper ParseIP IPString ct ips) as [ [ m | ] | e ] eqn:Hnew;
    [ | | by exists e ].
  - exfalso.
    pose proof (newExternalIPMapper_exclusive _ _ _ extIP Hnew) as Hexcl.
    apply newExternalIPMapper_ok in Hnew as (_ & _ & Hbuild).
    destruct (sole_entry_kept _ _ _ _ _ _ Hbuild Hsole Hs1 Hp1) as [Hkept _].
    destruct (explicit_entry_kept _ _ _ _ _ _ _ _ Hbuild Hexpl Hs2 Hp2 Hp3)
      as (_ & Hmap & _).
    rewrite <- (familyOf_same m extIP extIP' Hfam) in Hmap.
    destruct Hexcl as [ Hnone | Hempty ]; [ congruence | ].
    rewrite Hempty, lookup_empty in Hmap. discriminate.
  - exfalso. apply newExternalIPMapper_none in Hnew as ->.
    by apply elem_of_nil in Hsole.
Qed.

(** X2.  When the list holds a sole external IP for a family and the
    mapper could be built, the lookup of every local address of that family
    returns that IP. *)
Theorem findExternalIP_sole ct ips m entry ext extIP localIPStr locIP :
  newExternalIPMapper ParseIP IPString ct ips = Ok (Some m) ->
  entry ∈ ips -> Split entry = [ext] -> ParseIP ext = Some extIP ->
  ParseIP localIPStr = Some locIP -> isIPv4 locIP = isIPv4 extIP ->
  findExternalIP ParseIP IPString m localIPStr = Ok extIP.
Proof.
  intros (_ & _ & Hbuild)%newExternalIPMapper_ok Hin Hsplit Hext Hloc Hfam.
  destruct (sole_entry_kept _ _ _ _ _ _ Hbuild Hin Hsplit Hext) as [Hsole Hvalid].
  rewrite (findExternalIP_family _ _ _ _ _ Hloc), (familyOf_same m locIP extIP Hfam).
  unfold ipMapping_findExternalIP. by rewrite Hvalid, Hsole.
Qed.

(** X3.  When the list holds the explicit mapping [ext/loc] and the mapper
    could be built, the lookup of [loc] returns the external IP of the
    entry. *)
Theorem findExternalIP_explicit ct ips m entry ext loc extIP locIP :
  newExternalIPMapper ParseIP IPString ct ips = Ok (Some m) ->
  entry ∈ ips -> Split entry = [ext; loc] ->
  ParseIP ext = Some extIP -> ParseIP loc = Some locIP ->
  findExternalIP ParseIP IPString m loc = Ok extIP.
Proof.
  intros Hnew Hin Hsplit Hext Hloc.
  pose proof (newExternalIPMapper_exclusive _ _ _ extIP Hnew) as Hexcl.
  apply newExternalIPMapper_ok in Hnew as (_ & _ & Hbuild).
  destruct (explicit_entry_kept _ _ _ _ _ _ _ _ Hbuild Hin Hsplit Hext Hloc)
    as (Hfam & Hmap & Hvalid).
  rewrite (findExternalIP_family _ _ _ _ _ Hloc), (familyOf_same m locIP extIP Hfam).
  unfold ipMapping_findExternalIP. rewrite Hvalid, Hmap. simpl.
  destruct Hexcl as [ -> | Hempty ]; [ done | ].
  rewrite Hempty, lookup_empty in Hmap. discriminate.
Qed.

(** X4.  Two explicit mappings for the same local IP, of the same family,
    are rejected, whatever stands before, between and after them. *)
Theorem newExternalIPMapper_rejects_duplicate_local ct l1 l2 l3 entry entry'
    ext loc ext' loc' extIP locIP extIP' locIP' :
  Split entry = [ext; loc] -> ParseIP ext = Some extIP -> ParseIP loc = Some locIP ->
  Split entry' = [ext'; loc'] -> ParseIP ext' = Some extIP' -> ParseIP loc' = Some locIP' ->
  isIPv4 extIP = isIPv4 extIP' ->
  IPString locIP = IPString locIP' ->
  exists e, newExternalIPMapper ParseIP IPString ct (l1 ++ entry :: l2 ++ entry' :: l3)
            = Err e.
Proof.
  intros Hs1 Hp1 Hq1 Hs2 Hp2 Hq2 Hfam Hkey.
  destruct (newExternalIPMapper _ _ ct _) as [ [ m | ] | e ] eqn:Hnew; [ | | by exists e ].
  - exfalso. apply newExternalIPMapper_ok in Hnew as (_ & _ & Hbuild).
    replace (l1 ++ entry :: l2 ++ entry' :: l3)
      with ((l1 ++ entry :: l2) ++ entry' :: l3) in Hbuild
      by (by rewrite <- app_assoc).
    apply addMappingEntries_app in Hbuild as (before & Hfirst & Hrest).
    assert (entry ∈ l1 ++ entry :: l2) as Hin
      by (apply elem_of_app; right; by left).
    destruct (explicit_entry_kept _ _ _ _ _ _ _ _ Hfirst Hin Hs1 Hp1 Hq1)
      as (_ & Hmap & _).
    simpl in Hrest.
    destruct (addMappingEntry _ _ before entry') as [ after | ] eqn:Hentry; simpl in Hrest;
      [ | discriminate ].
    apply addMappingEntry_ok in Hentry
      as (_ & [ (ext0 & extIP0 & Hsplit0 & _)
              | (ext0 & loc0 & extIP0 & locIP0 & Hsplit0 & Hext0 & Hloc0 & _ & Hadd & _) ]);
      rewrite Hs2 in Hsplit0; [ discriminate | ].
    injection Hsplit0 as <- <-. rewrite Hp2 in Hext0. rewrite Hq2 in Hloc0.
    injection Hext0 as <-. injection Hloc0 as <-.
    apply addIPMapping_ok in Hadd as (_ & Hfree & _).
    rewrite <- (familyOf_same before extIP extIP' Hfam), <- Hkey in Hfree. congruence.
  - exfalso. apply newExternalIPMapper_none in Hnew. by destruct l1.
Qed.

(** X5.  A mapper is built only from well-formed entries and for a
    supported candidate type: every entry is one address, or two addresses
    of one family separated by one slash, all of which parse; the candidate
    type of the mapper is the one asked for, host standing for unspecified,
    and is host or server reflexive.  No mapper at all is built from the
    empty list, and only from it. *)
Theorem newExternalIPMapper_validates ct ips :
  (newExternalIPMapper ParseIP IPString ct ips = Ok None <-> ips = [])
  /\ forall m, newExternalIPMapper ParseIP IPString ct ips = Ok (Some m) ->
      (candidateType m = CandidateTypeHost
       /\ (ct = CandidateTypeUnspecified \/ ct = CandidateTypeHost)
       \/ candidateType m = CandidateTypeServerReflexive
          /\ ct = CandidateTypeServerReflexive)
      /\ forall entry, entry ∈ ips ->
          (exists ext extIP, Split entry = [ext] /\ ParseIP ext = Some extIP)
          \/ (exists ext loc extIP locIP,
                 Split entry = [ext; loc]
                 /\ ParseIP ext = Some extIP /\ ParseIP loc = Some locIP
                 /\ isIPv4 locIP = isIPv4 extIP).
Proof.
  split.
  - split; [ apply newExternalIPMapper_none | by intros -> ].
  - intros m (_ & Hct & Hbuild)%newExternalIPMapper_ok. split.
    + pose proof (addMappingEntries_extends _ _ _ [] Hbuild) as (_ & _ & Htype).
      simpl in Htype. rewrite Htype.
      destruct Hct as [ -> | [ -> | -> ] ]; simpl; auto.
    + intros entry Hin.
      destruct (addMappingEntries_member _ _ _ _ Hbuild Hin)
        as (before & after & Hentry & _).
      apply addMappingEntry_ok in Hentry
        as (_ & [ (ext & extIP & ? & ? & _)
                | (ext & loc & extIP & locIP & ? & ? & ? & ? & _) ]).
      * left. by exists ext, extIP.
      * right. by exists ext, loc, extIP, locIP.
Qed.

End ExternalIPMapperMore.

(** * Further properties of the agent *)

Section LifecycleFacts.

Context {Sel : Type} `{pairCandidateSelector Sel}.

Implicit Types a : Agent (Sel := Sel).

(** ** Closing *)

Lemma close_effect a :
  doneCh a = false ->
  fst (close a) = None
  /\ doneCh (snd (close a)) = true
  /\ err (snd (close a)) = Some ErrClosed
  /\ started (snd (close a)) = true
  /\ taskLoopDone (snd (close a)) = true
  /\ connectionState (snd (close a)) = ConnectionStateClosed
  /\ localCandidates (snd (close a)) = ∅
  /\ remoteCandidates (snd (close a)) = ∅.
Proof.
  destruct a. unfold close, ok. simpl. intros ->.
  unfold taskLoopShutdown, updateConnectionState, deleteAllCandidates. simpl.
  by repeat case_bool_decide.
Qed.

Lemma ok_closed a :
  doneCh a = true -> err a = Some ErrClosed -> ok a = Some ErrClosed.
Proof. unfold ok, getErr. by intros -> ->. Qed.

(** X6.  [Close] on an open agent succeeds and is final: the agent ends
    Closed with both candidate maps empty; a second [Close] returns nil and
    changes nothing; every operation that goes through the loop is refused
    with [ErrClosed] and leaves the agent as it is, and
    [startConnectivityChecks] is refused with [ErrMultipleStart], the
    shutdown having fired the started signal. *)
Theorem close_is_final a :
  doneCh a = false ->
  let a' := snd (close a) in
  fst (close a) = None
  /\ connectionState a' = ConnectionStateClosed
  /\ localCandidates a' = ∅ /\ remoteCandidates a' = ∅
  /\ close a' = (None, a')
  /\ (forall cancelled c, addCandidate cancelled c a' = (Some ErrClosed, a'))
  /\ (forall c dialed, goAddRemoteCandidate c dialed a' = (Some ErrClosed, a'))
  /\ (forall ufrag pwd,
        ufrag <> ""%string -> pwd <> ""%string ->
        SetRemoteCredentials ufrag pwd a' = (Some ErrClosed, a'))
  /\ (forall ufrag pwd generatedUfrag generatedPwd ufrag' pwd',
        orGenerated ufrag generatedUfrag = Ok ufrag' ->
        orGenerated pwd generatedPwd = Ok pwd' ->
        24 <= runeCount ufrag' * 8 -> 128 <= runeCount pwd' * 8 ->
        Restart ufrag pwd generatedUfrag generatedPwd a' = (Some ErrClosed, a'))
  /\ (forall controlling ufrag pwd,
        startConnectivityChecks controlling ufrag pwd a' = (Some ErrMultipleStart, a'))
  /\ GetLocalCandidates a' = Err ErrClosed
  /\ GetRemoteCandidates a' = Err ErrClosed
  /\ GetLocalUserCredentials a' = (""%string, ""%string, Some ErrClosed)
  /\ GetRemoteUserCredentials a' = (""%string, ""%string, Some ErrClosed).
Proof.
  intros Hopen a'.
  destruct (close_effect a Hopen)
    as (Hres & Hdone & Herr & Hstarted & _ & Hstate & Hloc & Hrem).
  fold a' in Hdone, Herr, Hstarted, Hstate, Hloc, Hrem.
  pose proof (ok_closed a' Hdone Herr) as Hok. clearbody a'.
  repeat split; try done.
  - unfold close. by rewrite Hok.
  - intros cancelled c. unfold addCandidate, runCtx. by rewrite Hok.
  - intros c dialed. unfold goAddRemoteCandidate, run. by rewrite Hok.
  - intros u p Hu Hp. unfold SetRemoteCredentials, run.
    apply String.eqb_neq in Hu, Hp. by rewrite Hu, Hp, Hok.
  - intros ufrag pwd gu gp ufrag' pwd' Hu Hp Hubits Hpbits.
    unfold Restart, run. rewrite Hu, Hp, Hok.
    destruct (Z.ltb_spec (runeCount ufrag' * 8) 24); [ lia | ].
    destruct (Z.ltb_spec (runeCount pwd' * 8) 128); [ lia | done ].
  - intros ic u p. unfold startConnectivityChecks. by rewrite Hstarted.
  - unfold GetLocalCandidates. by rewrite Hok.
  - unfold GetRemoteCandidates. by rewrite Hok.
  - unfold GetLocalUserCredentials. by rewrite Hok.
  - unfold GetRemoteUserCredentials. by rewrite Hok.
Qed.

(** ** Starting the checks *)

Lemma startConnectivityChecksTask_effect controlling ufrag pwd a :
  let a' := startConnectivityChecksTask controlling ufrag pwd a in
  connectionState a' = ConnectionStateChecking
  /\ isControlling a' = controlling
  /\ remoteUfrag a' = ufrag
  /\ remotePwd a' = pwd
  /\ is_Some (selector a')
  /\ started a' = true
  /\ forceCandidateContact a' = true
  /\ doneCh a' = doneCh a.
Proof.
  destruct a.
  unfold startConnectivityChecksTask, updateConnectionState, requestConnectivityCheck.
  simpl. repeat case_bool_decide; simpl; repeat split; eauto.
Qed.

(** X7.  When [startConnectivityChecks] succeeds, the agent is Checking in
    the role asked for, holds the remote credentials and a started
    selector, and has asked for an immediate check; the agent was open and
    not started, the credentials are not empty, and any further
    [startConnectivityChecks] is refused with [ErrMultipleStart] and
    changes nothing. *)
Theorem startConnectivityChecks_once controlling ufrag pwd a a1 :
  startConnectivityChecks controlling ufrag pwd a = (None, a1) ->
  (started a = false /\ doneCh a = false /\ ufrag <> ""%string /\ pwd <> ""%string)
  /\ connectionState a1 = ConnectionStateChecking
  /\ isControlling a1 = controlling
  /\ remoteUfrag a1 = ufrag
  /\ remotePwd a1 = pwd
  /\ is_Some (selector a1)
  /\ forceCandidateContact a1 = true
  /\ forall controlling' ufrag' pwd',
       startConnectivityChecks controlling' ufrag' pwd' a1 = (Some ErrMultipleStart, a1).
Proof.
  unfold startConnectivityChecks.
  destruct (started a) eqn:Hstarted; [ discriminate | ].
  unfold SetRemoteCredentials.
  destruct (String.eqb_spec ufrag ""); [ discriminate | ].
  destruct (String.eqb_spec pwd ""); [ discriminate | ].
  unfold run, ok.
  destruct (doneCh a) eqn:Hopen; [ discriminate | ].
  cbn [doneCh set_remotePwd set_remoteUfrag]. rewrite Hopen. intros [= <-].
  destruct (startConnectivityChecksTask_effect controlling ufrag pwd
              (set_remotePwd pwd (set_remoteUfrag ufrag a)))
    as (Hstate & Hrole & Hu & Hp & Hsel & Hst & Hforce & _).
  repeat split; try done.
  intros ic' u' p'. by rewrite Hst.
Qed.

(** ** Remote credentials *)

(** X8.  [SetRemoteCredentials] refuses an empty ufrag with
    [ErrRemoteUfragEmpty] and then an empty pwd with [ErrRemotePwdEmpty],
    before it looks at the agent, and refuses on a closed agent with the
    agent's closing error; in all three cases nothing changes.  Otherwise it
    succeeds, [GetRemoteUserCredentials] returns what was stored, and the
    local credentials are untouched. *)
Theorem SetRemoteCredentials_stores ufrag pwd a :
  (ufrag = ""%string ->
     SetRemoteCredentials ufrag pwd a = (Some ErrRemoteUfragEmpty, a))
  /\ (ufrag <> ""%string -> pwd = ""%string ->
        SetRemoteCredentials ufrag pwd a = (Some ErrRemotePwdEmpty, a))
  /\ (ufrag <> ""%string -> pwd <> ""%string -> doneCh a = true ->
        SetRemoteCredentials ufrag pwd a = (Some (getErr a), a))
  /\ (ufrag <> ""%string -> pwd <> ""%string -> doneCh a = false ->
        let a' := snd (SetRemoteCredentials ufrag pwd a) in
        fst (SetRemoteCredentials ufrag pwd a) = None
        /\ GetRemoteUserCredentials a' = (ufrag, pwd, None)
        /\ GetLocalUserCredentials a' = GetLocalUserCredentials a).
Proof.
  unfold SetRemoteCredentials, run, ok, GetRemoteUserCredentials, GetLocalUserCredentials.
  split; [ | split; [ | split ] ].
  - by intros ->.
  - intros Hu%String.eqb_neq ->. by rewrite Hu.
  - intros Hu%String.eqb_neq Hp%String.eqb_neq ->. by rewrite Hu, Hp.
  - intros Hu%String.eqb_neq Hp%String.eqb_neq Hopen. rewrite Hu, Hp, Hopen.
    unfold ok. cbn [fst snd doneCh set_remotePwd set_remoteUfrag]. rewrite Hopen.
    by destruct a.
Qed.

(** ** Connection state *)

(** X9.  A transition to Failed from another state releases the session:
    the checklist and the pending binding requests are emptied, the
    selected pair is unset, both candidate maps are emptied, and one Failed
    event is queued. *)
Theorem updateConnectionState_failed_releases a :
  connectionState a <> ConnectionStateFailed ->
  let a' := updateConnectionState ConnectionStateFailed a in
  connectionState a' = ConnectionStateFailed
  /\ checklist a' = [] /\ pendingBindingRequests a' = []
  /\ selectedPair a' = None /\ getSelectedPair a' = None
  /\ localCandidates a' = ∅ /\ remoteCandidates a' = ∅
  /\ connectionStateEvents a' = connectionStateEvents a ++ [ConnectionStateFailed].
Proof.
  intros Hstate. unfold updateConnectionState.
  rewrite (bool_decide_eq_true_2 _ Hstate).
  rewrite (bool_decide_eq_true_2 (ConnectionStateFailed = ConnectionStateFailed)) by done.
  destruct a. unfold getSelectedPair, deleteAllCandidates. simpl. done.
Qed.

(** X10.  Updating to the state the agent is in does nothing, so updating
    twice to one state is updating once: a state is announced to the
    notifier only when it changes, and a transition to any state other than
    Failed touches nothing but the state and the event queue. *)
Theorem updateConnectionState_once newState a :
  (connectionState a = newState -> updateConnectionState newState a = a)
  /\ updateConnectionState newState (updateConnectionState newState a)
     = updateConnectionState newState a
  /\ (connectionState a <> newState ->
      connectionStateEvents (updateConnectionState newState a)
      = connectionStateEvents a ++ [newState])
  /\ (newState <> ConnectionStateFailed ->
      set_connectionStateEvents (connectionStateEvents a)
        (set_connectionState (connectionState a) (updateConnectionState newState a))
      = a).
Proof.
  split; [ | split; [ | split ] ].
  - intros Hsame. unfold updateConnectionState. by rewrite bool_decide_eq_false_2 by tauto.
  - unfold updateConnectionState at 1.
    rewrite updateConnectionState_state. by rewrite bool_decide_eq_false_2 by tauto.
  - intros Hne. unfold updateConnectionState.
    rewrite (bool_decide_eq_true_2 _ Hne).
    case_bool_decide; destruct a; unfold deleteAllCandidates; simpl; done.
  - intros Hnf. unfold updateConnectionState.
    rewrite (bool_decide_eq_false_2 _ Hnf). case_bool_decide; by destruct a.
Qed.

(** ** The selected pair *)

Lemma updateConnectionState_other newState a :
  newState <> ConnectionStateFailed ->
  checklist (updateConnectionState newState a) = checklist a
  /\ selectedPair (updateConnectionState newState a) = selectedPair a
  /\ pairs (updateConnectionState newState a) = pairs a
  /\ localCandidates (updateConnectionState newState a) = localCandidates a
  /\ remoteCandidates (updateConnectionState newState a) = remoteCandidates a
  /\ pendingBindingRequests (updateConnectionState newState a) = pendingBindingRequests a.
Proof.
  intros Hnf. unfold updateConnectionState.
  rewrite (bool_decide_eq_false_2 _ Hnf). case_bool_decide; by destruct a.
Qed.

(** X11.  With [failedTimeout = 0], [validateSelectedPair] never moves the
    agent to Failed, however long the remote candidate has been silent: the
    state becomes Disconnected or Connected (Connected when
    [disconnectedTimeout] is 0 as well), and the checklist, the candidates
    and the selected pair stay. *)
Theorem validateSelectedPair_without_failedTimeout now a p :
  getSelectedPair a = Some p ->
  failedTimeout a = 0 ->
  let a' := snd (validateSelectedPair now a) in
  (connectionState a' = ConnectionStateDisconnected
   \/ connectionState a' = ConnectionStateConnected)
  /\ (disconnectedTimeout a = 0 -> connectionState a' = ConnectionStateConnected)
  /\ checklist a' = checklist a /\ selectedPair a' = selectedPair a
  /\ localCandidates a' = localCandidates a
  /\ remoteCandidates a' = remoteCandidates a.
Proof.
  intros Hsel Hft a'.
  pose proof (validateSelectedPair_machine now a p Hsel) as Hstate.
  cbv zeta in Hstate. fold a' in Hstate.
  rewrite bool_decide_eq_false_2 in Hstate by (rewrite Hft; tauto).
  assert (exists s, s <> ConnectionStateFailed /\ a' = updateConnectionState s a)
    as (s & Hs & Ha').
  { subst a'. unfold validateSelectedPair. rewrite Hsel, Hft. cbv zeta.
    rewrite (bool_decide_eq_false_2 (0 <> 0)) by tauto. cbv iota.
    rewrite (bool_decide_eq_false_2 (0 <> 0)) by tauto. cbn [andb].
    destruct (_ && _); cbn [snd]; eexists; (split; [ | reflexivity ]); discriminate. }
  destruct (updateConnectionState_other s a Hs) as (Hc & Hsp & _ & Hl & Hr & _).
  rewrite Hstate. rewrite Ha', Hc, Hsp, Hl, Hr.
  split; [ case_bool_decide; auto | ].
  split; [ | done ].
  intros Hdt. rewrite bool_decide_eq_false_2; [ done | tauto ].
Qed.

(** X12.  Selecting a pair marks that pair, and no other, nominated, makes
    it the selected pair, moves the agent to Connected, queues one
    selected-pair event and closes the connected signal; the checklist is
    untouched. *)
Theorem setSelectedPair_nominates l p a :
  pairs a !! l = Some p ->
  let a' := setSelectedPair (Some l) a in
  getSelectedPair a' = Some (nominate p)
  /\ nominated (nominate p) = true
  /\ Local (nominate p) = Local p /\ Remote (nominate p) = Remote p
  /\ (forall l', l' <> l -> pairs a' !! l' = pairs a !! l')
  /\ connectionState a' = ConnectionStateConnected
  /\ onConnected a' = true
  /\ selectedPairEvents a' = selectedPairEvents a ++ [l]
  /\ checklist a' = checklist a.
Proof.
  intros Hp. destruct a.
  unfold setSelectedPair, getSelectedPair, updateConnectionState. simpl in *.
  repeat case_bool_decide; simpl; try discriminate;
    rewrite lookup_alter_eq, Hp; simpl; repeat split; try done;
    intros l' Hne; by rewrite lookup_alter_ne.
Qed.

End LifecycleFacts.

Section CacheFacts.

Context {Sel : Type} `{pairCandidateSelector Sel}.
Variable maxBindingRequestTimeout : time.Duration.

Implicit Types a : Agent (Sel := Sel).

Local Abbreviation invalidate := (invalidatePendingBindingRequests maxBindingRequestTimeout).
Local Abbreviation young filterTime :=
  (fun r => time.Sub filterTime (timestamp r) <? maxBindingRequestTimeout).

Lemma filter_sublist {A : Type} (f : A -> bool) (xs : list A) :
  sublist (List.filter f xs) xs.
Proof.
  induction xs as [ | x xs IH ]; simpl; [ constructor | ].
  destruct (f x); by constructor.
Qed.

Lemma filter_idemp {A : Type} (f : A -> bool) (xs : list A) :
  List.filter f (List.filter f xs) = List.filter f xs.
Proof.
  induction xs as [ | x xs IH ]; simpl; [ done | ].
  destruct (f x) eqn:Hf; simpl; rewrite ?Hf, IH; done.
Qed.

Lemma invalidate_pending filterTime a :
  pendingBindingRequests (invalidate filterTime a)
  = List.filter (young filterTime) (pendingBindingRequests a).
Proof. by destruct a. Qed.

Lemma elem_of_invalidate filterTime a r :
  r ∈ pendingBindingRequests (invalidate filterTime a)
  <-> r ∈ pendingBindingRequests a
      /\ time.Sub filterTime (timestamp r) < maxBindingRequestTimeout.
Proof.
  rewrite invalidate_pending, list_elem_of_In, List.filter_In, <- list_elem_of_In.
  by rewrite Z.ltb_lt.
Qed.

(** X13.  [invalidatePendingBindingRequests] keeps exactly the records
    younger than [maxBindingRequestTimeout] at the filter time, in their
    order; nothing else of the agent changes, and a second pass at the same
    time removes nothing more. *)
Theorem invalidatePendingBindingRequests_window filterTime a :
  let a' := invalidate filterTime a in
  (forall r, r ∈ pendingBindingRequests a'
             <-> r ∈ pendingBindingRequests a
                 /\ time.Sub filterTime (timestamp r) < maxBindingRequestTimeout)
  /\ sublist (pendingBindingRequests a') (pendingBindingRequests a)
  /\ invalidate filterTime a' = a'
  /\ set_pendingBindingRequests (pendingBindingRequests a) a' = a.
Proof.
  split; [ | split; [ | split ] ].
  - intros r. apply elem_of_invalidate.
  - rewrite invalidate_pending. apply filter_sublist.
  - destruct a. unfold invalidatePendingBindingRequests. simpl. by rewrite filter_idemp.
  - by destruct a.
Qed.

(** X14.  [handleInboundBindingSuccess] first drops the expired records.
    If no remaining record carries the transaction id, it reports no match
    and leaves the pruned cache; otherwise it returns the oldest remaining
    record with that id, which is inside the window, with its round-trip
    time, and removes that one record only. *)
Theorem handleInboundBindingSuccess_oldest id now1 now2 a :
  let kept := pendingBindingRequests (invalidate now1 a) in
  let answered := handleInboundBindingSuccess maxBindingRequestTimeout id now1 now2 a in
  ((forall r, r ∈ kept -> transactionID r <> id)
   /\ answered = ((false, None, 0), invalidate now1 a))
  \/ exists i r,
       kept !! i = Some r /\ transactionID r = id
       /\ (forall j r', (j < i)%nat -> kept !! j = Some r' -> transactionID r' <> id)
       /\ r ∈ pendingBindingRequests a
       /\ time.Sub now1 (timestamp r) < maxBindingRequestTimeout
       /\ answered = ((true, Some r, time.Since now2 (timestamp r)),
                      set_pendingBindingRequests (delete i kept) (invalidate now1 a))
       /\ length (pendingBindingRequests (snd answered)) = (length kept - 1)%nat.
Proof.
  intros kept answered. subst answered. unfold handleInboundBindingSuccess. cbv zeta.
  fold kept.
  destruct (list_find (fun r => transactionID r = id) kept) as [ [i r] | ] eqn:Hfind.
  - right. exists i, r.
    apply list_find_Some in Hfind as (Hi & Hid & Hfirst).
    assert (r ∈ kept) as Hr by by eapply list_elem_of_lookup_2.
    apply elem_of_invalidate in Hr as (Hr & Hyoung).
    repeat split; try done.
    + intros j r' Hj Hr'. by eapply Hfirst.
    + cbn [snd pendingBindingRequests set_pendingBindingRequests].
      rewrite length_delete; [ done | ]. by eexists.
  - left. split; [ | done ].
    apply list_find_None in Hfind. rewrite Forall_forall in Hfind.
    intros r Hr. apply Hfind. by apply list_elem_of_In.
Qed.

End CacheFacts.

Section PairFacts.

Context {Sel : Type} `{pairCandidateSelector Sel}.
Variable priority : CandidatePair -> Z.

Implicit Types a : Agent (Sel := Sel).

(** ** Finding a pair *)

Lemma addPair_effect local remote a :
  let l := fresh (dom (pairs a)) in
  fst (addPair local remote a) = l
  /\ pairs a !! l = None
  /\ pairs (snd (addPair local remote a))
     = <[ l := newCandidatePair local remote (isControlling a) ]> (pairs a)
  /\ checklist (snd (addPair local remote a)) = checklist a ++ [l]
  /\ isControlling (snd (addPair local remote a)) = isControlling a.
Proof.
  intros l. unfold addPair. cbn. repeat split; try done.
  apply not_elem_of_dom, is_fresh.
Qed.

(** X15.  After [addPair(local, remote)], [findPair(local, remote)] finds
    a pair of the checklist whose endpoints are equal to the two
    candidates; when no such pair was in the checklist before, it is the
    pair that [addPair] returned. *)
Theorem findPair_after_addPair local remote a :
  let l := fst (addPair local remote a) in
  let a' := snd (addPair local remote a) in
  (exists l' p, findPair local remote a' = Some l'
                /\ l' ∈ checklist a' /\ pairs a' !! l' = Some p
                /\ Equal (Local p) local = true /\ Equal (Remote p) remote = true)
  /\ (findPair local remote a = None -> findPair local remote a' = Some l).
Proof.
  intros l a'.
  destruct (addPair_effect local remote a) as (Hl & Hfresh & Hpairs & Hcheck & _).
  fold l in Hl. fold a' in Hpairs, Hcheck. rewrite Hl in *. clear Hl. subst l.
  set (l := fresh (dom (pairs a))) in *.
  set (matches := fun (a : Agent (Sel := Sel)) (l : nat) =>
         match pairs a !! l with
         | Some p => Equal (Local p) local && Equal (Remote p) remote
         | None => false
         end).
  assert (matches a' l = true) as Hnew.
  { unfold matches. rewrite Hpairs, lookup_insert_eq. cbn. by rewrite !Equal_refl. }
  split.
  - destruct (findPair local remote a') as [ l' | ] eqn:Hfind.
    + unfold findPair in Hfind. apply List.find_some in Hfind as (Hin & Hm).
      destruct (pairs a' !! l') as [ p | ] eqn:Hp; [ | discriminate ].
      apply andb_true_iff in Hm as (HL & HR).
      exists l', p. repeat split; try done. by apply list_elem_of_In.
    + exfalso. change (List.find (matches a') (checklist a') = None) in Hfind.
      pose proof (List.find_none (matches a') _ Hfind l) as Hno.
      rewrite Hnew in Hno.
      enough (true = false) by discriminate. apply Hno.
      rewrite Hcheck. apply List.in_or_app. right. by left.
  - change (List.find (matches a) (checklist a) = None
            -> List.find (matches a') (checklist a') = Some l).
    rewrite Hcheck. generalize (checklist a). intros ls Hnone.
    induction ls as [ | l0 ls IH ]; cbn [app List.find].
    + by rewrite Hnew.
    + cbn [List.find] in Hnone.
      destruct (matches a l0) eqn:Hm0; [ discriminate | ].
      destruct (decide (l0 = l)) as [ -> | Hne ]; [ by rewrite Hnew | ].
      assert (matches a' l0 = false) as ->; [ | by apply IH ].
      unfold matches in *. by rewrite Hpairs, lookup_insert_ne.
Qed.

(** ** The best pair *)

Lemma betterPair_fold (skip : CandidatePair -> bool) a ls : forall best,
  (forall b, best = Some b -> exists pb, pairs a !! b = Some pb /\ skip pb = false) ->
  match foldl (betterPair priority skip a) best ls with
  | None =>
      best = None
      /\ forall l p, l ∈ ls -> pairs a !! l = Some p -> skip p = true
  | Some r =>
      exists pr, pairs a !! r = Some pr /\ skip pr = false
        /\ (best = Some r \/ r ∈ ls)
        /\ (forall b pb, best = Some b -> pairs a !! b = Some pb ->
                         priority pb <= priority pr)
        /\ (forall l p, l ∈ ls -> pairs a !! l = Some p -> skip p = false ->
                        priority p <= priority pr)
  end.
Proof.
  induction ls as [ | l ls IH ]; intros best Hbest; cbn [foldl].
  - destruct best as [ b | ].
    + destruct (Hbest b eq_refl) as (pb & Hpb & Hskip). exists pb.
      repeat split; try done; auto.
      * intros b' pb' [= <-] Hpb'. rewrite Hpb in Hpb'. injection Hpb' as <-. lia.
      * intros l p Hl. by apply elem_of_nil in Hl.
    + split; [ done | ]. intros l p Hl. by apply elem_of_nil in Hl.
  - set (best' := betterPair priority skip a best l).
    assert (forall b, best' = Some b ->
                      exists pb, pairs a !! b = Some pb /\ skip pb = false) as Hbest'.
    { subst best'. unfold betterPair. intros b.
      destruct (pairs a !! l) as [ p | ] eqn:Hp; [ | apply Hbest ].
      destruct (skip p) eqn:Hskip; [ apply Hbest | ].
      destruct best as [ b0 | ].
      - destruct (Hbest b0 eq_refl) as (pb0 & Hpb0 & Hskip0). rewrite Hpb0.
        destruct (priority pb0 <? priority p); intros [= <-]; eauto.
      - intros [= <-]. eauto. }
    specialize (IH best' Hbest').
    destruct (foldl (betterPair priority skip a) best' ls) as [ r | ].
    + destruct IH as (pr & Hpr & Hskipr & Hwhere & Hge' & Hge).
      exists pr. split; [ done | ]. split; [ done | ].
      subst best'. unfold betterPair in Hwhere, Hge'.
      destruct (pairs a !! l) as [ p | ] eqn:Hp.
      * destruct (skip p) eqn:Hskip.
        -- split; [ | split ].
           ++ destruct Hwhere; [ by left | right; by right ].
           ++ done.
           ++ intros l' p' [ -> | Hl' ]%elem_of_cons Hp' Hs'; [ congruence | eauto ].
        -- destruct best as [ b0 | ].
           ++ destruct (Hbest b0 eq_refl) as (pb0 & Hpb0 & Hskip0).
              rewrite Hpb0 in Hwhere, Hge'.
              destruct (Z.ltb_spec (priority pb0) (priority p)).
              ** split; [ | split ].
                 --- destruct Hwhere as [ [= <-] | ? ]; right; [ by left | by right ].
                 --- intros b pb [= <-] Hpb. rewrite Hpb0 in Hpb. injection Hpb as <-.
                     specialize (Hge' l p eq_refl Hp). lia.
                 --- intros l' p' [ -> | Hl' ]%elem_of_cons Hp' Hs'; [ | eauto ].
                     rewrite Hp in Hp'. injection Hp' as <-. by apply (Hge' l).
              ** split; [ | split ].
                 --- destruct Hwhere; [ by left | right; by right ].
                 --- done.
                 --- intros l' p' [ -> | Hl' ]%elem_of_cons Hp' Hs'; [ | eauto ].
                     rewrite Hp in Hp'. injection Hp' as <-.
                     specialize (Hge' b0 pb0 eq_refl Hpb0). lia.
           ++ split; [ | split ].
              ** destruct Hwhere as [ [= <-] | ? ]; right; [ by left | by right ].
              ** done.
              ** intros l' p' [ -> | Hl' ]%elem_of_cons Hp' Hs'; [ | eauto ].
                 rewrite Hp in Hp'. injection Hp' as <-. by apply (Hge' l).
      * split; [ | split ].
        -- destruct Hwhere; [ by left | right; by right ].
        -- done.
        -- intros l' p' [ -> | Hl' ]%elem_of_cons Hp' Hs'; [ congruence | eauto ].
    + destruct IH as (Hnone & Hall). subst best'. unfold betterPair in Hnone.
      destruct (pairs a !! l) as [ p | ] eqn:Hp.
      * destruct (skip p) eqn:Hskip.
        -- split; [ done | ].
           intros l' p' [ -> | Hl' ]%elem_of_cons Hp'; [ congruence | eauto ].
        -- destruct best as [ b0 | ]; [ | discriminate ].
           destruct (pairs a !! b0); [ | discriminate ].
           destruct (_ <? _); discriminate.
      * split; [ done | ].
        intros l' p' [ -> | Hl' ]%elem_of_cons Hp'; [ congruence | eauto ].
Qed.

Lemma betterPair_best (skip : CandidatePair -> bool) a :
  bestAmong priority (fun p => negb (skip p)) a
    (foldl (betterPair priority skip a) None (checklist a)).
Proof.
  pose proof (betterPair_fold skip a (checklist a) None) as Hfold.
  unfold bestAmong.
  destruct (foldl _ None (checklist a)) as [ r | ].
  - destruct Hfold as (pr & Hpr & Hskip & Hwhere & _ & Hge); [ done | ].
    destruct Hwhere as [ | Hin ]; [ done | ]. split; [ done | ].
    exists pr. rewrite Hskip. repeat split; try done.
    intros l p Hl Hp Hs. apply (Hge l p Hl Hp). by destruct (skip p).
  - destruct Hfold as (_ & Hall); [ done | ].
    intros l p Hl Hp. by rewrite (Hall l p Hl Hp).
Qed.

(** X16.  [getBestAvailableCandidatePair] returns nil exactly when every
    pair of the checklist is Failed, and otherwise a pair of the checklist
    that is not Failed and whose priority no other such pair exceeds;
    [getBestValidCandidatePair] does the same among the Succeeded pairs.
    Hence where there is a best valid pair there is a best available pair,
    of at least its priority. *)
Theorem getBest_highest_priority a :
  bestAmong priority (fun p => negb (isFailed p)) a
    (getBestAvailableCandidatePair priority a)
  /\ bestAmong priority isSucceeded a (getBestValidCandidatePair priority a)
  /\ forall v pv,
       getBestValidCandidatePair priority a = Some v -> pairs a !! v = Some pv ->
       exists b pb, getBestAvailableCandidatePair priority a = Some b
                    /\ pairs a !! b = Some pb /\ priority pv <= priority pb.
Proof.
  assert (bestAmong priority (fun p => negb (isFailed p)) a
            (getBestAvailableCandidatePair priority a)) as Havail
    by apply betterPair_best.
  assert (bestAmong priority isSucceeded a (getBestValidCandidatePair priority a))
    as Hvalid.
  { pose proof (betterPair_best (fun p => negb (isSucceeded p)) a) as Hbest.
    unfold getBestValidCandidatePair, bestAmong in *.
    destruct (foldl _ None (checklist a)) as [ r | ].
    - destruct Hbest as (Hin & pr & Hpr & Hs & Hge). split; [ done | ].
      exists pr. rewrite negb_involutive in Hs. repeat split; try done.
      intros l p Hl Hp Hsp. apply (Hge l p Hl Hp). by rewrite Hsp.
    - intros l p Hl Hp. specialize (Hbest l p Hl Hp).
      by rewrite negb_involutive in Hbest. }
  split; [ done | ]. split; [ done | ].
  intros v pv Hv Hpv. rewrite Hv in Hvalid.
  destruct Hvalid as (Hin & pv' & Hpv' & Hsucc & _).
  rewrite Hpv in Hpv'. injection Hpv' as <-.
  assert (negb (isFailed pv) = true) as Hnf.
  { unfold isSucceeded, isFailed in *. by destruct (state pv). }
  destruct (getBestAvailableCandidatePair priority a) as [ b | ].
  - destruct Havail as (_ & pb & Hpb & _ & Hge). exists b, pb. eauto.
  - specialize (Havail v pv Hin Hpv). rewrite Havail in Hnf. discriminate.
Qed.

End PairFacts.

Section CandidateSetFacts.

Context {Sel : Type} `{pairCandidateSelector Sel}.

Implicit Types a : Agent (Sel := Sel).

(** ** Pairing a new candidate *)

Lemma addPairs_extends (L R : Candidate -> Candidate) xs : forall a,
  extendsChecklist a (foldl (fun a x => snd (addPair (L x) (R x) a)) a xs)
    (fun x => newCandidatePair (L x) (R x) (isControlling a)) xs.
Proof.
  induction xs as [ | x xs IH ]; intros a; cbn [foldl].
  - exists []. rewrite app_nil_r. repeat split; try done; try constructor.
    intros l Hl. by apply elem_of_nil in Hl.
  - destruct (addPair_effect (L x) (R x) a) as (_ & Hfresh & Hpairs & Hcheck & Hrole).
    set (l0 := fresh (dom (pairs a))) in *.
    set (a1 := snd (addPair (L x) (R x) a)) in *.
    destruct (IH a1) as (new & Hchk & Hnodup & Hnone & Hall & Hkeep).
    set (a' := foldl _ a1 xs) in *.
    assert (forall l, l ∈ new -> l <> l0 /\ pairs a !! l = None) as Hnew.
    { intros l Hl. specialize (Hnone l Hl). rewrite Hpairs in Hnone.
      by apply lookup_insert_None in Hnone as (? & ?). }
    exists (l0 :: new). split; [ | split; [ | split; [ | split ] ] ].
    + by rewrite Hchk, Hcheck, <- app_assoc.
    + constructor; [ | done ]. intros Hin. by destruct (Hnew l0 Hin).
    + intros l [ -> | Hl ]%elem_of_cons; [ done | ]. by destruct (Hnew l Hl).
    + constructor.
      * rewrite Hkeep; rewrite Hpairs, lookup_insert_eq; [ done | by eexists ].
      * rewrite Hrole in Hall. exact Hall.
    + intros l Hsome. assert (l <> l0) as Hne.
      { intros ->. rewrite Hfresh in Hsome. by destruct Hsome. }
      rewrite Hkeep; rewrite Hpairs, lookup_insert_ne by done; done.
Qed.

Lemma extendsChecklist_ext a a0 a' a1 mk mk' others :
  checklist a0 = checklist a -> pairs a0 = pairs a ->
  checklist a1 = checklist a' -> pairs a1 = pairs a' ->
  (forall x, mk x = mk' x) ->
  extendsChecklist a a' mk others -> extendsChecklist a0 a1 mk' others.
Proof.
  intros Hc Hp Hc' Hp' Hmk (new & ? & ? & ? & Hall & ?). exists new.
  rewrite Hc, Hp, Hc', Hp'. repeat split; try done.
  clear -Hall Hmk.
  induction Hall as [ | l x new' others' Hlx Hall IH ]; constructor;
    [ by rewrite <- Hmk | done ].
Qed.

Lemma extendsChecklist_nil a a' mk :
  checklist a' = checklist a -> pairs a' = pairs a -> extendsChecklist a a' mk [].
Proof.
  intros Hc Hp. exists []. rewrite Hc, Hp, app_nil_r.
  repeat split; try done; try constructor.
  intros l Hl. by apply elem_of_nil in Hl.
Qed.

(** X17.  A remote candidate that is not known and is not a passive TCP
    candidate is appended to the remote candidates of its network type and
    paired, in order, with every local candidate of that network type: the
    checklist grows by one fresh pair per such local candidate, made under
    the agent's role, the pairs it had are untouched, the local candidates
    stay, and a connectivity check is requested. *)
Theorem addRemoteCandidate_pairs_with_locals c dialed a :
  existsb (fun candidate => Equal candidate c)
          (default [] (remoteCandidates a !! c_NetworkType c)) = false ->
  c_TCPType c <> TCPTypePassive ->
  let a' := addRemoteCandidate c dialed a in
  remoteCandidates a'
  = <[ c_NetworkType c := default [] (remoteCandidates a !! c_NetworkType c) ++ [c] ]>
      (remoteCandidates a)
  /\ localCandidates a' = localCandidates a
  /\ forceCandidateContact a' = true
  /\ extendsChecklist a a'
       (fun localCandidate => newCandidatePair localCandidate c (isControlling a))
       (default [] (localCandidates a !! c_NetworkType c)).
Proof.
  intros Hnew Hactive a'. subst a'. unfold addRemoteCandidate. rewrite Hnew. cbv zeta.
  rewrite (bool_decide_eq_false_2 (c_TCPType c = TCPTypePassive)) by done.
  rewrite andb_false_r.
  rewrite (bool_decide_eq_true_2 (c_TCPType c <> TCPTypePassive)) by done.
  unfold requestConnectivityCheck.
  cbn [localCandidates set_remoteCandidates].
  set (a1 := set_remoteCandidates _ a).
  destruct (localCandidates a !! c_NetworkType c) as [ locals | ]; cbn [default].
  - pose proof (addPairs_extends (fun x => x) (fun _ => c) locals a1) as Hext.
    cbv beta in Hext.
    set (a2 := foldl _ a1 locals) in *.
    assert (remoteCandidates a2 = remoteCandidates a1) as Hr
      by by apply (foldl_preserves remoteCandidates).
    assert (localCandidates a2 = localCandidates a1) as Hl
      by by apply (foldl_preserves localCandidates).
    split; [ exact Hr | ]. split; [ exact Hl | ]. split; [ done | ].
    by apply (extendsChecklist_ext a1 a a2 _ _ _ locals eq_refl eq_refl eq_refl eq_refl
                (fun _ => eq_refl)).
  - repeat split; try done. by apply extendsChecklist_nil.
Qed.

(** X18.  A local candidate equal to a known one of its network type is
    closed and dropped: nothing else of the agent changes.  Otherwise it
    is appended to the local candidates of its network type, announced, and
    paired, in order, with every remote candidate of that network type,
    and a connectivity check is requested. *)
Theorem addCandidateTask_pairs_with_remotes c a :
  let a' := addCandidateTask c a in
  if existsb (fun candidate => Equal candidate c)
             (default [] (localCandidates a !! c_NetworkType c))
  then c_ptr c ∈ closedCandidates a'
       /\ set_closedCandidates (closedCandidates a) a' = a
  else localCandidates a'
       = <[ c_NetworkType c := default [] (localCandidates a !! c_NetworkType c) ++ [c] ]>
           (localCandidates a)
       /\ remoteCandidates a' = remoteCandidates a
       /\ candidateEvents a' = candidateEvents a ++ [c]
       /\ forceCandidateContact a' = true
       /\ extendsChecklist a a'
            (fun remoteCandidate => newCandidatePair c remoteCandidate (isControlling a))
            (default [] (remoteCandidates a !! c_NetworkType c)).
Proof.
  intros a'. subst a'. unfold addCandidateTask.
  destruct (existsb _ _) eqn:Hknown.
  - split; [ | by destruct a ].
    cbn [closedCandidates set_closedCandidates]. set_solver.
  - cbv zeta. unfold requestConnectivityCheck.
    cbn [remoteCandidates set_localCandidates].
    set (a1 := set_localCandidates _ a).
    destruct (remoteCandidates a !! c_NetworkType c) as [ remotes | ]; cbn [default].
    + pose proof (addPairs_extends (fun _ => c) (fun x => x) remotes a1) as Hext.
      cbv beta in Hext.
      set (a2 := foldl _ a1 remotes) in *.
      assert (remoteCandidates a2 = remoteCandidates a1) as Hr
        by by apply (foldl_preserves remoteCandidates).
      assert (localCandidates a2 = localCandidates a1) as Hl
        by by apply (foldl_preserves localCandidates).
      assert (candidateEvents a2 = candidateEvents a1) as He
        by by apply (foldl_preserves candidateEvents).
      split; [ exact Hl | ]. split; [ exact Hr | ].
      split; [ cbn [candidateEvents set_candidateEvents set_forceCandidateContact];
               by rewrite He | ].
      split; [ done | ].
      by apply (extendsChecklist_ext a1 a a2 _ _ _ remotes eq_refl eq_refl eq_refl eq_refl
                  (fun _ => eq_refl)).
    + repeat split; try done. by apply extendsChecklist_nil.
Qed.

End CandidateSetFacts.

Section CandidateLookupFacts.

Context {Sel : Type} `{pairCandidateSelector Sel}.

Implicit Types a : Agent (Sel := Sel).

Lemma Equal_addr c c' : Equal c c' = true -> addr c = addr c'.
Proof.
  unfold Equal, addr. rewrite !andb_true_iff.
  intros (((_ & Haddr%String.eqb_eq) & Hport%Z.eqb_eq) & _). congruence.
Qed.

Lemma default_lookup_elem (m : gmap NetworkType (list Candidate)) t c :
  c ∈ default [] (m !! t) -> inCandidates c m.
Proof.
  destruct (m !! t) as [ cs | ] eqn:Hm; cbn.
  - intros Hc. by exists t, cs.
  - intros Hc. by apply elem_of_nil in Hc.
Qed.

Lemma addCandidateTask_records c a :
  existsb (fun candidate => Equal candidate c)
          (default [] (localCandidates (addCandidateTask c a) !! c_NetworkType c)) = true.
Proof.
  unfold addCandidateTask.
  destruct (existsb _ (default [] (localCandidates a !! c_NetworkType c))) eqn:Hknown;
    [ done | ].
  cbv zeta. unfold requestConnectivityCheck.
  cbn [localCandidates remoteCandidates set_candidateEvents set_forceCandidateContact
       set_localCandidates].
  assert (forall a1 : Agent (Sel := Sel),
             localCandidates a1
             = <[ c_NetworkType c :=
                    default [] (localCandidates a !! c_NetworkType c) ++ [c] ]>
                 (localCandidates a) ->
             existsb (fun candidate => Equal candidate c)
               (default [] (localCandidates a1 !! c_NetworkType c)) = true) as Hins.
  { intros a1 ->. rewrite lookup_insert_eq. cbn.
    rewrite existsb_app. cbn. rewrite Equal_refl. apply orb_true_r. }
  destruct (remoteCandidates a !! c_NetworkType c) as [ remotes | ].
  - apply Hins. by rewrite (foldl_preserves localCandidates).
  - by apply Hins.
Qed.

(** X19.  Once [addRemoteCandidate(c)] has run, [findRemoteCandidate]
    finds, for the network type and the transport address of [c], a remote
    candidate of the agent with that address; and whatever
    [findRemoteCandidate] returns is a remote candidate of the network type
    asked for, with the address asked for. *)
Theorem findRemoteCandidate_after_addRemoteCandidate c dialed a :
  (exists c',
     findRemoteCandidate (c_NetworkType c) (Some (addr c)) (addRemoteCandidate c dialed a)
     = Some c')
  /\ forall networkType parsed c' a0,
       findRemoteCandidate networkType parsed a0 = Some c' ->
       parsed = Some (addr c')
       /\ exists cs, remoteCandidates a0 !! networkType = Some cs /\ c' ∈ cs.
Proof.
  split.
  - pose proof (addRemoteCandidate_records c dialed a) as Hrec.
    apply existsb_exists in Hrec as (x & Hx & Heq).
    unfold findRemoteCandidate, addr at 1.
    destruct (List.find _ _) as [ c' | ] eqn:Hfind; [ by exists c' | ].
    pose proof (List.find_none _ _ Hfind x Hx) as Hno. cbv beta in Hno.
    apply Equal_addr in Heq. injection Heq as Ha Hp.
    rewrite Ha, Hp, String.eqb_refl, Z.eqb_refl in Hno. discriminate.
  - intros networkType parsed c' a0. unfold findRemoteCandidate.
    destruct parsed as [ [ip port] | ]; [ | discriminate ].
    intros (Hin & Hm)%List.find_some.
    apply andb_true_iff in Hm as (Ha%String.eqb_eq & Hp%Z.eqb_eq).
    split; [ unfold addr; congruence | ].
    destruct (remoteCandidates a0 !! networkType) as [ cs | ]; cbn in Hin; [ | done ].
    exists cs. split; [ done | ]. by apply list_elem_of_In.
Qed.

(** ** Listing the candidates *)

Lemma elem_of_allCandidates c (m : gmap NetworkType (list Candidate)) :
  c ∈ allCandidates m <-> inCandidates c m.
Proof.
  unfold allCandidates, inCandidates. rewrite list_elem_of_In, in_concat. split.
  - intros (cs & Hcs%list_elem_of_In & Hc%list_elem_of_In).
    apply list_elem_of_fmap in Hcs as ([t cs'] & -> & Hin).
    apply elem_of_map_to_list in Hin. by exists t, cs'.
  - intros (t & cs & Hm & Hc). exists cs. split; [ | by apply list_elem_of_In ].
    apply list_elem_of_In, list_elem_of_fmap. exists (t, cs). split; [ done | ].
    by apply elem_of_map_to_list.
Qed.

(** X20.  On an open agent, the list that [GetRemoteCandidates] returns
    holds exactly the candidates of the remote-candidate map, and so, once
    the goroutine of [AddRemoteCandidate] has added [c], a candidate equal
    to [c]; likewise [GetLocalCandidates] after an [addCandidate] whose
    task the loop has taken.  An [addCandidate] that ends on its caller's
    done context returns the error of the context and leaves the agent as
    it is. *)
Theorem GetCandidates_after_add c dialed a :
  doneCh a = false ->
  (forall a0 : Agent (Sel := Sel), doneCh a0 = false ->
     exists remotes locals,
       GetRemoteCandidates a0 = Ok remotes /\ GetLocalCandidates a0 = Ok locals
       /\ (forall c', c' ∈ remotes <-> inCandidates c' (remoteCandidates a0))
       /\ (forall c', c' ∈ locals <-> inCandidates c' (localCandidates a0)))
  /\ (exists remotes c',
        fst (goAddRemoteCandidate c dialed a) = None
        /\ GetRemoteCandidates (snd (goAddRemoteCandidate c dialed a)) = Ok remotes
        /\ c' ∈ remotes /\ Equal c' c = true)
  /\ (exists locals c',
        fst (addCandidate None c a) = None
        /\ GetLocalCandidates (snd (addCandidate None c a)) = Ok locals
        /\ c' ∈ locals /\ Equal c' c = true)
  /\ (forall e, addCandidate (Some e) c a = (Some e, a)).
Proof.
  intros Hopen. split; [ | split; [ | split ] ];
    [ | | | intros e; unfold addCandidate, runCtx, ok; by rewrite Hopen ].
  - intros a0 Hopen0. unfold GetRemoteCandidates, GetLocalCandidates, ok.
    rewrite Hopen0. eexists _, _. split; [ done | ]. split; [ done | ].
    split; intros c'; apply elem_of_allCandidates.
  - unfold goAddRemoteCandidate, run, ok. rewrite Hopen. cbn [fst snd].
    pose proof (addRemoteCandidate_records c dialed a) as Hrec.
    apply existsb_exists in Hrec as (x & Hx%list_elem_of_In & Heq).
    apply default_lookup_elem in Hx.
    assert (doneCh (addRemoteCandidate c dialed a) = false) as Hopen'.
    { unfold addRemoteCandidate. destruct (existsb _ _); [ done | ]. cbv zeta.
      unfold requestConnectivityCheck. cbn [doneCh set_forceCandidateContact].
      assert (forall a1 : Agent (Sel := Sel), doneCh a1 = false ->
                doneCh (if bool_decide (c_TCPType c <> TCPTypePassive)
                        then match localCandidates
                                     (set_remoteCandidates
                                        (<[ c_NetworkType c :=
                                              default []
                                                (remoteCandidates a !! c_NetworkType c)
                                              ++ [c] ]> (remoteCandidates a1)) a1)
                                   !! c_NetworkType c with
                             | Some localCandidates =>
                                 foldl (fun a2 localCandidate =>
                                          snd (addPair localCandidate c a2))
                                   (set_remoteCandidates
                                      (<[ c_NetworkType c :=
                                            default []
                                              (remoteCandidates a !! c_NetworkType c)
                                            ++ [c] ]> (remoteCandidates a1)) a1)
                                   localCandidates
                             | None =>
                                 set_remoteCandidates
                                   (<[ c_NetworkType c :=
                                         default []
                                           (remoteCandidates a !! c_NetworkType c)
                                         ++ [c] ]> (remoteCandidates a1)) a1
                             end
                        else set_remoteCandidates
                               (<[ c_NetworkType c :=
                                     default [] (remoteCandidates a !! c_NetworkType c)
                                     ++ [c] ]> (remoteCandidates a1)) a1) = false) as Hrest.
      { intros a1 Ha1. destruct (bool_decide _); [ | done ].
        destruct (_ !! _); [ | done ]. by rewrite (foldl_preserves doneCh). }
      apply Hrest. destruct (_ && _); [ | done ].
      unfold addRemotePassiveTCPCandidate. destruct dialed; [ | done ].
      by rewrite (foldl_preserves doneCh). }
    unfold GetRemoteCandidates, ok. rewrite Hopen'.
    eexists _, x. split; [ done | ]. split; [ done | ].
    split; [ by apply elem_of_allCandidates | done ].
  - unfold addCandidate, runCtx, ok. rewrite Hopen. cbn [fst snd].
    pose proof (addCandidateTask_records c a) as Hrec.
    apply existsb_exists in Hrec as (x & Hx%list_elem_of_In & Heq).
    apply default_lookup_elem in Hx.
    assert (doneCh (addCandidateTask c a) = false) as Hopen'.
    { unfold addCandidateTask. destruct (existsb _ _); [ done | ]. cbv zeta.
      unfold requestConnectivityCheck.
      cbn [doneCh remoteCandidates set_candidateEvents set_forceCandidateContact
           set_localCandidates].
      destruct (_ !! _); [ | done ]. by rewrite (foldl_preserves doneCh). }
    unfold GetLocalCandidates, ok. rewrite Hopen'.
    eexists _, x. split; [ done | ]. split; [ done | ].
    split; [ by apply elem_of_allCandidates | done ].
Qed.

(** ** Releasing the candidates *)

Lemma elem_of_candidatePtrs n (m : gmap NetworkType (list Candidate)) :
  n ∈ candidatePtrs m <-> exists c, inCandidates c m /\ c_ptr c = n.
Proof.
  unfold candidatePtrs.
  apply (map_fold_weak_ind
           (fun acc m => n ∈ acc <-> exists c, inCandidates c m /\ c_ptr c = n)).
  - split; [ set_solver | ].
    intros (c & (t & cs & Hm & _) & _). by rewrite lookup_empty in Hm.
  - intros t cs m0 acc Hfresh IH. rewrite elem_of_union, IH, elem_of_list_to_set.
    rewrite list_elem_of_fmap. split.
    + intros [ (c & -> & Hc) | (c & (t' & cs' & Hm & Hc) & Hn) ].
      * exists c. split; [ | done ]. exists t, cs. by rewrite lookup_insert_eq.
      * exists c. split; [ | done ]. exists t', cs'. split; [ | done ].
        rewrite lookup_insert_ne; [ done | ]. intros ->. congruence.
    + intros (c & (t' & cs' & Hm & Hc) & Hn).
      destruct (decide (t = t')) as [ <- | Hne ].
      * rewrite lookup_insert_eq in Hm. injection Hm as <-. left. by exists c.
      * rewrite lookup_insert_ne in Hm by done. right. exists c. split; [ | done ].
        by exists t', cs'.
Qed.

Lemma deleteAllCandidates_closed n a :
  n ∈ closedCandidates (deleteAllCandidates a)
  <-> n ∈ closedCandidates a
      \/ exists c, (inCandidates c (localCandidates a)
                    \/ inCandidates c (remoteCandidates a)) /\ c_ptr c = n.
Proof.
  unfold deleteAllCandidates.
  cbn [closedCandidates set_remoteCandidates set_localCandidates set_closedCandidates].
  rewrite !elem_of_union, !elem_of_candidatePtrs. split.
  - intros [ [ Hn | (c & Hc & Hp) ] | (c & Hc & Hp) ]; [ by left | right .. ];
      exists c; auto.
  - intros [ Hn | (c & [ Hc | Hc ] & Hp) ]; [ by left; left | left; right | right ];
      by exists c.
Qed.

Lemma updateConnectionState_closed n newState a :
  n ∈ closedCandidates a -> n ∈ closedCandidates (updateConnectionState newState a).
Proof.
  intros Hn. unfold updateConnectionState. case_bool_decide; [ | done ].
  cbn [closedCandidates set_connectionStateEvents set_connectionState].
  case_bool_decide; [ | done ].
  apply deleteAllCandidates_closed. by left.
Qed.

Lemma restartTask_closed n ufrag pwd a :
  n ∈ closedCandidates (deleteAllCandidates a) ->
  n ∈ closedCandidates (restartTask ufrag pwd a).
Proof.
  destruct a.
  unfold restartTask, setSelectedPair, unsetSelectedPair, deleteAllCandidates,
    updateConnectionState.
  simpl. intros Hn. repeat case_bool_decide; simpl; try done.
Qed.

Lemma failed_closed n a :
  connectionState a <> ConnectionStateFailed ->
  n ∈ closedCandidates (deleteAllCandidates a) ->
  n ∈ closedCandidates (updateConnectionState ConnectionStateFailed a).
Proof.
  intros Hstate. unfold updateConnectionState.
  rewrite (bool_decide_eq_true_2 _ Hstate).
  rewrite (bool_decide_eq_true_2 (ConnectionStateFailed = ConnectionStateFailed)) by done.
  by destruct a.
Qed.

Lemma close_closed n a :
  doneCh a = false ->
  n ∈ closedCandidates (deleteAllCandidates a) ->
  n ∈ closedCandidates (snd (close a)).
Proof.
  destruct a. unfold close, ok. simpl. intros ->.
  unfold taskLoopShutdown, updateConnectionState, deleteAllCandidates. simpl.
  intros Hn. repeat case_bool_decide; simpl; done.
Qed.

(** X21.  No candidate is left open when the agent lets its candidates
    go: [deleteAllCandidates] empties both maps and closes exactly the
    candidates they held, and so a candidate of the agent is closed after a
    restart, after a transition to Failed, and after [Close]. *)
Theorem candidates_closed_on_release c a :
  inCandidates c (localCandidates a) \/ inCandidates c (remoteCandidates a) ->
  (localCandidates (deleteAllCandidates a) = ∅
   /\ remoteCandidates (deleteAllCandidates a) = ∅
   /\ forall n, n ∈ closedCandidates (deleteAllCandidates a)
                <-> n ∈ closedCandidates a
                    \/ exists c', (inCandidates c' (localCandidates a)
                                   \/ inCandidates c' (remoteCandidates a))
                                  /\ c_ptr c' = n)
  /\ (forall ufrag pwd, c_ptr c ∈ closedCandidates (restartTask ufrag pwd a))
  /\ (connectionState a <> ConnectionStateFailed ->
      c_ptr c ∈ closedCandidates (updateConnectionState ConnectionStateFailed a))
  /\ (doneCh a = false -> c_ptr c ∈ closedCandidates (snd (close a))).
Proof.
  intros Hc.
  assert (c_ptr c ∈ closedCandidates (deleteAllCandidates a)) as Hdel.
  { apply deleteAllCandidates_closed. right. by exists c. }
  split; [ | split; [ | split ] ].
  - split; [ by destruct a | ]. split; [ by destruct a | ].
    intros n. apply deleteAllCandidates_closed.
  - intros ufrag pwd. by apply restartTask_closed.
  - intros Hstate. by apply failed_closed.
  - intros Hopen. by apply close_closed.
Qed.

(** ** Dispatching a remote candidate *)

(** X22.  [AddRemoteCandidate] never touches the agent itself and starts
    at most one goroutine, for the candidate it was given.  An active TCP
    candidate is dropped without an error; the only error is
    [ErrAddressParseFailed], for a host-typed [.local] candidate that is
    not a host candidate, and no goroutine is started with it. *)
Theorem AddRemoteCandidate_dispatch c a :
  snd (AddRemoteCandidate c a) = a
  /\ (forall c0, c = Some c0 -> c_TCPType c0 = TCPTypeActive ->
                 fst (AddRemoteCandidate c a) = (None, []))
  /\ (forall g, g ∈ snd (fst (AddRemoteCandidate c a)) ->
        snd (fst (AddRemoteCandidate c a)) = [g]
        /\ fst (fst (AddRemoteCandidate c a)) = None
        /\ exists c0, c = Some c0 /\ c_TCPType c0 <> TCPTypeActive
             /\ (g = GoAddRemoteCandidate c0
                 \/ g = GoResolveAndAddMulticastCandidate c0
                    /\ mDNSMode a <> MulticastDNSModeDisabled
                    /\ c_Type c0 = CandidateTypeHost /\ c_isHost c0 = true
                    /\ HasSuffix (c_Address c0) ".local" = true))
  /\ (forall e, fst (fst (AddRemoteCandidate c a)) = Some e ->
        e = ErrAddressParseFailed
        /\ snd (fst (AddRemoteCandidate c a)) = []
        /\ exists c0, c = Some c0 /\ c_Type c0 = CandidateTypeHost
             /\ c_isHost c0 = false /\ HasSuffix (c_Address c0) ".local" = true
             /\ mDNSMode a <> MulticastDNSModeDisabled).
Proof.
  unfold AddRemoteCandidate. destruct c as [ c0 | ].
  - destruct (bool_decide (c_TCPType c0 = TCPTypeActive)) eqn:Hactive.
    + apply bool_decide_eq_true in Hactive. cbn.
      split; [ done | ]. split; [ done | ]. split; [ | done ].
      intros g Hg. by apply elem_of_nil in Hg.
    + apply bool_decide_eq_false in Hactive.
      assert (forall r : option Error * list Goroutine * Agent (Sel := Sel),
                 forall c1, Some c0 = Some c1 -> c_TCPType c1 = TCPTypeActive ->
                            fst r = (None, [])) as Hnot.
      { intros r c1 [= <-] Hact. contradiction. }
      destruct (bool_decide (c_Type c0 = CandidateTypeHost)) eqn:Htype; cbn [andb].
      * apply bool_decide_eq_true in Htype.
        destruct (HasSuffix (c_Address c0) ".local") eqn:Hlocal.
        -- destruct (bool_decide (mDNSMode a = MulticastDNSModeDisabled)) eqn:Hmode.
           ++ split; [ done | ]. split; [ apply Hnot | ]. split; [ | done ].
              intros g Hg. by apply elem_of_nil in Hg.
           ++ apply bool_decide_eq_false in Hmode.
              destruct (c_isHost c0) eqn:Hhost.
              ** split; [ done | ]. split; [ apply Hnot | ]. split; [ | done ].
                 cbn [fst snd]. intros g ->%list_elem_of_singleton. split; [ done | ].
                 split; [ done | ]. exists c0. split; [ done | ]. split; [ done | ].
                 right. done.
              ** split; [ done | ]. split; [ apply Hnot | ]. cbn [fst snd]. split.
                 --- intros g Hg. by apply elem_of_nil in Hg.
                 --- intros e [= <-]. split; [ done | ]. split; [ done | ]. by exists c0.
        -- split; [ done | ]. split; [ apply Hnot | ]. split; [ | done ].
           cbn [fst snd]. intros g ->%list_elem_of_singleton. split; [ done | ].
           split; [ done | ]. exists c0. split; [ done | ]. split; [ done | ]. by left.
      * split; [ done | ]. split; [ apply Hnot | ]. split; [ | done ].
        cbn [fst snd]. intros g ->%list_elem_of_singleton. split; [ done | ].
        split; [ done | ]. exists c0. split; [ done | ]. split; [ done | ]. by left.
  - split; [ done | ]. split; [ done | ]. split; [ | done ].
    cbn [fst snd]. intros g Hg. by apply elem_of_nil in Hg.
Qed.

End CandidateLookupFacts.

Section ContactFacts.

Context {Sel : Type} `{pairCandidateSelector Sel}.
Variable ContactCandidates : Agent (Sel := Sel) -> Agent (Sel := Sel).

Implicit Types a : Agent (Sel := Sel).

(** X23.  [contact] does nothing to an agent that is closed or Failed:
    the agent is left as it is, whatever the selector would do, and on a
    closed agent the variables of the loop are left as well. *)
Theorem contact_idle now1 now2 st a :
  doneCh a = true \/ connectionState a = ConnectionStateFailed ->
  snd (contact ContactCandidates now1 now2 st a) = a
  /\ checkingDuration (fst (contact ContactCandidates now1 now2 st a))
     = checkingDuration st
  /\ (doneCh a = true -> fst (contact ContactCandidates now1 now2 st a) = st).
Proof.
  unfold contact, ok, contactTask.
  destruct (doneCh a) eqn:Hdone; [ done | ].
  intros [ | -> ]; done.
Qed.

(** X24.  The time allowed in Checking runs from the first contact made
    in that state.  When an open agent has just entered Checking, the first
    contact records its clock reading and, as long as the selector leaves
    the agent open and Checking, a later contact moves the agent to Failed,
    without consulting the selector, exactly when [disconnectedTimeout +
    failedTimeout] is less than the time elapsed since that first
    reading. *)
Theorem contact_checking_deadline now1 now2 later1 later2 st a :
  doneCh a = false ->
  connectionState a = ConnectionStateChecking ->
  lastConnectionState st <> ConnectionStateChecking ->
  time.Since now2 now1 <= time.add (disconnectedTimeout a) (failedTimeout a) ->
  doneCh (ContactCandidates a) = false ->
  connectionState (ContactCandidates a) = ConnectionStateChecking ->
  let first := contact ContactCandidates now1 now2 st a in
  let second := contact ContactCandidates later1 later2 (fst first) (snd first) in
  let deadline :=
    time.add (disconnectedTimeout (snd first)) (failedTimeout (snd first)) in
  snd first = ContactCandidates a
  /\ checkingDuration (fst first) = now1
  /\ checkingDuration (fst second) = now1
  /\ (deadline < time.Since later2 now1 ->
      snd second = updateConnectionState ConnectionStateFailed (snd first)
      /\ connectionState (snd second) = ConnectionStateFailed)
  /\ (time.Since later2 now1 <= deadline ->
      snd second = ContactCandidates (snd first)).
Proof.
  intros Hopen Hstate Hlast Hfirst Hopen' Hstate' first second deadline.
  assert (first = ({| lastConnectionState := ConnectionStateChecking;
                      checkingDuration := now1 |}, ContactCandidates a)) as Hf.
  { subst first. unfold contact, ok, contactTask. rewrite Hopen, Hstate.
    rewrite (bool_decide_eq_true_2 _ Hlast).
    destruct (Z.ltb_spec (time.add (disconnectedTimeout a) (failedTimeout a))
                (time.Since now2 now1)); [ lia | ].
    by rewrite Hstate'. }
  subst second deadline. rewrite Hf. cbn [fst snd].
  unfold contact, ok, contactTask. rewrite Hopen', Hstate'.
  cbn [lastConnectionState checkingDuration].
  rewrite (bool_decide_eq_false_2
             (ConnectionStateChecking <> ConnectionStateChecking)) by tauto.
  destruct (Z.ltb_spec
              (time.add (disconnectedTimeout (ContactCandidates a))
                 (failedTimeout (ContactCandidates a)))
              (time.Since later2 now1)); cbn [fst snd checkingDuration].
  - repeat split; try done; try lia. apply updateConnectionState_state.
  - repeat split; try done; lia.
Qed.

End ContactFacts.

Section PingFacts.

Context {Sel : Type}.
Variable maxBindingRequests : Z.
Variable PingCandidate : Candidate -> Candidate -> Agent (Sel := Sel) -> Agent (Sel := Sel).

Implicit Types a : Agent (Sel := Sel).

Hypothesis PingCandidate_pairs :
  forall local remote a, pairs (PingCandidate local remote a) = pairs a.

Local Abbreviation pinged := (pingedFrom maxBindingRequests).
Local Abbreviation ping := (pingPair maxBindingRequests PingCandidate).

Lemma pingedFrom_refl p : pinged p p.
Proof. unfold pingedFrom. repeat split; auto; lia. Qed.

Lemma pingedFrom_trans p p' p'' : pinged p p' -> pinged p' p'' -> pinged p p''.
Proof.
  unfold pingedFrom.
  intros (HL & HR & Hn & Hr & Hfrom & Hto & Hcount)
         (HL' & HR' & Hn' & Hr' & Hfrom' & Hto' & Hcount').
  split; [ congruence | ]. split; [ congruence | ]. split; [ congruence | ].
  split; [ congruence | ]. split; [ | split ].
  - destruct Hfrom as [ ? | [ ? | -> ] ]; auto.
  - destruct Hto' as [ ? | [ ? | -> ] ]; auto.
  - intros Hmax Hp. specialize (Hcount Hmax Hp).
    assert (0 <= bindingRequestCount p' <= maxBindingRequests + 1) as Hp' by lia.
    specialize (Hcount' Hmax Hp'). lia.
Qed.

Lemma pingedFrom_not_waiting p p' :
  pinged p p' -> state p <> CandidatePairStateWaiting ->
  state p' <> CandidatePairStateWaiting.
Proof.
  intros (_ & _ & _ & _ & _ & Hto & _) Hp.
  destruct Hto as [ -> | [ -> | -> ] ]; done.
Qed.

Lemma pingPair_step a l l' p :
  pairs a !! l' = Some p ->
  exists p', pairs (ping a l) !! l' = Some p' /\ pinged p p'
             /\ (l' = l -> state p' <> CandidatePairStateWaiting)
             /\ (l' <> l -> p' = p).
Proof.
  intros Hp. unfold pingPair.
  destruct (decide (l' = l)) as [ -> | Hne ].
  - rewrite Hp.
    assert (forall a0 : Agent (Sel := Sel), forall p0,
               pairs a0 !! l = Some p0 -> state p0 = CandidatePairStateInProgress ->
               bindingRequestCount p0 = bindingRequestCount p ->
               Local p0 = Local p -> Remote p0 = Remote p ->
               nominated p0 = nominated p ->
               iceRoleControlling p0 = iceRoleControlling p ->
               state p = CandidatePairStateWaiting
               \/ state p = CandidatePairStateInProgress ->
               exists p',
                 pairs (if maxBindingRequests <? bindingRequestCount p
                        then set_pairs
                               (alter (setState CandidatePairStateFailed) l (pairs a0)) a0
                        else set_pairs
                               (alter countRequest l
                                  (pairs (PingCandidate (Local p) (Remote p) a0)))
                               (PingCandidate (Local p) (Remote p) a0)) !! l = Some p'
                 /\ pinged p p'
                 /\ (l = l -> state p' <> CandidatePairStateWaiting)
                 /\ (l <> l -> p' = p)) as Hrequest.
    { intros a0 p0 Hp0 Hs0 Hc0 HL0 HR0 Hn0 Hr0 Hfrom.
      destruct (Z.ltb_spec maxBindingRequests (bindingRequestCount p)).
      - exists (setState CandidatePairStateFailed p0).
        cbn [pairs set_pairs]. rewrite lookup_alter_eq, Hp0.
        split; [ done | ]. split; [ | split; [ done | done ] ].
        unfold pingedFrom. cbn. rewrite Hc0.
        repeat split; auto; try tauto; lia.
      - exists (countRequest p0).
        cbn [pairs set_pairs].
        rewrite PingCandidate_pairs, lookup_alter_eq, Hp0.
        split; [ done | ]. split; [ | split; [ cbn; by rewrite Hs0 | done ] ].
        unfold pingedFrom. cbn. rewrite Hs0, Hc0.
        repeat split; auto; try tauto; unfold uint16; intros;
          rewrite Z.mod_small; lia. }
    destruct (state p) eqn:Hstate.
    + apply (Hrequest _ (setState CandidatePairStateInProgress p)); auto.
      cbn [pairs set_pairs]. by rewrite lookup_alter_eq, Hp.
    + apply (Hrequest a p); auto.
    + exists p. rewrite Hp. split; [ done | ].
      split; [ apply pingedFrom_refl | ]. split; [ by rewrite Hstate | done ].
    + exists p. rewrite Hp. split; [ done | ].
      split; [ apply pingedFrom_refl | ]. split; [ by rewrite Hstate | done ].
    + exists p. rewrite Hp. split; [ done | ].
      split; [ apply pingedFrom_refl | ]. split; [ by rewrite Hstate | done ].
  - exists p. split; [ | split; [ apply pingedFrom_refl | done ] ].
    destruct (pairs a !! l) as [ q | ] eqn:Hq; [ | done ].
    assert (forall a0 : Agent (Sel := Sel),
               pairs a0 !! l' = Some p ->
               pairs (if maxBindingRequests <? bindingRequestCount q
                      then set_pairs
                             (alter (setState CandidatePairStateFailed) l (pairs a0)) a0
                      else set_pairs
                             (alter countRequest l
                                (pairs (PingCandidate (Local q) (Remote q) a0)))
                             (PingCandidate (Local q) (Remote q) a0)) !! l'
               = Some p) as Hrequest.
    { intros a0 Hp0. destruct (_ <? _); cbn [pairs set_pairs].
      - by rewrite lookup_alter_ne.
      - by rewrite PingCandidate_pairs, lookup_alter_ne. }
    destruct (state q); try done.
    + apply Hrequest. cbn [pairs set_pairs]. by rewrite lookup_alter_ne.
    + by apply Hrequest.
Qed.

Lemma pingPairs_fold ls : forall a l p,
  pairs a !! l = Some p ->
  exists p', pairs (foldl ping a ls) !! l = Some p' /\ pinged p p'
             /\ (l ∈ ls -> state p' <> CandidatePairStateWaiting)
             /\ (l ∉ ls -> p' = p).
Proof.
  induction ls as [ | l0 ls IH ]; intros a l p Hp; cbn [foldl].
  - exists p. split; [ done | ]. split; [ apply pingedFrom_refl | ].
    split; [ | done ]. intros Hl. by apply elem_of_nil in Hl.
  - destruct (pingPair_step a l0 l p Hp) as (p1 & Hp1 & Hstep & Hhere & Hother).
    destruct (IH _ l p1 Hp1) as (p' & Hp' & Hrest & Hin & Hout).
    exists p'. split; [ done | ]. split; [ by eapply pingedFrom_trans | ]. split.
    + intros [ -> | Hl ]%elem_of_cons.
      * eapply pingedFrom_not_waiting; [ exact Hrest | by apply Hhere ].
      * by apply Hin.
    + intros Hl. apply not_elem_of_cons in Hl as (Hne & Hl).
      by rewrite (Hout Hl), (Hother Hne).
Qed.

(** X25.  Provided the selector's ping leaves the pairs alone, a round of
    [pingAllCandidates] keeps every pair, with its endpoints, role and
    nomination; it touches only the pairs of the checklist that are Waiting
    or InProgress, which end InProgress or Failed, so that no pair of the
    checklist is left Waiting; and, [maxBindingRequests] being below 65535,
    a count of requests within [maxBindingRequests + 1] stays within it. *)
Theorem pingAllCandidates_advances a l p :
  pairs a !! l = Some p ->
  exists p',
    pairs (pingAllCandidates maxBindingRequests PingCandidate a) !! l = Some p'
    /\ pingedFrom maxBindingRequests p p'
    /\ (l ∈ checklist a -> state p' <> CandidatePairStateWaiting)
    /\ (l ∉ checklist a -> p' = p).
Proof. apply pingPairs_fold. Qed.

End PingFacts.

(** * Instances of the further properties *)

(** A sole IP and an explicit mapping of IPv4 in one list. *)
Lemma newExternalIPMapper_rejects_mixing_witness :
  exists e, newExternalIPMapper literalParseIP literalIPString CandidateTypeHost
              ["1.2.3.4"; "1.2.3.4/10.0.0.1"]%string = Err e.
Proof.
  apply (newExternalIPMapper_rejects_mixing literalParseIP literalIPString
           CandidateTypeHost ["1.2.3.4"; "1.2.3.4/10.0.0.1"]%string
           "1.2.3.4" "1.2.3.4/10.0.0.1" "1.2.3.4" "1.2.3.4" "10.0.0.1"
           (v4InV6 1 2 3 4) (v4InV6 1 2 3 4) (v4InV6 10 0 0 1)).
  - by left.
  - reflexivity.
  - reflexivity.
  - right. by left.
  - reflexivity.
  - reflexivity.
  - reflexivity.
  - reflexivity.
Defined.

(** The sole IP 1.2.3.4 answers for the local address 10.0.0.1. *)
Lemma findExternalIP_sole_witness :
  findExternalIP literalParseIP literalIPString soleMapper "10.0.0.1"
  = Ok (v4InV6 1 2 3 4).
Proof.
  apply (findExternalIP_sole literalParseIP literalIPString CandidateTypeHost
           ["1.2.3.4"%string] soleMapper "1.2.3.4" "1.2.3.4" (v4InV6 1 2 3 4)
           "10.0.0.1" (v4InV6 10 0 0 1)).
  - vm_compute. reflexivity.
  - by left.
  - reflexivity.
  - reflexivity.
  - reflexivity.
  - reflexivity.
Defined.

(** The explicit mapping of 10.0.0.1 to 1.2.3.4. *)
Lemma findExternalIP_explicit_witness :
  findExternalIP literalParseIP literalIPString explicitMapper "10.0.0.1"
  = Ok (v4InV6 1 2 3 4).
Proof.
  apply (findExternalIP_explicit literalParseIP literalIPString CandidateTypeHost
           ["1.2.3.4/10.0.0.1"%string] explicitMapper "1.2.3.4/10.0.0.1"
           "1.2.3.4" "10.0.0.1" (v4InV6 1 2 3 4) (v4InV6 10 0 0 1)).
  - vm_compute. reflexivity.
  - by left.
  - reflexivity.
  - reflexivity.
  - reflexivity.
Defined.

(** The same explicit mapping twice. *)
Lemma newExternalIPMapper_rejects_duplicate_local_witness :
  exists e, newExternalIPMapper literalParseIP literalIPString CandidateTypeHost
              ([] ++ "1.2.3.4/10.0.0.1"%string :: [] ++ "1.2.3.4/10.0.0.1"%string :: [])
            = Err e.
Proof.
  apply (newExternalIPMapper_rejects_duplicate_local literalParseIP literalIPString
           CandidateTypeHost [] [] [] "1.2.3.4/10.0.0.1" "1.2.3.4/10.0.0.1"
           "1.2.3.4" "10.0.0.1" "1.2.3.4" "10.0.0.1"
           (v4InV6 1 2 3 4) (v4InV6 10 0 0 1) (v4InV6 1 2 3 4) (v4InV6 10 0 0 1));
    reflexivity.
Defined.

(** [Close] on the agent with one pair, and [Close] again. *)
Lemma close_is_final_witness :
  doneCh pairedAgent = false
  /\ connectionState (snd (close pairedAgent)) = ConnectionStateClosed
  /\ close (snd (close pairedAgent)) = (None, snd (close pairedAgent)).
Proof.
  assert (doneCh pairedAgent = false) as Hopen by (vm_compute; reflexivity).
  split; [ exact Hopen | ].
  destruct (close_is_final pairedAgent Hopen) as (_ & Hstate & _ & _ & Hagain & _).
  split; [ exact Hstate | exact Hagain ].
Defined.

(** The checks are started on the agent with one pair, then once more. *)
Lemma startConnectivityChecks_once_witness :
  let a1 := snd (startConnectivityChecks true "remoteUfrag" "remotePwd" pairedAgent) in
  connectionState a1 = ConnectionStateChecking
  /\ startConnectivityChecks false "other" "secret" a1 = (Some ErrMultipleStart, a1).
Proof.
  intros a1.
  assert (startConnectivityChecks true "remoteUfrag" "remotePwd" pairedAgent = (None, a1))
    as Hstart by (vm_compute; reflexivity).
  destruct (startConnectivityChecks_once true "remoteUfrag" "remotePwd" pairedAgent a1
              Hstart) as (_ & Hstate & _ & _ & _ & _ & _ & Hagain).
  split; [ exact Hstate | apply Hagain ].
Defined.

(** The connected agent fails. *)
Lemma updateConnectionState_failed_releases_witness :
  connectionState connectedAgent = ConnectionStateConnected
  /\ checklist (updateConnectionState ConnectionStateFailed connectedAgent) = []
  /\ selectedPair (updateConnectionState ConnectionStateFailed connectedAgent) = None.
Proof.
  split; [ vm_compute; reflexivity | ].
  assert (connectionState connectedAgent <> ConnectionStateFailed) as Hstate
    by (vm_compute; discriminate).
  destruct (updateConnectionState_failed_releases connectedAgent Hstate)
    as (_ & Hchecklist & _ & Hselected & _).
  split; [ exact Hchecklist | exact Hselected ].
Defined.

(** A year of silence does not fail the agent whose [failedTimeout] is 0. *)
Lemma validateSelectedPair_without_failedTimeout_witness :
  let a' := snd (validateSelectedPair (31536000 * time.Second) patientAgent) in
  (connectionState a' = ConnectionStateDisconnected
   \/ connectionState a' = ConnectionStateConnected)
  /\ checklist a' = checklist patientAgent.
Proof.
  intros a'.
  assert (getSelectedPair patientAgent = Some nominatedPair) as Hsel
    by (vm_compute; reflexivity).
  assert (failedTimeout patientAgent = 0) as Hft by (vm_compute; reflexivity).
  destruct (validateSelectedPair_without_failedTimeout (31536000 * time.Second)
              patientAgent nominatedPair Hsel Hft) as (Hstate & _ & Hchecklist & _).
  split; [ exact Hstate | exact Hchecklist ].
Defined.

(** The pair of the agent with one pair is selected. *)
Lemma setSelectedPair_nominates_witness :
  getSelectedPair (setSelectedPair (Some 0%nat) pairedAgent) = Some nominatedPair
  /\ connectionState (setSelectedPair (Some 0%nat) pairedAgent)
     = ConnectionStateConnected.
Proof.
  assert (pairs pairedAgent !! 0%nat = Some (newCandidatePair localHost remoteHost false))
    as Hpair by (vm_compute; reflexivity).
  destruct (setSelectedPair_nominates 0%nat _ pairedAgent Hpair)
    as (Hsel & _ & _ & _ & _ & Hstate & _).
  split; [ exact Hsel | exact Hstate ].
Defined.

(** The remote host candidate is added to the agent that has gathered the
    local one. *)
Lemma addRemoteCandidate_pairs_with_locals_witness :
  extendsChecklist gatheredAgent (addRemoteCandidate remoteHost None gatheredAgent)
    (fun localCandidate =>
       newCandidatePair localCandidate remoteHost (isControlling gatheredAgent))
    (default [] (localCandidates gatheredAgent !! c_NetworkType remoteHost)).
Proof.
  assert (existsb (fun candidate => Equal candidate remoteHost)
            (default [] (remoteCandidates gatheredAgent !! c_NetworkType remoteHost))
          = false) as Hnew by (vm_compute; reflexivity).
  assert (c_TCPType remoteHost <> TCPTypePassive) as Hactive
    by (vm_compute; discriminate).
  destruct (addRemoteCandidate_pairs_with_locals remoteHost None gatheredAgent
              Hnew Hactive) as (_ & _ & _ & Hext).
  exact Hext.
Defined.

(** The remote host candidate is added to the new agent and listed; the
    local one is not added when the caller's context has been cancelled. *)
Lemma GetCandidates_after_add_witness :
  (exists remotes c',
     fst (goAddRemoteCandidate remoteHost None udpAgent) = None
     /\ GetRemoteCandidates (snd (goAddRemoteCandidate remoteHost None udpAgent))
        = Ok remotes
     /\ c' ∈ remotes /\ Equal c' remoteHost = true)
  /\ addCandidate (Some ErrContextCanceled) remoteHost udpAgent
     = (Some ErrContextCanceled, udpAgent).
Proof.
  assert (doneCh udpAgent = false) as Hopen by (vm_compute; reflexivity).
  destruct (GetCandidates_after_add remoteHost None udpAgent Hopen)
    as (_ & Hremote & _ & Hcancelled).
  split; [ exact Hremote | apply Hcancelled ].
Defined.

(** The local candidate of the agent with one pair is closed by [Close]. *)
Lemma candidates_closed_on_release_witness :
  c_ptr localHost ∈ closedCandidates (snd (close pairedAgent)).
Proof.
  assert (inCandidates localHost (localCandidates pairedAgent)
          \/ inCandidates localHost (remoteCandidates pairedAgent)) as Hheld.
  { left. exists NetworkTypeUDP4, [localHost]. split; [ vm_compute; reflexivity | by left ]. }
  destruct (candidates_closed_on_release localHost pairedAgent Hheld)
    as (_ & _ & _ & Hclose).
  apply Hclose. vm_compute. reflexivity.
Defined.

(** A contact on the closed agent. *)
Lemma contact_idle_witness :
  snd (contact idleContactCandidates 0 0 checkLoopStart (snd (close pairedAgent)))
  = snd (close pairedAgent).
Proof.
  assert (doneCh (snd (close pairedAgent)) = true
          \/ connectionState (snd (close pairedAgent)) = ConnectionStateFailed) as Hidle.
  { left. vm_compute. reflexivity. }
  destruct (contact_idle idleContactCandidates 0 0 checkLoopStart
              (snd (close pairedAgent)) Hidle) as (Hsame & _).
  exact Hsame.
Defined.

(** Timeouts of 5s and 25s: a contact at 0s, then one at 40s. *)
Lemma contact_checking_deadline_witness :
  let first := contact idleContactCandidates 0 time.Second checkLoopStart checkingAgent in
  let second :=
    contact idleContactCandidates (40 * time.Second) (40 * time.Second)
      (fst first) (snd first) in
  connectionState (snd second) = ConnectionStateFailed.
Proof.
  intros first second.
  destruct (contact_checking_deadline idleContactCandidates 0 time.Second
              (40 * time.Second) (40 * time.Second) checkLoopStart checkingAgent)
    as (_ & _ & _ & Hfail & _).
  - vm_compute. reflexivity.
  - vm_compute. reflexivity.
  - vm_compute. discriminate.
  - vm_compute. discriminate.
  - vm_compute. reflexivity.
  - vm_compute. reflexivity.
  - apply Hfail. vm_compute. reflexivity.
Defined.

(** A round of pings on the agent with one pair, with up to 7 requests. *)
Lemma pingAllCandidates_advances_witness :
  exists p',
    pairs (pingAllCandidates 7 idlePingCandidate pairedAgent) !! 0%nat = Some p'
    /\ pingedFrom 7 (newCandidatePair localHost remoteHost false) p'
    /\ (0%nat ∈ checklist pairedAgent -> state p' <> CandidatePairStateWaiting)
    /\ (0%nat ∉ checklist pairedAgent -> p' = newCandidatePair localHost remoteHost false).
Proof.
  apply (pingAllCandidates_advances 7 idlePingCandidate (fun _ _ _ => eq_refl)
           pairedAgent 0%nat).
  vm_compute. reflexivity.
Defined.
